(** * gdrive: recursive download from a remote drive

    A shallow embedding of [pkg/download/download.go] (the version with the
    persisted task list) and the properties of its tree walk, its task list
    store and its transfer loop.

    Go strings are byte sequences: they are modelled by [string], whose
    characters are the 256 values of [ascii].  The parts of the Go standard
    library the program relies on ([unicode/utf8], [encoding/json] at the
    type [[]Task], [path/filepath] on Unix, [strings.HasSuffix]) are
    modelled next to it, each in a module named like its package. *)

From Stdlib Require Import NArith Ascii String List Lia Permutation.
From stdpp Require Import base option list gmap strings.
Import ListNotations.
Local Open Scope string_scope.
Local Open Scope list_scope.

(** ** Bytes *)

Definition byte_val (c : ascii) : N := N_of_ascii c.
Definition byte_of (n : N) : ascii := ascii_of_N (n mod 256).

(** ** [unicode/utf8] *)

Module utf8.
Local Open Scope N_scope.

Definition RuneError : N := 0xFFFD.
Definition MaxRune : N := 0x10FFFF.
Definition surrogateMin : N := 0xD800.
Definition surrogateMax : N := 0xDFFF.

Definition maskx : N := 0x3F.
Definition mask2 : N := 0x1F.
Definition mask3 : N := 0x0F.
Definition mask4 : N := 0x07.
Definition tx : N := 0x80.
Definition t2 : N := 0xC0.
Definition t3 : N := 0xE0.
Definition t4 : N := 0xF0.
Definition rune1Max : N := 0x7F.
Definition rune2Max : N := 0x7FF.
Definition rune3Max : N := 0xFFFF.
Definition locb : N := 0x80.
Definition hicb : N := 0xBF.

(** Entries of the table [first]: the high nibble indexes [acceptRanges]
    (or is [0xF] for the one-byte cases), the low nibble is the length. *)
Definition xx : N := 0xF1.
Definition as_ : N := 0xF0.
Definition s1 : N := 0x02.
Definition s2 : N := 0x13.
Definition s3 : N := 0x03.
Definition s4 : N := 0x23.
Definition s5 : N := 0x34.
Definition s6 : N := 0x04.
Definition s7 : N := 0x44.

Definition first (b : N) : N :=
  if b <? 0x80 then as_
  else if b <? 0xC2 then xx
  else if b <? 0xE0 then s1
  else if b =? 0xE0 then s2
  else if b <? 0xED then s3
  else if b =? 0xED then s4
  else if b <? 0xF0 then s3
  else if b =? 0xF0 then s5
  else if b <? 0xF4 then s6
  else if b =? 0xF4 then s7
  else xx.

Definition acceptRanges (i : N) : N * N :=
  match i with
  | 0 => (locb, hicb)
  | 1 => (0xA0, hicb)
  | 2 => (locb, 0x9F)
  | 3 => (0x90, hicb)
  | 4 => (locb, 0x8F)
  | _ => (0, 0)
  end.

Definition cont (b : N) : bool := (locb <=? b) && (b <=? hicb).

(** [DecodeRuneInString]: the first rune of [s] and its width in bytes;
    [(RuneError, 0%nat)] on the empty string and [(RuneError, 1%nat)] on an
    encoding that is invalid or cut short. *)
Definition DecodeRuneInString (s : string) : N * nat :=
  match s with
  | EmptyString => (RuneError, 0%nat)
  | String c0 r0 =>
    let b0 := byte_val c0 in
    let x := first b0 in
    if as_ <=? x then
      (if x =? xx then RuneError else b0, 1%nat)
    else
      let sz := N.land x 7 in
      let '(lo, hi) := acceptRanges (N.shiftr x 4) in
      match r0 with
      | EmptyString => (RuneError, 1%nat)
      | String c1 r1 =>
        let b1 := byte_val c1 in
        if (b1 <? lo) || (hi <? b1) then (RuneError, 1%nat)
        else if sz <=? 2 then
          (N.lor (N.shiftl (N.land b0 mask2) 6) (N.land b1 maskx), 2%nat)
        else
          match r1 with
          | EmptyString => (RuneError, 1%nat)
          | String c2 r2 =>
            let b2 := byte_val c2 in
            if negb (cont b2) then (RuneError, 1%nat)
            else if sz <=? 3 then
              (N.lor (N.lor (N.shiftl (N.land b0 mask3) 12)
                            (N.shiftl (N.land b1 maskx) 6))
                     (N.land b2 maskx), 3%nat)
            else
              match r2 with
              | EmptyString => (RuneError, 1%nat)
              | String c3 _ =>
                let b3 := byte_val c3 in
                if negb (cont b3) then (RuneError, 1%nat)
                else
                  (N.lor (N.lor (N.lor (N.shiftl (N.land b0 mask4) 18)
                                       (N.shiftl (N.land b1 maskx) 12))
                                (N.shiftl (N.land b2 maskx) 6))
                         (N.land b3 maskx), 4%nat)
              end
          end
      end
  end.

(** [EncodeRune], returning the bytes written. *)
Definition EncodeRune (r : N) : string :=
  let three (r : N) :=
    String (byte_of (N.lor t3 (N.shiftr r 12)))
   (String (byte_of (N.lor tx (N.land (N.shiftr r 6) maskx)))
   (String (byte_of (N.lor tx (N.land r maskx))) EmptyString)) in
  if r <=? rune1Max then String (byte_of r) EmptyString
   else if r <=? rune2Max then
     String (byte_of (N.lor t2 (N.shiftr r 6)))
    (String (byte_of (N.lor tx (N.land r maskx))) EmptyString)
   else if (MaxRune <? r) || ((surrogateMin <=? r) && (r <=? surrogateMax)) then
     three RuneError
   else if r <=? rune3Max then three r
   else
     String (byte_of (N.lor t4 (N.shiftr r 18)))
    (String (byte_of (N.lor tx (N.land (N.shiftr r 12) maskx)))
    (String (byte_of (N.lor tx (N.land (N.shiftr r 6) maskx)))
    (String (byte_of (N.lor tx (N.land r maskx))) EmptyString))).

(** [ValidString]: [skip] counts the bytes of the current rune still to
    be passed over. *)
Fixpoint valid_from (skip : nat) (s : string) : bool :=
  match s with
  | EmptyString => true
  | String _ rest =>
    match skip with
    | S k => valid_from k rest
    | O =>
      let '(r, size) := DecodeRuneInString s in
      if (r =? RuneError) && (size =? 1)%nat then false
      else valid_from (size - 1) rest
    end
  end.

Definition ValidString (s : string) : bool := valid_from 0 s.

End utf8.

(** ** The task record (download.go, [type Task]) *)

Record Task := mkTask {
  FileId : string;       (* json:"id" *)
  SavePath : string;     (* json:"path" *)
  Md5Checksum : string;  (* json:"md5" *)
  Done : bool            (* json:"done" *)
}.

(** A Go slice of tasks: [None] is the nil slice, [Some l] a slice whose
    elements are [l]. *)
Definition slice : Type := option (list Task).

Definition elems (v : slice) : list Task :=
  match v with None => [] | Some l => l end.

(** Go's [error]: the text of the error message. *)
Definition error : Type := string.

(** ** [encoding/json] at the type [[]Task] *)

Module json.

Definition quote : ascii := "034"%char.
Definition backslash : ascii := "092"%char.
Definition nl : string := String "010"%char "".

Definition hex (n : N) : ascii :=
  match String.get (N.to_nat n) "0123456789abcdef" with
  | Some c => c
  | None => "0"%char
  end.

(** [htmlSafeSet]: the ASCII bytes written as they are. *)
Definition htmlSafeSet (b : N) : bool :=
  ((0x20 <=? b) && (b <? 0x80) &&
   negb ((b =? 0x22) || (b =? 0x26) || (b =? 0x3C) || (b =? 0x3E) || (b =? 0x5C)))%N.

(** The escape written for an ASCII byte outside [htmlSafeSet]. *)
Definition escape (b : N) : string :=
  String backslash
    (if (b =? 0x5C)%N then String backslash ""
     else if (b =? 0x22)%N then String quote ""
     else if (b =? 0x0A)%N then "n"
     else if (b =? 0x0D)%N then "r"
     else if (b =? 0x09)%N then "t"
     else String "u" (String "0" (String "0"
            (String (hex (N.shiftr b 4)) (String (hex (N.land b 0xF)) ""))))).

(** The loop of [encodeState.string] over the bytes of the source, with
    [escapeHTML] set (the default of an [Encoder]).  The index jump
    [i += size] of the source is the mode: [Copy k] passes over the [k]
    remaining bytes of a rune that is written as it is, [Skip k] over those
    of a rune that was written as an escape. *)
Inductive enc_mode := Scan | Copy (k : nat) | Skip (k : nat).

Fixpoint string_bytes (m : enc_mode) (s : string) : string :=
  match s with
  | EmptyString => ""
  | String c rest =>
    match m with
    | Copy (S k) => String c (string_bytes (Copy k) rest)
    | Skip (S k) => string_bytes (Skip k) rest
    | _ =>
      let b := byte_val c in
      if (b <? 0x80)%N then
        if htmlSafeSet b then String c (string_bytes Scan rest)
        else escape b ++ string_bytes Scan rest
      else
        let '(r, size) := utf8.DecodeRuneInString s in
        if (r =? utf8.RuneError)%N && (size =? 1)%nat then
          String backslash "ufffd" ++ string_bytes Scan rest
        else if ((r =? 0x2028) || (r =? 0x2029))%N then
          String backslash "u202" ++ String (hex (N.land r 0xF)) ""
            ++ string_bytes (Skip (size - 1)) rest
        else String c (string_bytes (Copy (size - 1)) rest)
    end
  end.

Definition string_lit (s : string) : string :=
  String quote (string_bytes Scan s ++ String quote "").

Definition bool_lit (b : bool) : string := if b then "true" else "false".

Definition key (name : string) : string :=
  String quote (name ++ String quote "").

(** One task, as [Indent] lays it out at depth 1 with the indent of two
    spaces set by [saveListFile]. *)
Definition task_object (t : Task) : string :=
  "{" ++ nl ++
  "    " ++ key "id" ++ ": " ++ string_lit (FileId t) ++ "," ++ nl ++
  "    " ++ key "path" ++ ": " ++ string_lit (SavePath t) ++ "," ++ nl ++
  "    " ++ key "md5" ++ ": " ++ string_lit (Md5Checksum t) ++ "," ++ nl ++
  "    " ++ key "done" ++ ": " ++ bool_lit (Done t) ++ nl ++
  "  }".

Fixpoint task_objects (l : list Task) : string :=
  match l with
  | [] => ""
  | [t] => nl ++ "  " ++ task_object t ++ nl
  | t :: rest => nl ++ "  " ++ task_object t ++ "," ++ task_objects rest
  end.

(** [Encoder.Encode] after [SetIndent("", "  ")]: the value, indented,
    and a newline.  Marshalling a [[]Task] cannot fail. *)
Definition Encode (v : slice) : string :=
  match v with
  | None => "null" ++ nl
  | Some l => "[" ++ task_objects l ++ "]" ++ nl
  end.

(** *** Decoding *)


Inductive token :=
| TLBracket | TRBracket | TLBrace | TRBrace | TComma | TColon
| TString (s : string) | TTrue | TFalse | TNull
| TBad.  (* the input is not JSON from here on *)

Definition chr (c : ascii) (x : ascii) : bool := (byte_val c =? byte_val x)%N.

Definition isSpace (c : ascii) : bool :=
  chr c " " || chr c "009" || chr c "013" || chr c "010".

(** [getu4]: the value of four hexadecimal digits. *)
Definition hexval (c : ascii) : option N :=
  let b := byte_val c in
  (if (0x30 <=? b) && (b <=? 0x39) then Some (b - 0x30)
   else if (0x61 <=? b) && (b <=? 0x66) then Some (b - 0x61 + 10)
   else if (0x41 <=? b) && (b <=? 0x46) then Some (b - 0x41 + 10)
   else None)%N.

Definition getu4 (a b c d : ascii) : option N :=
  match hexval a, hexval b, hexval c, hexval d with
  | Some x, Some y, Some z, Some w => Some (((x * 16 + y) * 16 + z) * 16 + w)%N
  | _, _, _, _ => None
  end.

(** [utf16.IsSurrogate] and [utf16.DecodeRune]. *)
Definition IsSurrogate (r : N) : bool := ((0xD800 <=? r) && (r <? 0xE000))%N.

Definition utf16_DecodeRune (r1 r2 : N) : N :=
  (if (0xD800 <=? r1) && (r1 <? 0xDC00) && (0xDC00 <=? r2) && (r2 <? 0xE000)
   then N.lor (N.shiftl (r1 - 0xD800) 10) (r2 - 0xDC00) + 0x10000
   else utf8.RuneError)%N.

(** The character written for a one-letter escape. *)
Definition simple_escape (e : ascii) : option ascii :=
  if chr e quote then Some quote
  else if chr e backslash then Some backslash
  else if chr e "/" then Some "/"%char
  else if chr e "b" then Some "008"%char
  else if chr e "f" then Some "012"%char
  else if chr e "n" then Some "010"%char
  else if chr e "r" then Some "013"%char
  else if chr e "t" then Some "009"%char
  else None.

(** The scanner, together with [unquote] for the string literals: in
    [InString acc k] the bytes [acc] of the literal have been read and [k]
    bytes of the current rune are still to be passed over. *)
Inductive lex_mode := Outside | InString (acc : string) (k : nat).

Definition snoc (acc : string) (c : ascii) : string := acc ++ String c "".

Fixpoint lex (m : lex_mode) (s : string) : list token :=
  match s with
  | EmptyString => match m with Outside => [] | InString _ _ => [TBad] end
  | String c rest =>
    match m with
    | InString acc (S k) => lex (InString acc k) rest
    | InString acc O =>
      if chr c quote then TString acc :: lex Outside rest
      else if chr c backslash then
        match rest with
        | EmptyString => [TBad]
        | String e rest1 =>
          match simple_escape e with
          | Some ch => lex (InString (snoc acc ch) 0) rest1
          | None =>
            if negb (chr e "u") then [TBad] else
            match rest1 with
            | String h1 (String h2 (String h3 (String h4 rest2))) =>
              match getu4 h1 h2 h3 h4 with
              | None => [TBad]
              | Some rr =>
                if IsSurrogate rr then
                  match rest2 with
                  | String b1 (String b2 (String g1 (String g2 (String g3 (String g4 rest3))))) =>
                    match (if chr b1 backslash && chr b2 "u" then getu4 g1 g2 g3 g4 else None) with
                    | Some rr1 =>
                      let dec := utf16_DecodeRune rr rr1 in
                      if (dec =? utf8.RuneError)%N
                      then lex (InString (acc ++ utf8.EncodeRune utf8.RuneError) 0) rest2
                      else lex (InString (acc ++ utf8.EncodeRune dec) 0) rest3
                    | None => lex (InString (acc ++ utf8.EncodeRune utf8.RuneError) 0) rest2
                    end
                  | _ => lex (InString (acc ++ utf8.EncodeRune utf8.RuneError) 0) rest2
                  end
                else lex (InString (acc ++ utf8.EncodeRune rr) 0) rest2
              end
            | _ => [TBad]
            end
          end
        end
      else if (byte_val c <? 0x20)%N then [TBad]
      else if (byte_val c <? 0x80)%N then lex (InString (snoc acc c) 0) rest
      else
        let '(r, size) := utf8.DecodeRuneInString s in
        lex (InString (acc ++ utf8.EncodeRune r) (size - 1)) rest
    | Outside =>
      if isSpace c then lex Outside rest
      else if chr c "[" then TLBracket :: lex Outside rest
      else if chr c "]" then TRBracket :: lex Outside rest
      else if chr c "{" then TLBrace :: lex Outside rest
      else if chr c "}" then TRBrace :: lex Outside rest
      else if chr c "," then TComma :: lex Outside rest
      else if chr c ":" then TColon :: lex Outside rest
      else if chr c quote then lex (InString "" 0) rest
      else
        match rest with
        | String c1 (String c2 (String c3 rest3)) =>
          if chr c "t" && chr c1 "r" && chr c2 "u" && chr c3 "e" then TTrue :: lex Outside rest3
          else if chr c "n" && chr c1 "u" && chr c2 "l" && chr c3 "l" then TNull :: lex Outside rest3
          else
            match rest3 with
            | String c4 rest4 =>
              if chr c "f" && chr c1 "a" && chr c2 "l" && chr c3 "s" && chr c4 "e"
              then TFalse :: lex Outside rest4
              else [TBad]
            | EmptyString => [TBad]
            end
        | _ => [TBad]
        end
    end
  end.

(** Matching an object key with a field of [Task]: the exact name first,
    then the name up to the case of ASCII letters. *)
Inductive field := FId | FPath | FMd5 | FDone.

Definition field_name (f : field) : string :=
  match f with FId => "id" | FPath => "path" | FMd5 => "md5" | FDone => "done" end.

Definition fold_byte (c : ascii) : N :=
  let b := byte_val c in
  (if (0x61 <=? b) && (b <=? 0x7A) then b - 0x20 else b)%N.

Fixpoint equalFold (name k : string) : bool :=
  match name, k with
  | EmptyString, EmptyString => true
  | String a name', String b k' => (fold_byte a =? fold_byte b)%N && equalFold name' k'
  | _, _ => false
  end.

Definition fields : list field := [FId; FPath; FMd5; FDone].

Definition field_of (k : string) : option field :=
  match List.find (fun f => String.eqb (field_name f) k) fields with
  | Some f => Some f
  | None => List.find (fun f => equalFold (field_name f) k) fields
  end.

(** Storing the value [v] of the member [k] into the task; [None] when
    the value has not the type of the field.  The value of a key that
    names no field is passed over. *)
Definition set_field (k : string) (v : token) (t : Task) : option Task :=
  match field_of k, v with
  | _, TNull => Some t
  | Some FId, TString s => Some (mkTask s (SavePath t) (Md5Checksum t) (Done t))
  | Some FPath, TString s => Some (mkTask (FileId t) s (Md5Checksum t) (Done t))
  | Some FMd5, TString s => Some (mkTask (FileId t) (SavePath t) s (Done t))
  | Some FDone, TTrue => Some (mkTask (FileId t) (SavePath t) (Md5Checksum t) true)
  | Some FDone, TFalse => Some (mkTask (FileId t) (SavePath t) (Md5Checksum t) false)
  | None, (TString _ | TTrue | TFalse) => Some t
  | _, _ => None
  end.

Definition zero : Task := mkTask "" "" "" false.

(** The decoder as a machine over the tokens that follow the opening
    bracket of the array. *)
Inductive pstate :=
| ArrStart                          (* after [: an element or ] *)
| ArrElem                           (* after a comma: an element *)
| ArrNext                           (* after an element: a comma or ] *)
| ObjStart (t : Task)               (* after {: a key or } *)
| ObjKey (t : Task)                 (* after a comma: a key *)
| ObjColon (t : Task) (k : string)  (* after a key: the colon *)
| ObjValue (t : Task) (k : string)  (* after the colon: the value *)
| ObjNext (t : Task).               (* after a member: a comma or } *)

Fixpoint array (st : pstate) (acc : list Task) (toks : list token) : option (list Task) :=
  match toks with
  | [] => None
  | tok :: toks' =>
    match st, tok with
    | ArrStart, TRBracket => Some acc
    | ArrStart, TLBrace | ArrElem, TLBrace => array (ObjStart zero) acc toks'
    | ArrStart, TNull | ArrElem, TNull => array ArrNext (acc ++ [zero]) toks'
    | ArrNext, TComma => array ArrElem acc toks'
    | ArrNext, TRBracket => Some acc
    | ObjStart t, TRBrace => array ArrNext (acc ++ [t]) toks'
    | ObjStart t, TString k | ObjKey t, TString k => array (ObjColon t k) acc toks'
    | ObjColon t k, TColon => array (ObjValue t k) acc toks'
    | ObjValue t k, v =>
      match set_field k v t with
      | Some t' => array (ObjNext t') acc toks'
      | None => None
      end
    | ObjNext t, TComma => array (ObjKey t) acc toks'
    | ObjNext t, TRBrace => array ArrNext (acc ++ [t]) toks'
    | _, _ => None
    end
  end.

Fixpoint skip_space (s : string) : string :=
  match s with
  | String c rest => if isSpace c then skip_space rest else s
  | EmptyString => s
  end.

(** A document that is the literal [null]: the literal, then the end of
    the input or a space. *)
Definition top_null (s : string) : bool :=
  match s with
  | String c0 (String c1 (String c2 (String c3 rest))) =>
    chr c0 "n" && chr c1 "u" && chr c2 "l" && chr c3 "l" &&
    match rest with EmptyString => true | String c _ => isSpace c end
  | _ => false
  end.

(** [Decoder.Decode] into a nil [[]Task]: the first value of the
    document.  [null] leaves the slice nil, an array gives its elements;
    [None] is a decoding error.  Numbers, and arrays and objects as
    member values, are outside this model and reported as errors. *)
Definition Decode (doc : string) : option slice :=
  let doc := skip_space doc in
  if top_null doc then Some None
  else
    match lex Outside doc with
    | TLBracket :: toks => Some <$> array ArrStart [] toks
    | _ => None
    end.

End json.

(** The task lists that are kept by a save and a load: those whose texts
    are valid UTF-8. *)
Definition valid_task (t : Task) : bool :=
  utf8.ValidString (FileId t) && utf8.ValidString (SavePath t)
  && utf8.ValidString (Md5Checksum t).

Definition valid (v : slice) : bool := forallb valid_task (elems v).

(** ** [strings] *)

Module strings.

(** [HasSuffix]: [len(s) >= len(suffix) && s[len(s)-len(suffix):] == suffix]. *)
Definition HasSuffix (s suffix : string) : bool :=
  (String.length suffix <=? String.length s)%nat &&
  String.eqb (substring (String.length s - String.length suffix)
                        (String.length suffix) s) suffix.

Fixpoint Join (elems : list string) (sep : string) : string :=
  match elems with
  | [] => ""
  | [e] => e
  | e :: rest => e ++ sep ++ Join rest sep
  end.

End strings.

(** ** [path/filepath], on a system whose separator is the slash *)

Module filepath.

(** The elements of a path between its separators. *)
Fixpoint split (cur : string) (p : string) : list string :=
  match p with
  | EmptyString => [cur]
  | String c rest =>
    if Ascii.eqb c "/" then cur :: split "" rest
    else split (cur ++ String c "") rest
  end.

(** [Clean] element by element.  [out] holds the elements written so far,
    the last one first; [dotdot] is the number of them, all [..] and at
    the start of the result, that no later [..] may remove.  In a rooted
    path no [..] is ever written. *)
Fixpoint clean_elems (rooted : bool) (out : list string) (dotdot : nat)
         (es : list string) : list string :=
  match es with
  | [] => rev out
  | e :: es' =>
    if String.eqb e "" || String.eqb e "." then clean_elems rooted out dotdot es'
    else if String.eqb e ".." then
      if (dotdot <? List.length out)%nat then clean_elems rooted (tl out) dotdot es'
      else if rooted then clean_elems rooted out dotdot es'
      else clean_elems rooted (e :: out) (S (List.length out)) es'
    else clean_elems rooted (e :: out) dotdot es'
  end.

Definition Clean (path : string) : string :=
  match path with
  | EmptyString => "."
  | String c rest =>
    let rooted := Ascii.eqb c "/" in
    let body := strings.Join (clean_elems rooted [] 0 (split "" path)) "/" in
    if rooted then "/" ++ body
    else if String.eqb body "" then "." else body
  end.

(** [Join]: the elements from the first non-empty one on, joined by the
    separator and cleaned; the empty string when all are empty. *)
Fixpoint Join (elem : list string) : string :=
  match elem with
  | [] => ""
  | e :: rest =>
    if String.eqb e "" then Join rest
    else Clean (strings.Join elem "/")
  end.

End filepath.

(** ** The remote service ([google.golang.org/api/drive/v3]) *)

Module drive.

(** The fields of a [drive.File] the program asks for. *)
Record File := mkFile {
  Id : string;
  Name : string;
  MimeType : string;
  Md5Checksum : string
}.

(** The answer to [Files.List]. *)
Record FileList := mkFileList {
  Files : list File;
  NextPageToken : string
}.

End drive.

(** ** The world outside the program

    What the program does to its surroundings is recorded in a trace; what
    the surroundings answer is decided by an environment [Env], which each
    request may change.  The local files that exist and can be read are a
    finite map from paths to contents. *)

Inductive LogMsg :=
| LoadListErr (err : error)                      (* "Load list file err = %v" *)
| ListFilesErr (err : error)                     (* "list files: err = %v" *)
| TotalFiles (total : nat)                       (* "Total files: %d" *)
| Skipping (i total : nat) (path : string)       (* "Skipping: %05d / %05d, file: %s" *)
| Downloading (i total : nat)                    (* "Downloading: %05d / %05d (%.2f %%)" *)
| Retry (k seconds : nat) (err : error)          (* "retry [%02d] in %v, err = %v" *)
| DownloadErr (err : error)                      (* "download err = %v" *)
| ListFolder (id name : string)                  (* ">> list folder: %s [%s]" *)
| ListingFolder (i : nat) (folderId : string)    (* "[%03d] listing folder: %s" *)
| NoFilesFound (folderId : string)               (* "No files found in folder: %s" *)
| PageFinished (i : nat)                         (* "[%03d] finished" *)
| NextPage (i : nat) (token : string)            (* "[%03d] nextPageToken = %s" *)
| SkippingIdentical (path : string)              (* "skipping identical file: %s" *)
| DownloadingFile (md5 path : string).           (* "downloading file (%s): %s" *)

Inductive Event :=
| EvLog (m : LogMsg)                                           (* log.Printf *)
| EvSleep (seconds : nat)                                      (* time.Sleep *)
| EvGet (fileId : string) (r : error + drive.File)             (* Files.Get(id).Fields(..).Do() *)
| EvList (folderId pageToken : string) (r : error + drive.FileList)   (* Files.List()...Do() *)
| EvDownload (fileId : string) (r : error + string)            (* Files.Get(id).Download() *)
| EvOpen (path : string) (found : bool)                        (* os.Open *)
| EvCreate (path : string) (r : option error)                  (* os.Create *)
| EvWrite (path data : string) (r : option (nat * error))      (* a write to an open file *)
| EvCopy (path body : string) (r : nat * option error).        (* io.Copy into the buffered writer, and its Flush *)

(** The answers of the environment.
    - [Files_Get], [Files_List], [Files_Download]: the three requests to the
      service, failing with an error or returning their result (for a
      download, the content of the file).
    - [os_Create]: whether the file can be created (or truncated).
    - [file_Write]: a write of all the data to the created file: [None] when
      it is complete, or the number of bytes written and the error.
    - [io_Copy]: copying the response body through the buffered writer,
      whose final [Flush] is deferred and its error dropped: the number of
      bytes that reach the file, and the error [io.Copy] returned, if any.
      All of the body may fail to reach the file without an error. *)
Record World (Env : Type) := {
  Files_Get : string -> Env -> (error + drive.File) * Env;
  Files_List : string -> string -> Env -> (error + drive.FileList) * Env;
  Files_Download : string -> Env -> (error + string) * Env;
  os_Create : string -> Env -> option error * Env;
  file_Write : string -> string -> Env -> option (nat * error) * Env;
  io_Copy : string -> string -> Env -> (nat * option error) * Env
}.
Arguments Files_Get {Env}.
Arguments Files_List {Env}.
Arguments Files_Download {Env}.
Arguments os_Create {Env}.
Arguments file_Write {Env}.
Arguments io_Copy {Env}.

Record State (Env : Type) := mkState {
  env : Env;
  disk : gmap string string;
  trace : list Event
}.
Arguments mkState {Env}.
Arguments env {Env}.
Arguments disk {Env}.
Arguments trace {Env}.

(** The result of a loop that the source does not bound, run with fuel. *)
Inductive outcome (A : Type) :=
| Returned (a : A)
| OutOfFuel.
Arguments Returned {A}.
Arguments OutOfFuel {A}.

Record downloadConfig := {
  Src : string;
  Dst : string;
  ListFile : string
}.

Definition isDriveFolder (driveFile : drive.File) : bool :=
  strings.HasSuffix (drive.MimeType driveFile) "folder".

Section Download.

Context {Env : Type}.

(** The program is a state transformer. *)
Definition M (A : Type) : Type := State Env -> A * State Env.

Definition ret {A} (a : A) : M A := fun s => (a, s).

Definition bind {A B} (c : M A) (k : A -> M B) : M B :=
  fun s => let '(a, s') := c s in k a s'.

Notation "x <- c ;; k" := (bind c (fun x => k))
  (at level 100, c at next level, right associativity).
Notation "c ;;; k" := (bind c (fun _ => k))
  (at level 100, right associativity).

Definition emit (e : Event) : M unit :=
  fun s => (tt, mkState (env s) (disk s) (trace s ++ [e])).

Definition log (m : LogMsg) : M unit := emit (EvLog m).

Definition sleep (seconds : nat) : M unit := emit (EvSleep seconds).

(** Asking the environment, and recording the answer with [ev]. *)
Definition ask {A} (q : Env -> A * Env) (ev : A -> Event) : M A :=
  fun s => let '(a, e') := q (env s) in
           (a, mkState e' (disk s) (trace s ++ [ev a])).

Definition put_file (path content : string) : M unit :=
  fun s => (tt, mkState (env s) (<[path := content]> (disk s)) (trace s)).

(** [os.Open] and reading the whole file. *)
Definition read_file (path : string) : M (option string) :=
  fun s => (disk s !! path,
            mkState (env s) (disk s)
                    (trace s ++ [EvOpen path (bool_decide (is_Some (disk s !! path)))])).

Variable world : World Env.

(** The hexadecimal MD5 digest of a content
    ([hex.EncodeToString(checksum.Sum(nil))]). *)
Variable md5_hex : string -> string.

(** [os.Create]: on success the file exists and is empty. *)
Definition create_file (path : string) : M (option error) :=
  r <- ask (os_Create world path) (EvCreate path) ;;
  match r with
  | Some err => ret (Some err)
  | None => put_file path "" ;;; ret None
  end.

(** *** The task list store *)

Definition loadListFile (listFile : string) : M (slice * option error) :=
  fin <- read_file listFile ;;
  match fin with
  | None =>
    ret (None, Some ("Unable to open list file: " +:+ listFile +:+ ", err = open " +:+ listFile))
  | Some doc =>
    match json.Decode doc with
    | None =>
      ret (None, Some ("Unable to decode list file: " +:+ listFile +:+ ", err = json"))
    | Some tasks => ret (tasks, None)
    end
  end.

Definition saveListFile (fileTasks : slice) (listFile : string) : M (option error) :=
  r <- create_file listFile ;;
  match r with
  | Some err =>
    ret (Some ("Unable create list file: " +:+ listFile +:+ ", err = " +:+ err))
  | None =>
    let doc := json.Encode fileTasks in
    w <- ask (file_Write world listFile doc) (EvWrite listFile doc) ;;
    match w with
    | Some (n, err) =>
      put_file listFile (String.substring 0 n doc) ;;;
      ret (Some ("Marshal tasks err = " +:+ err))
    | None => put_file listFile doc ;;; ret None
    end
  end.

(** *** The content hasher and the download of one file *)

Definition getFileMd5 (dstFilePath : string) : M string :=
  fin <- read_file dstFilePath ;;
  match fin with
  | None => ret ""
  | Some content => ret (md5_hex content)
  end.

Definition saveFile (dstFilePath : string) (body : string) : M (option error) :=
  r <- create_file dstFilePath ;;
  match r with
  | Some err =>
    ret (Some ("Unable to create file: " +:+ dstFilePath +:+ ", err = " +:+ err))
  | None =>
    c <- ask (io_Copy world dstFilePath body) (EvCopy dstFilePath body) ;;
    put_file dstFilePath (String.substring 0 (fst c) body) ;;;
    match snd c with
    | Some err =>
      ret (Some ("Unable to write file: " +:+ dstFilePath +:+ ", err = " +:+ err))
    | None => ret None
    end
  end.

Definition downloadDriveFile (task : Task) : M (option error) :=
  let dstFilePath := SavePath task in
  dstFileMd5 <- getFileMd5 dstFilePath ;;
  if negb (String.eqb (Md5Checksum task) "") && negb (String.eqb dstFileMd5 "")
     && String.eqb dstFileMd5 (Md5Checksum task)
  then
    log (SkippingIdentical dstFilePath) ;;; ret None
  else
    log (DownloadingFile (Md5Checksum task) dstFilePath) ;;;
    resp <- ask (Files_Download world (FileId task)) (EvDownload (FileId task)) ;;
    match resp with
    | inl err => ret (Some ("download file: " +:+ dstFilePath +:+ ", err = " +:+ err))
    | inr body =>
      err <- saveFile dstFilePath body ;;
      match err with
      | Some err => ret (Some ("save file: " +:+ dstFilePath +:+ ", err = " +:+ err))
      | None => ret None
      end
    end.

(** *** The transfer loop of [onRunDownload] *)

(** The pause after the failed attempt [k]:
    [time.Duration(k*5) * time.Second]. *)
Definition pause (k : nat) (err : error) : M unit :=
  let sleepDuration := k * 5 in
  log (Retry k sleepDuration err) ;;;
  sleep sleepDuration.

(** [for k := 1; k <= 5; k++]: [n] is the number of attempts left,
    [k] the number of the next one; the result is the value of [err] when
    the loop is left. *)
Fixpoint attempts (n k : nat) (task : Task) : M (option error) :=
  match n with
  | O => ret None
  | S n' =>
    err <- downloadDriveFile task ;;
    match err with
    | None => ret None
    | Some e =>
      pause k e ;;;
      match n' with
      | O => ret (Some e)
      | S _ => attempts n' (S k) task
      end
    end
  end.

Definition set_done (t : Task) : Task :=
mkTask (FileId t) (SavePath t) (Md5Checksum t) true.

(** [if (i+1)%10 == 0 { _ = saveListFile(fileTasks, config.ListFile) }]:
the result of the save is dropped. *)
Definition checkpoint (i : nat) (fileTasks : list Task) (listFile : string) : M unit :=
if ((i + 1) mod 10 =? 0)%nat
then saveListFile (Some fileTasks) listFile ;;; ret tt
else ret tt.

(** The body of [for i, task := range fileTasks], at the index [i];
[continue] is the rest of the loop, from the next index on.  The result is
the list as the loop leaves it and the value of [err] at that point
([None] is [nil]).  The percentage in the progress message is left out. *)
Definition transfer_turn (continue : list Task -> M (list Task * option error))
         (i total : nat) (listFile : string) (fileTasks : list Task)
  : M (list Task * option error) :=
match fileTasks !! i with
| None => ret (fileTasks, None)
| Some task =>
  if Done task then
    log (Skipping i total (SavePath task)) ;;;
    continue fileTasks
  else
    log (Downloading i total) ;;;
    err <- attempts 5 1 task ;;
    match err with
    | Some e =>
      log (DownloadErr e) ;;;
      ret (fileTasks, Some e)
    | None =>
      let fileTasks := alter set_done i fileTasks in
      checkpoint i fileTasks listFile ;;;
      continue fileTasks
    end
end.

(** The loop: [n] is the number of iterations left and [i] the index of
the next one. *)
Fixpoint transfer_loop (n i total : nat) (listFile : string)
         (fileTasks : list Task) : M (list Task * option error) :=
match n with
| O => ret (fileTasks, None)
| S n' =>
  transfer_turn (transfer_loop n' (S i) total listFile) i total listFile fileTasks
end.

(** The second half of [onRunDownload], from [total := len(fileTasks)]
    to the last [saveListFile]: the transfer of a task list.  The source
    returns nothing; the model returns the final values of [fileTasks]
    and [err]. *)
Definition transfer (fileTasks : slice) (listFile : string) : M (slice * option error) :=
  let total := length (elems fileTasks) in
  log (TotalFiles total) ;;;
  r <- transfer_loop total 0 total listFile (elems fileTasks) ;;
  let fileTasks' := match fileTasks with None => None | Some _ => Some (fst r) end in
  saveListFile fileTasks' listFile ;;;
  ret (fileTasks', snd r).

(** *** The tree walk *)

(** [for _, entry := range resp.Files { if err := handler(entry) ... }]:
    the handler is a closure over variables of its caller, whose values
    [a] it takes and returns. *)
Fixpoint each_entry {A} (handler : drive.File -> A -> M (option error * A))
         (entries : list drive.File) (a : A) : M (option error * A) :=
  match entries with
  | [] => ret (None, a)
  | entry :: rest =>
    r <- handler entry a ;;
    match fst r with
    | Some err => ret (Some err, snd r)
    | None => each_entry handler rest (snd r)
    end
  end.

(** [listDriveFolder]: the loop [for i := 0; ; i++] from the page [i] with
    the token [pageToken] on. *)
Fixpoint listDriveFolder_from {A} (fuel : nat) (folderId : string)
         (handler : drive.File -> A -> M (option error * A))
         (i : nat) (pageToken : string) (a : A) : M (outcome (option error * A)) :=
  match fuel with
  | O => ret OutOfFuel
  | S fuel' =>
    log (ListingFolder i folderId) ;;;
    resp <- ask (Files_List world folderId pageToken) (EvList folderId pageToken) ;;
    match resp with
    | inl err => ret (Returned (Some ("Unable to list files, err = " +:+ err), a))
    | inr resp =>
      if (length (drive.Files resp) =? 0)%nat then
        log (NoFilesFound folderId) ;;;
        ret (Returned (None, a))
      else
        r <- each_entry handler (drive.Files resp) a ;;
        match fst r with
        | Some err => ret (Returned (Some err, snd r))
        | None =>
          let pageToken := drive.NextPageToken resp in
          if String.eqb pageToken "" then
            log (PageFinished i) ;;;
            ret (Returned (None, snd r))
          else
            log (NextPage i pageToken) ;;;
            listDriveFolder_from fuel' folderId handler (S i) pageToken (snd r)
        end
    end
  end.

Definition listDriveFolder {A} (fuel : nat) (folderId : string)
           (handler : drive.File -> A -> M (option error * A)) (a : A)
  : M (outcome (option error * A)) :=
  listDriveFolder_from fuel folderId handler 0 "" a.

(** The closure passed to [listDriveFolder] by [listDriveFolderFiles]; it
    updates [taskQueue] and [fileTasks]. *)
Definition on_entry (task : Task) (nextFile : drive.File)
           (vars : list Task * list Task) : M (option error * (list Task * list Task)) :=
  let '(taskQueue, fileTasks) := vars in
  let dstFilePath := filepath.Join [SavePath task; drive.Name nextFile] in
  let nextTask := mkTask (drive.Id nextFile) dstFilePath (drive.Md5Checksum nextFile) false in
  if isDriveFolder nextFile
  then ret (None, (taskQueue ++ [nextTask], fileTasks))
  else ret (None, (taskQueue, fileTasks ++ [nextTask])).

(** [for taskQueue.Len() != 0]. *)
Fixpoint walk_loop (fuel : nat) (taskQueue fileTasks : list Task)
  : M (outcome (slice * option error)) :=
  match fuel with
  | O => ret OutOfFuel
  | S fuel' =>
    match taskQueue with
    | [] => ret (Returned (Some fileTasks, None))
    | task :: taskQueue =>
      r <- ask (Files_Get world (FileId task)) (EvGet (FileId task)) ;;
      match r with
      | inl err =>
        ret (Returned (None, Some ("get fileId: " +:+ FileId task +:+ ", err = " +:+ err)))
      | inr currFile =>
        if isDriveFolder currFile then
          log (ListFolder (drive.Id currFile) (drive.Name currFile)) ;;;
          l <- listDriveFolder fuel' (drive.Id currFile) (on_entry task) (taskQueue, fileTasks) ;;
          match l with
          | OutOfFuel => ret OutOfFuel
          | Returned (Some err, _) =>
            ret (Returned (None, Some ("list drive folder: " +:+ drive.Id currFile +:+ " ["
                                       +:+ drive.Name currFile +:+ "], err = " +:+ err)))
          | Returned (None, (taskQueue, fileTasks)) =>
            walk_loop fuel' taskQueue fileTasks
          end
        else
          let dstFilePath := filepath.Join [SavePath task; drive.Name currFile] in
          walk_loop fuel' taskQueue
            (fileTasks ++ [mkTask (drive.Id currFile) dstFilePath (drive.Md5Checksum currFile) false])
      end
    end
  end.

Definition listDriveFolderFiles (fuel : nat) (rootFolder : Task)
  : M (outcome (slice * option error)) :=
  walk_loop fuel [rootFolder] [].

(** *** [onRunDownload], from the root task on *)

Definition onRunDownload (fuel : nat) (config : downloadConfig)
  : M (outcome (slice * option error)) :=
  let root := mkTask (Src config) (Dst config) "" false in
  l <- loadListFile (ListFile config) ;;
  match snd l with
  | None => r <- transfer (fst l) (ListFile config) ;; ret (Returned r)
  | Some err =>
    log (LoadListErr err) ;;;
    w <- listDriveFolderFiles fuel root ;;
    match w with
    | OutOfFuel => ret OutOfFuel
    | Returned (_, Some err) =>
      log (ListFilesErr err) ;;;
      ret (Returned (None, Some err))
    | Returned (fileTasks, None) =>
      saveListFile fileTasks (ListFile config) ;;;
      r <- transfer fileTasks (ListFile config) ;;
      ret (Returned r)
    end
  end.

End Download.

(** ** Remote trees

A remote tree is what the walk is meant to enumerate: an entry with its
metadata and, under a folder, its children in the order of the listing. *)

#[local] Set Warnings "-register-all".
Inductive Remote := Node (f : drive.File) (children : list Remote).

Definition file_of (t : Remote) : drive.File := match t with Node f _ => f end.

Definition children_of (t : Remote) : list Remote := match t with Node _ cs => cs end.

Definition is_folder (t : Remote) : bool := isDriveFolder (file_of t).

Fixpoint size (t : Remote) : nat :=
match t with Node _ cs => S (list_sum (map size cs)) end.

Fixpoint height (t : Remote) : nat :=
match t with Node _ cs => S (list_max (map height cs)) end.

(** The subtrees of a tree, itself included. *)
Fixpoint nodes (t : Remote) : list Remote :=
match t with Node _ cs => t :: List.flat_map nodes cs end.

(** The task for the entry [f] found in the folder whose local path is [p]. *)
Definition task_at (p : string) (f : drive.File) : Task :=
mkTask (drive.Id f) (filepath.Join [p; drive.Name f]) (drive.Md5Checksum f) false.

(** The tasks for the files under a folder [t] whose local path is [p],
folder by folder, in depth. *)
Fixpoint under (p : string) (t : Remote) : list Task :=
match t with
| Node _ cs =>
  List.flat_map
    (fun c => if isDriveFolder (file_of c)
              then under (filepath.Join [p; drive.Name (file_of c)]) c
              else [task_at p (file_of c)])
    cs
end.

(** An item of the walk: an entry and the local path that goes with it,
which for a folder is the path of the folder itself and for a root that is a
file the destination directory. *)
Definition item : Type := string * Remote.

(** The tasks of the files reachable from an item. *)
Definition item_tasks (x : item) : list Task :=
if is_folder (snd x) then under (fst x) (snd x) else [task_at (fst x) (file_of (snd x))].

(** The tasks for the files directly in the folder of an item (for an
item that is a file: its own task), and the items for its folders. *)
Definition visit (x : item) : list Task :=
if is_folder (snd x)
then map (fun c => task_at (fst x) (file_of c))
         (List.filter (fun c => negb (is_folder c)) (children_of (snd x)))
else [task_at (fst x) (file_of (snd x))].

Definition next (x : item) : list item :=
if is_folder (snd x)
then map (fun c => (filepath.Join [fst x; drive.Name (file_of c)], c))
         (List.filter is_folder (children_of (snd x)))
else [].

(** Breadth first, level by level: the files of the items of a level in
their order, then the next level, [h] levels deep. *)
Fixpoint level_order (h : nat) (q : list item) : list Task :=
match h with
| O => []
| S h' => List.flat_map visit q ++ level_order h' (List.flat_map next q)
end.

(** Breadth first with a queue: the first item is visited and its folders
join the end of the queue; [n] bounds the number of visits. *)
Fixpoint queue_order (n : nat) (q : list item) : list Task :=
match n with
| O => []
| S n' =>
  match q with
  | [] => []
  | x :: q' => visit x ++ queue_order n' (q' ++ next x)
  end
end.

(** A world serves a tree when it answers for it in every state: the
metadata of each entry, and for each folder the listing of its children,
as a sequence of pages. *)
Section Serving.

Context {Env : Type} (world : World Env).

(** The entries that the service holds for a folder, from a page token
on: those of the pages its answers give, each page asked for with the
continuation token of the page before it, up to the page whose continuation
token is empty.  A page may be without entries, whatever its token. *)
Inductive paged (folderId : string) : string -> list drive.File -> Prop :=
| paged_last (pageToken : string) (resp : drive.FileList) :
    (forall e, fst (Files_List world folderId pageToken e) = inr resp) ->
    drive.NextPageToken resp = "" ->
    paged folderId pageToken (drive.Files resp)
| paged_more (pageToken : string) (resp : drive.FileList) (rest : list drive.File) :
    (forall e, fst (Files_List world folderId pageToken e) = inr resp) ->
    drive.NextPageToken resp <> "" ->
    paged folderId (drive.NextPageToken resp) rest ->
    paged folderId pageToken (drive.Files resp ++ rest).

Definition served (t : Remote) : Prop :=
(forall e, fst (Files_Get world (drive.Id (file_of t)) e) = inr (file_of t)) /\
(is_folder t = true -> paged (drive.Id (file_of t)) "" (map file_of (children_of t))).

Definition serves (t : Remote) : Prop := Forall served (nodes t).

(** The same, for a listing in which every page that carries a
continuation token has entries: only the last page may be without. *)
Inductive paged_without_gap (folderId : string) : string -> list drive.File -> Prop :=
| without_gap_last (pageToken : string) (resp : drive.FileList) :
    (forall e, fst (Files_List world folderId pageToken e) = inr resp) ->
    drive.NextPageToken resp = "" ->
    paged_without_gap folderId pageToken (drive.Files resp)
| without_gap_more (pageToken : string) (resp : drive.FileList) (rest : list drive.File) :
    (forall e, fst (Files_List world folderId pageToken e) = inr resp) ->
    drive.Files resp <> [] ->
    drive.NextPageToken resp <> "" ->
    paged_without_gap folderId (drive.NextPageToken resp) rest ->
    paged_without_gap folderId pageToken (drive.Files resp ++ rest).

Definition served_without_gap (t : Remote) : Prop :=
(forall e, fst (Files_Get world (drive.Id (file_of t)) e) = inr (file_of t)) /\
(is_folder t = true ->
 paged_without_gap (drive.Id (file_of t)) "" (map file_of (children_of t))).

Definition serves_without_gap (t : Remote) : Prop := Forall served_without_gap (nodes t).

End Serving.

(** ** Concrete worlds, for the examples *)

Module Scenario.

(** The digest used in the examples: a text that depends on the content. *)
Definition digest (content : string) : string := "md5-" +:+ content.

(** A service whose downloads fail as long as fewer than [k] were tried;
the environment is the number of downloads tried so far.  Nothing fails on
the local side. *)
Definition flaky (k : nat) : World nat := {|
  Files_Get := fun _ e => (inl "no such file", e);
  Files_List := fun _ _ e => (inl "no such folder", e);
  Files_Download := fun id e =>
    (if (e <? k)%nat then inl "timeout" else inr ("content of " +:+ id), S e);
  os_Create := fun _ e => (None, e);
  file_Write := fun _ _ e => (None, e);
  io_Copy := fun _ body e => ((String.length body, None), e)
|}.

Definition start {Env : Type} (e : Env) : State Env := mkState e ∅ [].

Definition two_tasks : list Task :=
  [mkTask "F1" "out/a.txt" "abc123" false; mkTask "F2" "out/b.txt" "" false].

(** A world in which every download succeeds; the list file [listFile]
cannot be created when [locked] is set, every other file can. *)
Definition steady (locked : bool) (listFile : string) : World unit := {|
  Files_Get := fun _ e => (inl "no such file", e);
  Files_List := fun _ _ e => (inl "no such folder", e);
  Files_Download := fun id e => (inr ("content of " +:+ id), e);
  os_Create := fun path e =>
    (if locked && String.eqb path listFile then Some "permission denied" else None, e);
  file_Write := fun _ _ e => (None, e);
  io_Copy := fun _ body e => ((String.length body, None), e)
|}.

(** A service given by tables: the metadata of the files it knows, and its
answer to each page request (a folder and a page token).  What is not in
the tables is answered by an error.  Downloads succeed and nothing fails on
the local side. *)
Definition find_file (id : string) (files : list drive.File) : error + drive.File :=
  match List.find (fun f => String.eqb (drive.Id f) id) files with
  | Some f => inr f
  | None => inl "File not found"
  end.

Definition find_page (folderId pageToken : string)
           (pages : list (string * string * (error + drive.FileList)))
  : error + drive.FileList :=
  match List.find (fun p => String.eqb (fst (fst p)) folderId
                            && String.eqb (snd (fst p)) pageToken) pages with
  | Some p => snd p
  | None => inl "File not found"
  end.

Definition tables (files : list drive.File)
           (pages : list (string * string * (error + drive.FileList))) : World unit := {|
  Files_Get := fun id e => (find_file id files, e);
  Files_List := fun folderId pageToken e => (find_page folderId pageToken pages, e);
  Files_Download := fun id e => (inr ("content of " +:+ id), e);
  os_Create := fun _ e => (None, e);
  file_Write := fun _ _ e => (None, e);
  io_Copy := fun _ body e => ((String.length body, None), e)
|}.

Definition folder_type : string := "application/vnd.google-apps.folder".

Definition folder (id name : string) : drive.File := drive.mkFile id name folder_type "".

Definition file (id name md5 : string) : drive.File := drive.mkFile id name "text/plain" md5.

(** A folder whose second page cannot be listed. *)
Definition broken_listing : World unit :=
  tables [folder "R" "root"]
         [("R", "", inr (drive.mkFileList [file "F1" "a.txt" "abc123"; folder "D1" "sub"] "p2"));
          ("R", "p2", inl "backendError")].


(** The root is a single file. *)
Definition single_file : World unit :=
  tables [file "F1" "report.pdf" "abc123"] [].

Definition single_file_config : downloadConfig :=
  {| Src := "F1"; Dst := "./out"; ListFile := "list.json" |}.

(** The tasks A, B, C, ... with the given [Done] flags. *)
Definition letter (i : nat) : string := String (ascii_of_nat (65 + i)) "".

Definition lettered (done : list bool) : list Task :=
  imap (fun i d => mkTask (letter i) ("out/" +:+ letter i) "" d) done.

(** Five tasks, the first two done. *)
Definition five : list Task := lettered [true; true; false; false; false].

(** Twelve tasks of which only the tenth is done. *)
Definition twelve : list Task :=
  lettered [false; false; false; false; false; false; false; false; false; true; false; false].

(** A folder with two files, a folder without entries and, between the
    files, a folder whose four entries are listed on two pages: three files
    and one more folder, which holds one file. *)
Definition deep : Remote :=
  Node (folder "D3" "deep") [Node (file "F4" "d.txt" "m4") []].

Definition docs : Remote :=
  Node (folder "D2" "docs")
       [Node (file "F2" "b.txt" "m2") []; Node (file "F3" "c.txt" "m3") [];
        deep; Node (file "F5" "e.txt" "m5") []].

Definition tree : Remote :=
  Node (folder "R" "root")
       [Node (file "F1" "a.txt" "m1") []; Node (folder "D1" "empty") [];
        docs; Node (file "F6" "z.txt" "m6") []].

Definition tree_world : World unit :=
  tables (map file_of (nodes tree))
         [("R", "", inr (drive.mkFileList (map file_of (children_of tree)) ""));
          ("D1", "", inr (drive.mkFileList [] ""));
          ("D2", "", inr (drive.mkFileList [file "F2" "b.txt" "m2"; file "F3" "c.txt" "m3"] "p2"));
          ("D2", "p2", inr (drive.mkFileList [folder "D3" "deep"; file "F5" "e.txt" "m5"] ""));
          ("D3", "", inr (drive.mkFileList [file "F4" "d.txt" "m4"] ""))].

(** The folder of [gap_in_pages], whose two files are both known to the
    service: the second page of the listing is without entries and carries
    the token of the third. *)
Definition gapped_tree : Remote :=
  Node (folder "R" "root")
       [Node (file "F1" "a.txt" "abc123") []; Node (file "F2" "b.txt" "def456") []].

Definition gapped : World unit :=
  tables (map file_of (nodes gapped_tree))
         [("R", "", inr (drive.mkFileList [file "F1" "a.txt" "abc123"] "p2"));
          ("R", "p2", inr (drive.mkFileList [] "p3"));
          ("R", "p3", inr (drive.mkFileList [file "F2" "b.txt" "def456"] ""))].

(** The tasks of that folder, level by level, under the directory out. *)
Definition tree_tasks : list Task :=
  [mkTask "F1" "out/a.txt" "m1" false; mkTask "F6" "out/z.txt" "m6" false;
   mkTask "F2" "out/docs/b.txt" "m2" false; mkTask "F3" "out/docs/c.txt" "m3" false;
   mkTask "F5" "out/docs/e.txt" "m5" false;
   mkTask "F4" "out/docs/deep/d.txt" "m4" false].

(** Two tasks whose texts hold bytes that are written as escapes and
    runes of several bytes. *)
Definition sample : list Task :=
  [mkTask "1a&b" ("out/caf" +:+ String "195" (String "169" " <1>.txt")) "d41d8cd9" true;
   mkTask "2" ("out/" +:+ String "009" (String "226" (String "128" (String "168" (String "092" "n")))))
          "" false].

(** Twelve tasks, none of them done. *)
Definition open_dozen : list Task :=
  lettered [false; false; false; false; false; false;
            false; false; false; false; false; false].

End Scenario.

(** * Properties *)

(** ** The program as a state transformer *)

Section MonadFacts.

Context {Env : Type}.

Lemma bind_unfold {A B} (c : M A) (k : A -> M B) (s : State Env) :
  bind c k s = k (fst (c s)) (snd (c s)).
Proof. unfold bind. destruct (c s). reflexivity. Qed.

Lemma bind_ret {A B} (a : A) (k : A -> M B) (s : State Env) :
  bind (ret a) k s = k a s.
Proof. reflexivity. Qed.

Lemma bind_bind {A B C} (c : M A) (k1 : A -> M B) (k2 : B -> M C) (s : State Env) :
  bind (bind c k1) k2 s = bind c (fun a => bind (k1 a) k2) s.
Proof. unfold bind. destruct (c s). reflexivity. Qed.

Lemma bind_emit {B} (e : Event) (k : unit -> M B) (s : State Env) :
  bind (emit e) k s = k tt (mkState (env s) (disk s) (trace s ++ [e])).
Proof. reflexivity. Qed.

Lemma bind_log {B} (m : LogMsg) (k : unit -> M B) (s : State Env) :
  bind (log m) k s = k tt (mkState (env s) (disk s) (trace s ++ [EvLog m])).
Proof. reflexivity. Qed.

Lemma bind_ask {A B} (q : Env -> A * Env) (ev : A -> Event) (k : A -> M B) (s : State Env) :
  bind (ask q ev) k s
  = k (fst (q (env s)))
      (mkState (snd (q (env s))) (disk s) (trace s ++ [ev (fst (q (env s)))])).
Proof. unfold bind, ask. destruct (q (env s)). reflexivity. Qed.

Lemma bind_read_file {B} (path : string) (k : option string -> M B) (s : State Env) :
  bind (read_file path) k s
  = k (disk s !! path)
      (mkState (env s) (disk s)
               (trace s ++ [EvOpen path (bool_decide (is_Some (disk s !! path)))])).
Proof. reflexivity. Qed.

Lemma bind_put_file {B} (path content : string) (k : unit -> M B) (s : State Env) :
  bind (put_file path content) k s
  = k tt (mkState (env s) (<[path := content]> (disk s)) (trace s)).
Proof. reflexivity. Qed.

Lemma ask_run {A} (q : Env -> A * Env) (ev : A -> Event) (s : State Env) :
  ask q ev s
  = (fst (q (env s)),
     mkState (snd (q (env s))) (disk s) (trace s ++ [ev (fst (q (env s)))])).
Proof. unfold ask. destruct (q (env s)). reflexivity. Qed.

End MonadFacts.

(** One step of a computation applied to a state. *)
Ltac mstep :=
  first [ rewrite bind_bind | rewrite bind_ret | rewrite bind_log | rewrite bind_emit
        | rewrite bind_read_file | rewrite bind_put_file | rewrite bind_ask ];
  cbv beta; cbn [env disk trace].

(** ** The task list store *)

(** *** Runes and their bytes *)

Section Utf8Facts.
Local Open Scope N_scope.

Lemma lor_disjoint (a b n : N) :
  a mod 2 ^ n = 0 -> b < 2 ^ n -> N.lor a b = a + b.
Proof.
  intros Ha Hb.
  assert (H0 : N.land a b = 0).
  { apply N.bits_inj. intros m. rewrite N.land_spec, N.bits_0.
    destruct (N.lt_ge_cases m n) as [Hm|Hm].
    - rewrite (N.div_mod a (2 ^ n)) by (apply N.pow_nonzero; discriminate).
      rewrite Ha, N.add_0_r, N.mul_comm, N.mul_pow2_bits_low by exact Hm. reflexivity.
    - destruct (N.eq_dec b 0) as [->|Hb0]; [rewrite N.bits_0; apply andb_false_r|].
      rewrite (N.bits_above_log2 b m), andb_false_r; [reflexivity|].
      apply N.lt_le_trans with n; [|exact Hm].
      apply N.log2_lt_pow2; lia. }
  rewrite N.add_nocarry_lxor by exact H0. symmetry. apply N.lxor_lor, H0.
Qed.

Lemma byte_of_val (c : ascii) : byte_of (byte_val c) = c.
Proof.
  unfold byte_of, byte_val. rewrite N.mod_small by apply N_ascii_bounded.
  apply ascii_N_embedding.
Qed.

Lemma first_cases (b : N) :
  b < 256 ->
  (b < 0x80 /\ utf8.first b = utf8.as_) \/
  (0x80 <= b /\ utf8.first b = utf8.xx) \/
  (0xC2 <= b < 0xE0 /\ utf8.first b = utf8.s1) \/
  (b = 0xE0 /\ utf8.first b = utf8.s2) \/
  ((0xE1 <= b < 0xED \/ 0xEE <= b < 0xF0) /\ utf8.first b = utf8.s3) \/
  (b = 0xED /\ utf8.first b = utf8.s4) \/
  (b = 0xF0 /\ utf8.first b = utf8.s5) \/
  (0xF1 <= b < 0xF4 /\ utf8.first b = utf8.s6) \/
  (b = 0xF4 /\ utf8.first b = utf8.s7).
Proof.
  intros Hb. unfold utf8.first.
  repeat match goal with
         | |- context [?x <? ?y] => destruct (N.ltb_spec x y)
         | |- context [?x =? ?y] => destruct (N.eqb_spec x y)
         end; lia.
Qed.


Lemma land_low (a n m k : N) : m = N.ones n -> k = 2 ^ n -> N.land a m = a mod k.
Proof. intros -> ->. apply N.land_ones. Qed.

Lemma shiftl_times (a n k : N) : k = 2 ^ n -> N.shiftl a n = a * k.
Proof. intros ->. apply N.shiftl_mul_pow2. Qed.

Lemma shiftr_over (a n k : N) : k = 2 ^ n -> N.shiftr a n = a / k.
Proof. intros ->. apply N.shiftr_div_pow2. Qed.

Lemma lor_plus (a b n k : N) : k = 2 ^ n -> a mod k = 0 -> b < k -> N.lor a b = a + b.
Proof. intros ->. apply lor_disjoint. Qed.

Ltac euclid := zify; Z.to_euclidean_division_equations; lia.

Ltac lor_to_plus :=
  repeat match goal with
         | |- context [N.lor ?a ?b] =>
           first [ rewrite (lor_plus a b 3 8) by (first [reflexivity | euclid])
                 | rewrite (lor_plus a b 4 16) by (first [reflexivity | euclid])
                 | rewrite (lor_plus a b 5 32) by (first [reflexivity | euclid])
                 | rewrite (lor_plus a b 6 64) by (first [reflexivity | euclid])
                 | rewrite (lor_plus a b 12 4096) by (first [reflexivity | euclid])
                 | rewrite (lor_plus a b 18 262144) by (first [reflexivity | euclid]) ]
         end.

Ltac to_arith :=
  unfold utf8.maskx, utf8.mask2, utf8.mask3, utf8.mask4, utf8.tx, utf8.t2, utf8.t3, utf8.t4;
  rewrite ?(fun a => land_low a 6 0x3F 64 eq_refl eq_refl),
          ?(fun a => land_low a 5 0x1F 32 eq_refl eq_refl),
          ?(fun a => land_low a 4 0x0F 16 eq_refl eq_refl),
          ?(fun a => land_low a 3 0x07 8 eq_refl eq_refl),
          ?(fun a => shiftl_times a 6 64 eq_refl),
          ?(fun a => shiftl_times a 12 4096 eq_refl),
          ?(fun a => shiftl_times a 18 262144 eq_refl),
          ?(fun a => shiftr_over a 6 64 eq_refl),
          ?(fun a => shiftr_over a 12 4096 eq_refl),
          ?(fun a => shiftr_over a 18 262144 eq_refl);
  lor_to_plus.

Lemma rune2 (b0 b1 : N) :
  0xC0 <= b0 < 0xE0 -> 0x80 <= b1 < 0xC0 ->
  N.lor (N.shiftl (N.land b0 utf8.mask2) 6) (N.land b1 utf8.maskx)
  = (b0 - 0xC0) * 64 + (b1 - 0x80).
Proof. intros H0 H1. to_arith. euclid. Qed.

Lemma rune3 (b0 b1 b2 : N) :
  0xE0 <= b0 < 0xF0 -> 0x80 <= b1 < 0xC0 -> 0x80 <= b2 < 0xC0 ->
  N.lor (N.lor (N.shiftl (N.land b0 utf8.mask3) 12) (N.shiftl (N.land b1 utf8.maskx) 6))
        (N.land b2 utf8.maskx)
  = (b0 - 0xE0) * 4096 + (b1 - 0x80) * 64 + (b2 - 0x80).
Proof. intros H0 H1 H2. to_arith. euclid. Qed.

Lemma rune4 (b0 b1 b2 b3 : N) :
  0xF0 <= b0 < 0xF8 -> 0x80 <= b1 < 0xC0 -> 0x80 <= b2 < 0xC0 -> 0x80 <= b3 < 0xC0 ->
  N.lor (N.lor (N.lor (N.shiftl (N.land b0 utf8.mask4) 18)
                      (N.shiftl (N.land b1 utf8.maskx) 12))
               (N.shiftl (N.land b2 utf8.maskx) 6))
        (N.land b3 utf8.maskx)
  = (b0 - 0xF0) * 262144 + (b1 - 0x80) * 4096 + (b2 - 0x80) * 64 + (b3 - 0x80).
Proof. intros H0 H1 H2 H3. to_arith. euclid. Qed.


Ltac decide_bounds :=
  unfold utf8.rune1Max, utf8.rune2Max, utf8.rune3Max, utf8.MaxRune,
         utf8.surrogateMin, utf8.surrogateMax;
  repeat match goal with
         | |- context [?x <=? ?y] => destruct (N.leb_spec x y); try lia
         | |- context [?x <? ?y] => destruct (N.ltb_spec x y); try lia
         end;
  cbn [orb andb].

Ltac same_byte c :=
  rewrite <- (byte_of_val c) at 2; f_equal; to_arith; euclid.

Lemma EncodeRune2 (c0 c1 : ascii) :
  0xC2 <= byte_val c0 < 0xE0 -> 0x80 <= byte_val c1 < 0xC0 ->
  utf8.EncodeRune ((byte_val c0 - 0xC0) * 64 + (byte_val c1 - 0x80))
  = String c0 (String c1 "").
Proof.
  intros H0 H1. unfold utf8.EncodeRune. decide_bounds.
  f_equal; [same_byte c0|]. f_equal. same_byte c1.
Qed.

Lemma EncodeRune3 (c0 c1 c2 : ascii) :
  0xE0 <= byte_val c0 < 0xF0 -> 0x80 <= byte_val c1 < 0xC0 -> 0x80 <= byte_val c2 < 0xC0 ->
  (byte_val c0 = 0xE0 -> 0xA0 <= byte_val c1) ->
  (byte_val c0 = 0xED -> byte_val c1 < 0xA0) ->
  utf8.EncodeRune ((byte_val c0 - 0xE0) * 4096 + (byte_val c1 - 0x80) * 64 + (byte_val c2 - 0x80))
  = String c0 (String c1 (String c2 "")).
Proof.
  intros H0 H1 H2 Hlow Hhigh. unfold utf8.EncodeRune. decide_bounds.
  all: f_equal; [same_byte c0|]; f_equal; [same_byte c1|]; f_equal; same_byte c2.
Qed.

Lemma EncodeRune4 (c0 c1 c2 c3 : ascii) :
  0xF0 <= byte_val c0 <= 0xF4 -> 0x80 <= byte_val c1 < 0xC0 ->
  0x80 <= byte_val c2 < 0xC0 -> 0x80 <= byte_val c3 < 0xC0 ->
  (byte_val c0 = 0xF0 -> 0x90 <= byte_val c1) ->
  (byte_val c0 = 0xF4 -> byte_val c1 < 0x90) ->
  utf8.EncodeRune ((byte_val c0 - 0xF0) * 262144 + (byte_val c1 - 0x80) * 4096
                   + (byte_val c2 - 0x80) * 64 + (byte_val c3 - 0x80))
  = String c0 (String c1 (String c2 (String c3 ""))).
Proof.
  intros H0 H1 H2 H3 Hlow Hhigh. unfold utf8.EncodeRune. decide_bounds.
  all: f_equal; [same_byte c0|]; f_equal; [same_byte c1|]; f_equal; [same_byte c2|];
    f_equal; same_byte c3.
Qed.


Ltac reduce_decode Hf x sz lo hi le2 le3 :=
  unfold utf8.DecodeRuneInString in *; cbv zeta in *; rewrite Hf in *;
  change (utf8.as_ <=? x) with false in *;
  change (N.land x 7) with sz in *;
  change (utf8.acceptRanges (N.shiftr x 4)) with (lo, hi) in *;
  change (sz <=? 2) with le2 in *;
  change (sz <=? 3) with le3 in *;
  cbv beta iota in *.

Ltac not_an_error H Hv :=
  injection H as <- <-; exfalso; revert Hv; vm_compute; discriminate.

Ltac in_range E :=
  apply orb_false_iff in E; rewrite !N.ltb_ge in E; unfold utf8.locb, utf8.hicb in E.

Ltac is_cont E :=
  apply negb_false_iff in E; unfold utf8.cont in E; apply andb_true_iff in E;
  rewrite !N.leb_le in E; unfold utf8.locb, utf8.hicb in E.

Ltac decode_two rest Hf H Hv x lo hi :=
  reduce_decode Hf x 2 lo hi true true;
  let c1 := fresh "c1" in let r1 := fresh "r1" in let E1 := fresh "E1" in
  destruct rest as [|c1 r1]; [not_an_error H Hv|];
  destruct ((byte_val c1 <? lo) || (hi <? byte_val c1)) eqn:E1; [not_an_error H Hv|];
  injection H as <- <-;
  exists (String c1 ""), r1; split; [reflexivity|split; [reflexivity|split]];
  [ in_range E1; rewrite rune2 by lia; apply EncodeRune2; lia
  | intros tail'; cbv beta iota delta [String.append]; rewrite E1; reflexivity ].

Ltac decode_three rest Hf H Hv x lo hi :=
  reduce_decode Hf x 3 lo hi false true;
  let c1 := fresh "c1" in let r1 := fresh "r1" in let E1 := fresh "E1" in
  let c2 := fresh "c2" in let r2 := fresh "r2" in let E2 := fresh "E2" in
  destruct rest as [|c1 r1]; [not_an_error H Hv|];
  destruct ((byte_val c1 <? lo) || (hi <? byte_val c1)) eqn:E1; [not_an_error H Hv|];
  destruct r1 as [|c2 r2]; [not_an_error H Hv|];
  destruct (negb (utf8.cont (byte_val c2))) eqn:E2; [not_an_error H Hv|];
  injection H as <- <-;
  exists (String c1 (String c2 "")), r2; split; [reflexivity|split; [reflexivity|split]];
  [ in_range E1; is_cont E2; rewrite rune3 by lia; apply EncodeRune3; lia
  | intros tail'; cbv beta iota delta [String.append]; rewrite E1, E2; reflexivity ].

Ltac decode_four rest Hf H Hv x lo hi :=
  reduce_decode Hf x 4 lo hi false false;
  let c1 := fresh "c1" in let r1 := fresh "r1" in let E1 := fresh "E1" in
  let c2 := fresh "c2" in let r2 := fresh "r2" in let E2 := fresh "E2" in
  let c3 := fresh "c3" in let r3 := fresh "r3" in let E3 := fresh "E3" in
  destruct rest as [|c1 r1]; [not_an_error H Hv|];
  destruct ((byte_val c1 <? lo) || (hi <? byte_val c1)) eqn:E1; [not_an_error H Hv|];
  destruct r1 as [|c2 r2]; [not_an_error H Hv|];
  destruct (negb (utf8.cont (byte_val c2))) eqn:E2; [not_an_error H Hv|];
  destruct r2 as [|c3 r3]; [not_an_error H Hv|];
  destruct (negb (utf8.cont (byte_val c3))) eqn:E3; [not_an_error H Hv|];
  injection H as <- <-;
  exists (String c1 (String c2 (String c3 ""))), r3;
  split; [reflexivity|split; [reflexivity|split]];
  [ in_range E1; is_cont E2; is_cont E3; rewrite rune4 by lia; apply EncodeRune4; lia
  | intros tail'; cbv beta iota delta [String.append]; rewrite E1, E2, E3; reflexivity ].

(** A rune of several bytes that is decoded without an error is encoded
    by the bytes it was decoded from, and its decoding does not depend on
    what follows them. *)
Lemma DecodeRune_valid (c0 : ascii) (rest : string) (r : N) (size : nat) :
  0x80 <= byte_val c0 ->
  utf8.DecodeRuneInString (String c0 rest) = (r, size) ->
  (r =? utf8.RuneError) && (size =? 1)%nat = false ->
  exists pre tail,
    rest = pre +:+ tail /\ String.length pre = (size - 1)%nat /\
    utf8.EncodeRune r = String c0 pre /\
    forall tail', utf8.DecodeRuneInString (String c0 (pre +:+ tail')) = (r, size).
Proof.
  intros Hb H Hv. pose proof (N_ascii_bounded c0) as Hlt. fold (byte_val c0) in Hlt.
  destruct (first_cases _ Hlt)
    as [[? Hf]|[[? Hf]|[[? Hf]|[[? Hf]|[[? Hf]|[[? Hf]|[[? Hf]|[[? Hf]|[? Hf]]]]]]]]].
  - lia.
  - exfalso. unfold utf8.DecodeRuneInString in H. cbv zeta in H. rewrite Hf in H.
    change (utf8.as_ <=? utf8.xx) with true in H.
    change (utf8.xx =? utf8.xx) with true in H. cbv beta iota in H.
    not_an_error H Hv.
  - decode_two rest Hf H Hv utf8.s1 utf8.locb utf8.hicb.
  - decode_three rest Hf H Hv utf8.s2 0xA0 utf8.hicb.
  - decode_three rest Hf H Hv utf8.s3 utf8.locb utf8.hicb.
  - decode_three rest Hf H Hv utf8.s4 utf8.locb 0x9F.
  - decode_four rest Hf H Hv utf8.s5 0x90 utf8.hicb.
  - decode_four rest Hf H Hv utf8.s6 utf8.locb utf8.hicb.
  - decode_four rest Hf H Hv utf8.s7 utf8.locb 0x8F.
Qed.

End Utf8Facts.

(** *** Texts *)

Section StringFacts.

Lemma append_cons (c : ascii) (s t : string) : String c s +:+ t = String c (s +:+ t).
Proof. reflexivity. Qed.

Lemma append_nil_r (s : string) : s +:+ "" = s.
Proof. induction s as [|c s IH]; [reflexivity|]. rewrite append_cons, IH. reflexivity. Qed.

Lemma append_assoc (s t u : string) : (s +:+ t) +:+ u = s +:+ (t +:+ u).
Proof. induction s as [|c s IH]; [reflexivity|]. rewrite !append_cons, IH. reflexivity. Qed.

Lemma length_append (s t : string) :
  String.length (s +:+ t) = (String.length s + String.length t)%nat.
Proof. induction s as [|c s IH]; [reflexivity|]. rewrite append_cons. cbn [String.length]. lia. Qed.

End StringFacts.

Section LiteralFacts.

Lemma string_bytes_Copy_0 (s : string) :
  json.string_bytes (json.Copy 0) s = json.string_bytes json.Scan s.
Proof. destruct s; reflexivity. Qed.

Lemma string_bytes_Skip_0 (s : string) :
  json.string_bytes (json.Skip 0) s = json.string_bytes json.Scan s.
Proof. destruct s; reflexivity. Qed.

Lemma string_bytes_Copy (pre tail : string) :
  json.string_bytes (json.Copy (String.length pre)) (pre +:+ tail)
  = pre +:+ json.string_bytes json.Scan tail.
Proof.
  induction pre as [|c pre IH]; [apply string_bytes_Copy_0|].
  rewrite !append_cons. cbn [String.length json.string_bytes]. rewrite IH. reflexivity.
Qed.

Lemma string_bytes_Skip (pre tail : string) :
  json.string_bytes (json.Skip (String.length pre)) (pre +:+ tail)
  = json.string_bytes json.Scan tail.
Proof.
  induction pre as [|c pre IH]; [apply string_bytes_Skip_0|].
  rewrite !append_cons. cbn [String.length json.string_bytes]. exact IH.
Qed.

Lemma lex_InString_skip (acc pre tail : string) :
  json.lex (json.InString acc (String.length pre)) (pre +:+ tail)
  = json.lex (json.InString acc 0) tail.
Proof.
  induction pre as [|c pre IH]; [reflexivity|].
  rewrite append_cons. cbn [String.length]. exact IH.
Qed.

Lemma valid_from_skip (pre tail : string) :
  utf8.valid_from (String.length pre) (pre +:+ tail) = utf8.valid_from 0 tail.
Proof.
  induction pre as [|c pre IH]; [destruct tail; reflexivity|].
  rewrite append_cons. cbn [String.length utf8.valid_from]. exact IH.
Qed.

(** What the encoder writes for one ASCII byte. *)
Definition ascii_bytes (c : ascii) : string :=
  if json.htmlSafeSet (byte_val c) then String c "" else json.escape (byte_val c).

Lemma string_bytes_ascii (c : ascii) (rest : string) :
  (byte_val c <? 0x80)%N = true ->
  json.string_bytes json.Scan (String c rest)
  = ascii_bytes c +:+ json.string_bytes json.Scan rest.
Proof.
  intros H. cbn [json.string_bytes]. cbv zeta. rewrite H. unfold ascii_bytes.
  destruct (json.htmlSafeSet (byte_val c)); reflexivity.
Qed.

Lemma lex_ascii_bytes (c : ascii) :
  (byte_val c <? 0x80)%N = true ->
  forall acc tail,
    json.lex (json.InString acc 0) (ascii_bytes c +:+ tail)
    = json.lex (json.InString (json.snoc acc c) 0) tail.
Proof.
  destruct c as [[] [] [] [] [] [] [] []]; intros H; try discriminate H;
    intros acc tail; reflexivity.
Qed.

Lemma valid_from_ascii (c : ascii) (rest : string) :
  (byte_val c <? 0x80)%N = true ->
  utf8.valid_from 0 (String c rest) = utf8.valid_from 0 rest.
Proof.
  destruct c as [[] [] [] [] [] [] [] []]; intros H; try discriminate H; reflexivity.
Qed.


Lemma lex_high (c : ascii) (rest acc : string) :
  (byte_val c <? 0x80)%N = false ->
  json.lex (json.InString acc 0) (String c rest)
  = let '(r, size) := utf8.DecodeRuneInString (String c rest) in
    json.lex (json.InString (acc +:+ utf8.EncodeRune r) (size - 1)) rest.
Proof.
  intros H. apply N.ltb_ge in H.
  assert (Hq : json.chr c json.quote = false)
    by (apply N.eqb_neq; change (byte_val json.quote) with 34%N; lia).
  assert (Hb : json.chr c json.backslash = false)
    by (apply N.eqb_neq; change (byte_val json.backslash) with 92%N; lia).
  assert (H1 : (byte_val c <? 0x20)%N = false) by (apply N.ltb_ge; lia).
  assert (H2 : (byte_val c <? 0x80)%N = false) by (apply N.ltb_ge; lia).
  cbn [json.lex]. rewrite Hq, Hb, H1, H2. reflexivity.
Qed.

Lemma string_bytes_high (c : ascii) (rest : string) :
  (byte_val c <? 0x80)%N = false ->
  json.string_bytes json.Scan (String c rest)
  = let '(r, size) := utf8.DecodeRuneInString (String c rest) in
    if (r =? utf8.RuneError)%N && (size =? 1)%nat then
      String json.backslash "ufffd" +:+ json.string_bytes json.Scan rest
    else if ((r =? 0x2028) || (r =? 0x2029))%N then
      String json.backslash "u202" +:+ String (json.hex (N.land r 0xF)) ""
        +:+ json.string_bytes (json.Skip (size - 1)) rest
    else String c (json.string_bytes (json.Copy (size - 1)) rest).
Proof. intros H. cbn [json.string_bytes]. cbv zeta. rewrite H. reflexivity. Qed.

Lemma valid_from_high (c : ascii) (rest : string) :
  utf8.valid_from 0 (String c rest)
  = let '(r, size) := utf8.DecodeRuneInString (String c rest) in
    if (r =? utf8.RuneError)%N && (size =? 1)%nat then false
    else utf8.valid_from (size - 1) rest.
Proof. reflexivity. Qed.

(** The scanner reads back, from the literal written for a valid text,
    that text. *)
Lemma lex_string_bytes (n : nat) :
  forall s, (String.length s <= n)%nat -> utf8.ValidString s = true ->
  forall acc tail,
    json.lex (json.InString acc 0)
             (json.string_bytes json.Scan s +:+ String json.quote tail)
    = json.TString (acc +:+ s) :: json.lex json.Outside tail.
Proof.
  unfold utf8.ValidString.
  induction n as [|n IH]; intros s Hn Hv acc tail.
  - destruct s; [|cbn [String.length] in Hn; lia]. rewrite append_nil_r. reflexivity.
  - destruct s as [|c rest]; [rewrite append_nil_r; reflexivity|].
    cbn [String.length] in Hn.
    destruct (byte_val c <? 0x80)%N eqn:Hc.
    + rewrite valid_from_ascii in Hv by exact Hc.
      rewrite string_bytes_ascii by exact Hc.
      rewrite append_assoc, lex_ascii_bytes by exact Hc.
      rewrite IH by (exact Hv || lia). unfold json.snoc.
      rewrite append_assoc. reflexivity.
    + rewrite valid_from_high in Hv. rewrite string_bytes_high by exact Hc.
      destruct (utf8.DecodeRuneInString (String c rest)) as [r size] eqn:Hd.
      destruct ((r =? utf8.RuneError)%N && (size =? 1)%nat) eqn:He; [discriminate Hv|].
      destruct (DecodeRune_valid c rest r size) as (pre & tail0 & -> & Hlen & Henc & Hany);
        [apply N.ltb_ge; exact Hc|exact Hd|exact He|].
      rewrite <- Hlen in Hv |- *. rewrite valid_from_skip in Hv.
      rewrite length_append in Hn.
      destruct ((r =? 0x2028) || (r =? 0x2029))%N eqn:Hls.
      * rewrite string_bytes_Skip.
        assert (Hstep : forall X,
          json.lex (json.InString acc 0)
            (String json.backslash "u202" +:+ String (json.hex (N.land r 0xF)) "" +:+ X)
          = json.lex (json.InString (acc +:+ utf8.EncodeRune r) 0) X).
        { intros X. apply orb_true_iff in Hls.
          destruct Hls as [Hr|Hr]; apply N.eqb_eq in Hr; rewrite Hr; reflexivity. }
        rewrite !append_assoc, Hstep, Henc.
        rewrite IH by (exact Hv || lia). rewrite append_assoc. reflexivity.
      * rewrite string_bytes_Copy, append_cons, append_assoc.
        rewrite lex_high by exact Hc. rewrite Hany, Henc, <- Hlen.
        rewrite lex_InString_skip. rewrite IH by (exact Hv || lia).
        rewrite append_assoc. reflexivity.
Qed.

End LiteralFacts.

(** *** The document of a task list *)

Section DocumentFacts.

Import json.

Definition task_tokens (t : Task) : list token :=
  [TLBrace; TString "id"; TColon; TString (FileId t); TComma;
   TString "path"; TColon; TString (SavePath t); TComma;
   TString "md5"; TColon; TString (Md5Checksum t); TComma;
   TString "done"; TColon; (if Done t then TTrue else TFalse); TRBrace].

Fixpoint tasks_tokens (l : list Task) : list token :=
  match l with
  | [] => []
  | [t] => task_tokens t
  | t :: rest => task_tokens t ++ TComma :: tasks_tokens rest
  end.

Lemma string_lit_append (s X : string) :
  string_lit s +:+ X = String quote (string_bytes Scan s +:+ String quote X).
Proof. unfold string_lit. rewrite append_cons, append_assoc. reflexivity. Qed.

Lemma lex_string_lit (s X : string) :
  utf8.ValidString s = true ->
  lex (InString "" 0) (string_bytes Scan s +:+ String quote X) = TString s :: lex Outside X.
Proof. intros H. exact (lex_string_bytes (String.length s) s (le_n _) H "" X). Qed.

Lemma lex_first_member (X : string) :
  lex Outside ("{" +:+ nl +:+ "    " +:+ key "id" +:+ ": " +:+ String quote X)
  = TLBrace :: TString "id" :: TColon :: lex (InString "" 0) X.
Proof. reflexivity. Qed.

Lemma lex_path_member (X : string) :
  lex Outside ("," +:+ nl +:+ "    " +:+ key "path" +:+ ": " +:+ String quote X)
  = TComma :: TString "path" :: TColon :: lex (InString "" 0) X.
Proof. reflexivity. Qed.

Lemma lex_md5_member (X : string) :
  lex Outside ("," +:+ nl +:+ "    " +:+ key "md5" +:+ ": " +:+ String quote X)
  = TComma :: TString "md5" :: TColon :: lex (InString "" 0) X.
Proof. reflexivity. Qed.

Lemma lex_done_member (d : bool) (X : string) :
  lex Outside ("," +:+ nl +:+ "    " +:+ key "done" +:+ ": " +:+ bool_lit d +:+ nl +:+ "  }" +:+ X)
  = TComma :: TString "done" :: TColon :: (if d then TTrue else TFalse) :: TRBrace
      :: lex Outside X.
Proof. destruct d; reflexivity. Qed.

Lemma lex_task_object (t : Task) (X : string) :
  valid_task t = true ->
  lex Outside (task_object t +:+ X) = task_tokens t ++ lex Outside X.
Proof.
  unfold valid_task. intros H. apply andb_true_iff in H as [H Hm].
  apply andb_true_iff in H as [Hi Hp].
  unfold task_object. rewrite !append_assoc, !string_lit_append.
  rewrite lex_first_member, lex_string_lit by exact Hi.
  rewrite lex_path_member, lex_string_lit by exact Hp.
  rewrite lex_md5_member, lex_string_lit by exact Hm.
  rewrite lex_done_member. reflexivity.
Qed.


Lemma lex_task_objects (l : list Task) (X : string) :
  forallb valid_task l = true ->
  lex Outside (task_objects l +:+ X) = tasks_tokens l ++ lex Outside X.
Proof.
  induction l as [|t rest IH]; intros H; [reflexivity|].
  cbn [forallb] in H. apply andb_true_iff in H as [Ht Hrest].
  assert (Hsp : forall Y, lex Outside (nl +:+ "  " +:+ Y) = lex Outside Y) by reflexivity.
  destruct rest as [|t' rest].
  - cbn [task_objects tasks_tokens]. rewrite !append_assoc, Hsp.
    rewrite lex_task_object by exact Ht. reflexivity.
  - change (task_objects (t :: t' :: rest))
      with (nl +:+ "  " +:+ task_object t +:+ "," +:+ task_objects (t' :: rest)).
    change (tasks_tokens (t :: t' :: rest))
      with (task_tokens t ++ TComma :: tasks_tokens (t' :: rest)).
    rewrite !append_assoc, Hsp. rewrite lex_task_object by exact Ht.
    change (lex Outside ("," +:+ task_objects (t' :: rest) +:+ X))
      with (TComma :: lex Outside (task_objects (t' :: rest) +:+ X)).
    rewrite IH by exact Hrest. rewrite <- app_assoc. reflexivity.
Qed.

Lemma array_task (t : Task) (acc : list Task) (toks : list token) :
  array ArrStart acc (task_tokens t ++ toks) = array ArrNext (acc ++ [t]) toks /\
  array ArrElem acc (task_tokens t ++ toks) = array ArrNext (acc ++ [t]) toks.
Proof. destruct t as [i p m []]; split; reflexivity. Qed.

Lemma array_tasks (l : list Task) :
  forall acc toks,
    array ArrElem acc (tasks_tokens l ++ TRBracket :: toks)
    = match l with [] => None | _ => Some (acc ++ l) end.
Proof.
  induction l as [|t rest IH]; intros acc toks; [reflexivity|].
  destruct rest as [|t' rest].
  - cbn [tasks_tokens]. rewrite (proj2 (array_task t acc _)). reflexivity.
  - change (tasks_tokens (t :: t' :: rest))
      with (task_tokens t ++ TComma :: tasks_tokens (t' :: rest)).
    rewrite <- app_assoc, (proj2 (array_task t acc _)).
    change (array ArrNext (acc ++ [t]) ((TComma :: tasks_tokens (t' :: rest)) ++ TRBracket :: toks))
      with (array ArrElem (acc ++ [t]) (tasks_tokens (t' :: rest) ++ TRBracket :: toks)).
    rewrite IH, <- app_assoc. reflexivity.
Qed.

Lemma array_document (l : list Task) (toks : list token) :
  array ArrStart [] (tasks_tokens l ++ TRBracket :: toks) = Some l.
Proof.
  destruct l as [|t rest]; [reflexivity|].
  pose proof (array_tasks (t :: rest) [] toks) as H. cbn [app] in H. rewrite <- H.
  destruct rest as [|t' rest].
  - cbn [tasks_tokens]. rewrite (proj1 (array_task t [] _)), (proj2 (array_task t [] _)).
    reflexivity.
  - change (tasks_tokens (t :: t' :: rest))
      with (task_tokens t ++ TComma :: tasks_tokens (t' :: rest)).
    rewrite <- !app_assoc, (proj1 (array_task t [] _)), (proj2 (array_task t [] _)).
    reflexivity.
Qed.

(** Decoding the document encoded for a valid task list gives the list. *)
Lemma Decode_Encode (v : slice) :
  valid v = true -> Decode (Encode v) = Some v.
Proof.
  destruct v as [l|]; [|reflexivity]. unfold valid. cbn [elems]. intros H.
  assert (Hlex : lex Outside (Encode (Some l)) = TLBracket :: tasks_tokens l ++ [TRBracket]).
  { change (lex Outside (Encode (Some l)))
      with (TLBracket :: lex Outside (task_objects l +:+ "]" +:+ nl)).
    rewrite lex_task_objects by exact H. reflexivity. }
  assert (Hdoc : skip_space (Encode (Some l)) = Encode (Some l)) by reflexivity.
  assert (Hnull : top_null (Encode (Some l)) = false).
  { destruct l as [|t [|t' rest]]; reflexivity. }
  unfold Decode. rewrite Hdoc, Hnull, Hlex, array_document. reflexivity.
Qed.

(** A text that is not valid UTF-8 is not kept: the byte that begins no
    rune is written as the escape of the replacement character, and read back
    as the three bytes of that character. *)
Lemma invalid_text_replaced :
  Decode (Encode (Some [mkTask (String "255" "") "" "" false]))
  = Some (Some [mkTask (String "239" (String "191" (String "189" ""))) "" "" false]).
Proof. reflexivity. Qed.

End DocumentFacts.

(** *** Saving, then loading *)

Section StoreFacts.

Context {Env : Type} (world : World Env).

Lemma saveListFile_stores (v : slice) (listFile : string) (s : State Env) :
  fst (saveListFile world v listFile s) = None ->
  disk (snd (saveListFile world v listFile s)) !! listFile = Some (json.Encode v).
Proof.
  unfold saveListFile, create_file, bind, ask, ret, put_file.
  destruct (os_Create world listFile (env s)) as [[err|] e1]; cbn [env disk trace fst snd];
    [discriminate|].
  destruct (file_Write world listFile (json.Encode v) e1) as [[[k err]|] e2];
    cbn [env disk trace fst snd]; [discriminate|].
  intros _. apply lookup_insert_eq.
Qed.

Lemma loadListFile_decodes (v : slice) (listFile doc : string) (s : State Env) :
  disk s !! listFile = Some doc -> json.Decode doc = Some v ->
  fst (loadListFile listFile s) = (v, None).
Proof.
  intros Hdoc Hv. unfold loadListFile. rewrite bind_read_file, Hdoc, Hv. reflexivity.
Qed.

(** C2.  A task list whose texts are valid UTF-8 is saved without an error
    in the list file.  Then loading the list file, from the state the save
    ends in, gives the same list without an error: as many tasks, in the same
    order, each with its four fields; a nil list is loaded as a nil list and an
    empty one as an empty one. *)
Theorem load_save_round_trip (T : slice) (listFile : string) (s : State Env) :
  valid T = true ->
  fst (saveListFile world T listFile s) = None ->
  fst (loadListFile listFile (snd (saveListFile world T listFile s))) = (T, None).
Proof.
  intros Hvalid Hsaved.
  apply (loadListFile_decodes T listFile (json.Encode T)).
  - apply saveListFile_stores, Hsaved.
  - apply Decode_Encode, Hvalid.
Qed.

End StoreFacts.

(** ** The transfer loop *)

Section TransferFacts.

Context {Env : Type} (world : World Env) (md5_hex : string -> string).

(** What a run may change in a task: nothing but a [Done] that becomes
    true. *)
Definition advanced (t t' : Task) : Prop :=
  FileId t' = FileId t /\ SavePath t' = SavePath t /\
  Md5Checksum t' = Md5Checksum t /\ (Done t = true -> Done t' = true).

Lemma advanced_refl (l : list Task) : Forall2 advanced l l.
Proof. induction l; constructor; auto. repeat split; auto. Qed.

Lemma advanced_trans (l1 l2 l3 : list Task) :
  Forall2 advanced l1 l2 -> Forall2 advanced l2 l3 -> Forall2 advanced l1 l3.
Proof.
  intros H12. revert l3. induction H12; intros l3 H23; inversion H23; subst; constructor.
  - unfold advanced in *. intuition congruence.
  - auto.
Qed.

Lemma advanced_set_done (l : list Task) (i : nat) :
  Forall2 advanced l (alter set_done i l).
Proof.
  revert i. induction l as [|t l IH]; intros [|i]; simpl.
  - constructor.
  - constructor.
  - constructor; [repeat split; auto | apply advanced_refl].
  - constructor; [repeat split; auto | apply IH].
Qed.

Lemma transfer_loop_S (n i total : nat) (listFile : string) (fileTasks : list Task) :
  transfer_loop world md5_hex (S n) i total listFile fileTasks
  = transfer_turn world md5_hex (transfer_loop world md5_hex n (S i) total listFile)
                  i total listFile fileTasks.
Proof. reflexivity. Qed.

Lemma transfer_loop_advanced (n i total : nat) (listFile : string)
      (fileTasks : list Task) (s : State Env) :
  Forall2 advanced fileTasks
          (fst (fst (transfer_loop world md5_hex n i total listFile fileTasks s))).
Proof.
  revert i fileTasks s. induction n as [|n IH]; intros i fileTasks s.
  - apply advanced_refl.
  - rewrite transfer_loop_S. unfold transfer_turn.
    destruct (fileTasks !! i) as [task|]; [|apply advanced_refl].
    destruct (Done task); rewrite bind_unfold.
    + apply IH.
    + rewrite bind_unfold.
      match goal with |- context [attempts ?w ?m ?a ?k ?t ?st] =>
        destruct (attempts w m a k t st) as [[e|] s1] end;
        cbn [fst snd]; rewrite bind_unfold.
      * apply advanced_refl.
      * eapply advanced_trans; [apply advanced_set_done | apply IH].
Qed.

(** *** What a computation adds to the trace *)

Definition emits {A} (P : Event -> Prop) (c : M A) : Prop :=
  forall s : State Env,
    exists evs, trace (snd (c s)) = trace s ++ evs /\ Forall P evs.

Lemma emits_ret {A} (P : Event -> Prop) (a : A) : emits P (ret a).
Proof. intros s. exists []. simpl. rewrite app_nil_r. auto. Qed.

Lemma emits_bind {A B} (P : Event -> Prop) (c : M A) (k : A -> M B) :
  emits P c -> (forall a, emits P (k a)) -> emits P (bind c k).
Proof.
  intros Hc Hk s. rewrite bind_unfold.
  destruct (Hc s) as (e1 & E1 & F1).
  destruct (Hk (fst (c s)) (snd (c s))) as (e2 & E2 & F2).
  exists (e1 ++ e2). rewrite E2, E1, app_assoc. split; [reflexivity|].
  apply Forall_app; auto.
Qed.

Lemma emits_emit (P : Event -> Prop) (e : Event) : P e -> emits P (emit e).
Proof. intros H s. exists [e]. simpl. auto. Qed.

Lemma emits_ask {A} (P : Event -> Prop) (q : Env -> A * Env) (ev : A -> Event) :
  (forall a, P (ev a)) -> emits P (ask q ev).
Proof.
  intros H s. unfold ask. destruct (q (env s)) as [a e']. exists [ev a]. simpl. auto.
Qed.

Lemma emits_put_file (P : Event -> Prop) (path content : string) :
  emits P (put_file path content).
Proof. intros s. exists []. simpl. rewrite app_nil_r. auto. Qed.

Lemma emits_read_file (P : Event -> Prop) (path : string) :
  (forall b, P (EvOpen path b)) -> emits P (read_file path).
Proof. intros H s. eexists [_]. simpl. split; [reflexivity|]. auto. Qed.


(** Events of the local file system and of the service, but neither a
    pause nor a message nor a request of another kind than stated. *)
Definition quiet (e : Event) : Prop :=
  match e with EvSleep _ => False | _ => True end.

Definition sleeps (evs : list Event) : list nat :=
  omap (fun e => match e with EvSleep n => Some n | _ => None end) evs.

Lemma sleeps_app (l1 l2 : list Event) : sleeps (l1 ++ l2) = sleeps l1 ++ sleeps l2.
Proof. unfold sleeps. apply omap_app. Qed.

Lemma sleeps_quiet (evs : list Event) : Forall quiet evs -> sleeps evs = [].
Proof.
  induction 1 as [|e l He _ IH]; [reflexivity|].
  destruct e; simpl in *; try contradiction; exact IH.
Qed.

Ltac emits_steps :=
  repeat first
    [ apply emits_ret
    | apply emits_put_file
    | apply emits_emit; simpl; auto
    | apply emits_ask; intros; simpl; auto
    | apply emits_read_file; intros; simpl; auto
    | apply emits_bind; [|intros]
    | match goal with
      | |- emits _ (match ?x with _ => _ end) => destruct x
      end ].

Lemma create_file_emits (P : Event -> Prop) (path : string) :
  (forall r, P (EvCreate path r)) -> emits P (create_file world path).
Proof. intros H. unfold create_file. emits_steps. Qed.

Lemma saveFile_emits (P : Event -> Prop) (path body : string) :
  (forall r, P (EvCreate path r)) -> (forall r, P (EvCopy path body r)) ->
  emits P (saveFile world path body).
Proof.
  intros H1 H2. unfold saveFile.
  apply emits_bind; [apply create_file_emits; auto|]. intros. emits_steps.
Qed.

Lemma downloadDriveFile_quiet (task : Task) :
  emits quiet (downloadDriveFile world md5_hex task).
Proof.
  unfold downloadDriveFile, getFileMd5, log.
  apply emits_bind; [emits_steps|]. intros md5.
  match goal with |- emits _ (if ?b then _ else _) => destruct b end.
  - emits_steps.
  - apply emits_bind; [emits_steps|]. intros _.
    apply emits_bind; [emits_steps|]. intros [err|body]; [emits_steps|].
    apply emits_bind; [apply saveFile_emits; simpl; auto|]. intros. emits_steps.
Qed.

(** *** The retry loop *)

(** The state of the retry loop after the attempts [k], [k+1], ... [k+m-1]
    have all failed and the pause after each of them was taken, with their
    errors; [None] when one of them succeeds. *)
Fixpoint failed_attempts (m k : nat) (task : Task) (s : State Env)
  : option (list error * State Env) :=
  match m with
  | O => Some ([], s)
  | S m' =>
    match downloadDriveFile world md5_hex task s with
    | (Some e, s1) =>
      match failed_attempts m' (S k) task (snd (pause k e s1)) with
      | Some (errs, s') => Some (e :: errs, s')
      | None => None
      end
    | (None, _) => None
    end
  end.

Lemma failed_attempts_length m k task s errs s' :
  failed_attempts m k task s = Some (errs, s') -> length errs = m.
Proof.
  revert k s errs s'. induction m as [|m IH]; intros k s errs s' H; simpl in H.
  - inversion H; reflexivity.
  - destruct (downloadDriveFile world md5_hex task s) as [[e|] s1]; [|discriminate].
    destruct (failed_attempts m (S k) task _) as [[errs0 s0]|] eqn:E; [|discriminate].
    inversion H; subst. simpl. f_equal. eauto.
Qed.

(** The pauses of [m] failed attempts are [5k], [5(k+1)], ... seconds. *)
Lemma failed_attempts_sleeps m k task s errs s' :
  failed_attempts m k task s = Some (errs, s') ->
  exists evs, trace s' = trace s ++ evs /\
              sleeps evs = map (fun j => j * 5) (seq k m).
Proof.
  revert k s errs s'. induction m as [|m IH]; intros k s errs s' H; simpl in H.
  - inversion H; subst. exists []. rewrite app_nil_r. auto.
  - destruct (downloadDriveFile_quiet task s) as (e1 & E1 & Q1).
    destruct (downloadDriveFile world md5_hex task s) as [[e|] s1]; [|discriminate].
    destruct (failed_attempts m (S k) task _) as [[errs0 s0]|] eqn:E; [|discriminate].
    inversion H; subst. apply IH in E. destruct E as (e2 & E2 & S2).
    simpl in E1. simpl in E2. rewrite E1 in E2.
    exists (e1 ++ [EvLog (Retry k (k * 5) e); EvSleep (k * 5)] ++ e2).
    split.
    + rewrite E2. rewrite <- !app_assoc. reflexivity.
    + rewrite !sleeps_app, (sleeps_quiet e1 Q1), S2. reflexivity.
Qed.

(** The retry loop after [m] failed attempts: it has given up when they
    were all it had, and goes on with the next attempt otherwise. *)
Lemma attempts_after_failures m r k task s errs s' :
  failed_attempts m k task s = Some (errs, s') ->
  attempts world md5_hex (m + r) k task s =
  match r with
  | O => (last errs, s')
  | S _ => attempts world md5_hex r (k + m) task s'
  end.
Proof.
  revert k s errs s'. induction m as [|m IH]; intros k s errs s' H;
    cbn [failed_attempts] in H.
  - inversion H; subst. simpl. rewrite Nat.add_0_r. destruct r; reflexivity.
  - destruct (downloadDriveFile world md5_hex task s) as [[e|] s1] eqn:D; [|discriminate].
    destruct (failed_attempts m (S k) task _) as [[errs0 s0]|] eqn:E; [|discriminate].
    inversion H; subst. pose proof (IH _ _ _ _ E) as IH'.
    change (attempts world md5_hex (S m + r) k task s)
      with (bind (downloadDriveFile world md5_hex task) (fun err =>
              match err with
              | None => ret None
              | Some e => bind (pause k e) (fun _ =>
                  match (m + r)%nat with
                  | O => ret (Some e)
                  | S _ => attempts world md5_hex (m + r) (S k) task
                  end)
              end) s).
    rewrite bind_unfold, D. cbn [fst snd]. rewrite bind_unfold.
    destruct m as [|m'].
    + cbn [failed_attempts] in E. inversion E; subst.
      destruct r; [reflexivity|].
      cbn [Nat.add]. replace (k + 1)%nat with (S k) by lia. reflexivity.
    + change (S m' + r)%nat with (S (m' + r)) in *.
      cbv beta iota. rewrite IH'. replace (S k + S m')%nat with (k + S (S m'))%nat by lia.
      destruct r; [|reflexivity].
      destruct errs0 as [|e0 l0]; [|reflexivity].
      apply failed_attempts_length in E. simpl in E. lia.
Qed.

Lemma attempts_S (n k : nat) (task : Task) :
  attempts world md5_hex (S n) k task
  = bind (downloadDriveFile world md5_hex task) (fun err =>
      match err with
      | None => ret None
      | Some e =>
        bind (pause k e) (fun _ =>
          match n with
          | O => ret (Some e)
          | S _ => attempts world md5_hex n (S k) task
          end)
      end).
Proof. reflexivity. Qed.

Lemma attempts_success (r k : nat) (task : Task) (s : State Env) :
  fst (downloadDriveFile world md5_hex task s) = None ->
  attempts world md5_hex (S r) k task s
  = (None, snd (downloadDriveFile world md5_hex task s)).
Proof.
  intros H. cbn [attempts]. rewrite bind_unfold, H. reflexivity.
Qed.

Lemma lookup_advanced (l l' : list Task) (i : nat) (t : Task) :
  Forall2 advanced l l' -> l !! i = Some t -> Done t = true ->
  exists t', l' !! i = Some t' /\ Done t' = true.
Proof.
  intros F. revert i. induction F as [|x y l l' Hxy F IH]; intros [|i] L D;
    simpl in *; try discriminate.
  - inversion L; subst. exists y. split; [reflexivity|]. apply Hxy, D.
  - eauto.
Qed.

(** C3.  The loop is at the task [i], which is not done, and the first [m]
    attempts to download it fail ([m <= 5]); when [m < 5] the next attempt
    succeeds.  Then the pauses taken are of 5, 10, ... 5m seconds, one after
    each failed attempt.  When [m < 5] (so also when four attempts fail and
    the fifth succeeds) the task is marked done, the loop goes on with the
    next task, and the task is done in the list the loop returns.  When
    [m = 5] the loop ends at once with the last error: the list is returned
    as it was, so that this task and the tasks after it keep their [Done],
    and nothing happens after the fifth pause but the message reporting the
    error. *)
Theorem retry_then_done_or_abort (n i total m : nat) (listFile : string)
        (fileTasks : list Task) (task : Task) (errs : list error)
        (s sm : State Env) :
  fileTasks !! i = Some task ->
  Done task = false ->
  (m <= 5)%nat ->
  failed_attempts m 1 task (snd (log (Downloading i total) s)) = Some (errs, sm) ->
  ((m < 5)%nat -> fst (downloadDriveFile world md5_hex task sm) = None) ->
  (exists evs, trace sm = trace s ++ EvLog (Downloading i total) :: evs /\
               sleeps evs = map (fun k => k * 5) (seq 1 m)) /\
  if (m <? 5)%nat then
    let marked := alter set_done i fileTasks in
    transfer_loop world md5_hex (S n) i total listFile fileTasks s
    = transfer_loop world md5_hex n (S i) total listFile marked
        (snd (checkpoint world i marked listFile
                (snd (downloadDriveFile world md5_hex task sm)))) /\
    exists t', fst (fst (transfer_loop world md5_hex (S n) i total listFile fileTasks s)) !! i
               = Some t' /\ Done t' = true
  else
    exists e, last errs = Some e /\
      transfer_loop world md5_hex (S n) i total listFile fileTasks s
      = ((fileTasks, Some e), snd (log (DownloadErr e) sm)).
Proof.
  intros L D Hm F Hok. split.
  - apply failed_attempts_sleeps in F. destruct F as (evs & E & S).
    exists evs. split; [|exact S]. rewrite E. simpl. rewrite <- app_assoc. reflexivity.
  - pose proof (attempts_after_failures m (5 - m) 1 task _ errs sm F) as A.
    replace (m + (5 - m))%nat with 5%nat in A by lia.
    rewrite transfer_loop_S. unfold transfer_turn. rewrite L, D.
    rewrite bind_unfold. cbv beta. rewrite bind_unfold. rewrite A.
    destruct (m <? 5)%nat eqn:M.
    + apply Nat.ltb_lt in M. destruct (5 - m)%nat as [|r] eqn:R; [lia|].
      rewrite (attempts_success r (1 + m) task sm (Hok M)). cbn [fst snd].
      rewrite bind_unfold. cbv zeta. split; [reflexivity|].
      apply (lookup_advanced (alter set_done i fileTasks) _ i (set_done task));
        [apply transfer_loop_advanced| |reflexivity].
      rewrite list_lookup_alter_eq, L. reflexivity.
    + apply Nat.ltb_ge in M. assert (m = 5%nat) by lia. subst m.
      cbn [Nat.sub]. cbn [fst snd].
      pose proof (failed_attempts_length _ _ _ _ _ _ F) as Len.
      destruct errs as [|e0 errs0] using rev_ind; [discriminate|].
      exists e0. rewrite last_snoc. split; [reflexivity|].
      cbn [fst snd]. rewrite bind_unfold. reflexivity.
Qed.

(** A turn of the loop on a task that is downloaded. *)
Lemma transfer_turn_done (n i total : nat) (listFile : string) (fileTasks : list Task)
      (task : Task) (s : State Env) :
  fileTasks !! i = Some task ->
  Done task = false ->
  fst (attempts world md5_hex 5 1 task (snd (log (Downloading i total) s))) = None ->
  transfer_loop world md5_hex (S n) i total listFile fileTasks s
  = transfer_loop world md5_hex n (S i) total listFile (alter set_done i fileTasks)
      (snd (checkpoint world i (alter set_done i fileTasks) listFile
              (snd (attempts world md5_hex 5 1 task (snd (log (Downloading i total) s)))))).
Proof.
  intros L D Hok. rewrite transfer_loop_S. unfold transfer_turn. rewrite L, D.
  rewrite bind_unfold. cbv beta. rewrite bind_unfold, Hok. rewrite bind_unfold. reflexivity.
Qed.

(** The transfer is the loop, then a save whose result is dropped. *)
Lemma transfer_shape (v : slice) (listFile : string) (s : State Env) :
  transfer world md5_hex v listFile s
  = ((match v with
      | None => None
      | Some _ =>
        Some (fst (fst (transfer_loop world md5_hex (length (elems v)) 0 (length (elems v))
                          listFile (elems v) (snd (log (TotalFiles (length (elems v))) s)))))
      end,
      snd (fst (transfer_loop world md5_hex (length (elems v)) 0 (length (elems v))
                  listFile (elems v) (snd (log (TotalFiles (length (elems v))) s))))),
     snd (saveListFile world
            (match v with
             | None => None
             | Some _ =>
               Some (fst (fst (transfer_loop world md5_hex (length (elems v)) 0
                                 (length (elems v)) listFile (elems v)
                                 (snd (log (TotalFiles (length (elems v))) s)))))
             end)
            listFile
            (snd (transfer_loop world md5_hex (length (elems v)) 0 (length (elems v))
                    listFile (elems v) (snd (log (TotalFiles (length (elems v))) s)))))).
Proof. unfold transfer. rewrite !bind_unfold. reflexivity. Qed.

(** *** Tasks that are done *)

(** The messages for the done tasks [l], which start at the index [from]. *)
Definition skip_messages (from total : nat) (l : list Task) : list Event :=
  imap (fun j t => EvLog (Skipping (from + j) total (SavePath t))) l.

Definition all_done (l : list Task) : Prop := Forall (fun t => Done t = true) l.

(** Tasks that are done cost a message each, and nothing else. *)
Lemma transfer_loop_skips (done : list Task) :
  all_done done ->
  forall (before after : list Task) (n total : nat) (listFile : string) (s : State Env),
    transfer_loop world md5_hex (length done + n) (length before) total listFile
                  (before ++ done ++ after) s
    = transfer_loop world md5_hex n (length before + length done) total listFile
                    (before ++ done ++ after)
                    (mkState (env s) (disk s)
                             (trace s ++ skip_messages (length before) total done)).
Proof.
  induction 1 as [|t done Ht Hd IH]; intros before after n total listFile s.
  - simpl. rewrite Nat.add_0_r, app_nil_r. destruct s; reflexivity.
  - change (length (t :: done) + n)%nat with (S (length done + n)).
    rewrite transfer_loop_S. unfold transfer_turn.
    rewrite lookup_app_r by lia. rewrite Nat.sub_diag. cbn [lookup list_lookup app].
    rewrite Ht, bind_unfold.
    specialize (IH (before ++ [t]) after n total listFile).
    rewrite length_app in IH. cbn [length] in IH.
    replace (S (length before)) with (length before + 1)%nat by lia.
    rewrite <- !app_assoc in IH. cbn [app] in IH. rewrite IH.
    f_equal; [cbn [length]; lia|].
    unfold skip_messages. cbn [log emit snd env disk trace].
    rewrite imap_cons. rewrite <- app_assoc. cbn [app].
    rewrite Nat.add_0_r. do 3 f_equal.
    apply imap_ext. intros j x _. simpl. do 2 f_equal. lia.
Qed.

(** Only a failed download makes the loop return an error: when it returns
    none, the tasks it went over are done. *)
Lemma transfer_loop_ok_done (n i total : nat) (listFile : string)
      (fileTasks : list Task) (s : State Env) :
  snd (fst (transfer_loop world md5_hex n i total listFile fileTasks s)) = None ->
  forall j t,
    (i <= j < i + n)%nat ->
    fst (fst (transfer_loop world md5_hex n i total listFile fileTasks s)) !! j = Some t ->
    Done t = true.
Proof.
  revert i fileTasks s. induction n as [|n IH]; intros i fileTasks s Hok j t Hj L; [lia|].
  rewrite transfer_loop_S in *. unfold transfer_turn in *.
  destruct (fileTasks !! i) as [task|] eqn:Li.
  - destruct (Done task) eqn:D.
    + rewrite bind_unfold in *.
      destruct (decide (j = i)) as [->|Hne].
      * destruct (lookup_advanced _ _ _ _ (transfer_loop_advanced n (S i) total listFile
                    fileTasks (snd (log (Skipping i total (SavePath task)) s))) Li D)
          as (t' & L' & D').
        rewrite L' in L. inversion L; subst. exact D'.
      * eapply (IH (S i)); eauto. lia.
    + rewrite bind_unfold in *. cbv beta in *. rewrite bind_unfold in *.
      match type of Hok with context [attempts ?w ?m ?a ?k ?tk ?st] =>
        destruct (attempts w m a k tk st) as [[e|] s1] end;
        cbn [fst snd] in *; rewrite bind_unfold in *; [discriminate|].
      cbv zeta in *.
      destruct (decide (j = i)) as [->|Hne].
      * match type of L with context [transfer_loop ?w ?m ?a ?k ?tt ?lf ?l ?st] =>
          destruct (lookup_advanced l _ i (set_done task)
                      (transfer_loop_advanced a k tt lf l st)) as (t' & L' & D')
        end; [rewrite list_lookup_alter_eq, Li; reflexivity | reflexivity |].
        rewrite L' in L. inversion L; subst. exact D'.
      * eapply (IH (S i)); eauto. lia.
  - cbn [ret fst snd] in L. apply lookup_lt_Some in L. apply lookup_ge_None in Li. lia.
Qed.

(** *** The trace only grows *)

Definition any (e : Event) : Prop := True.

Lemma saveListFile_emits (P : Event -> Prop) (v : slice) (listFile : string) :
  (forall r, P (EvCreate listFile r)) ->
  (forall r, P (EvWrite listFile (json.Encode v) r)) ->
  emits P (saveListFile world v listFile).
Proof.
  intros H1 H2. unfold saveListFile.
  apply emits_bind; [apply create_file_emits; auto|]. intros. emits_steps.
Qed.





(** The first events of a computation. *)
Definition starts_with {A} (evs0 : list Event) (c : M A) (s : State Env) : Prop :=
  exists evs, trace (snd (c s)) = trace s ++ evs0 ++ evs.

Lemma starts_with_bind {A B} (evs0 : list Event) (c : M A) (k : A -> M B) (s : State Env) :
  starts_with evs0 c s -> (forall a, emits any (k a)) -> starts_with evs0 (bind c k) s.
Proof.
  intros (e1 & E1) Hk. unfold starts_with. rewrite bind_unfold.
  destruct (Hk (fst (c s)) (snd (c s))) as (e2 & E2 & _).
  exists (e1 ++ e2). rewrite E2, E1. rewrite <- !app_assoc. reflexivity.
Qed.

Lemma starts_with_emit {B} (e : Event) (evs0 : list Event) (k : unit -> M B) (s : State Env) :
  starts_with evs0 (k tt) (snd (emit e s)) -> starts_with (e :: evs0) (bind (emit e) k) s.
Proof.
  intros (e1 & E1). unfold starts_with. rewrite bind_unfold.
  exists e1. cbn [emit fst snd] in *. rewrite E1. cbn [trace].
  rewrite <- app_assoc. reflexivity.
Qed.

Lemma downloadDriveFile_starts (task : Task) (s : State Env) :
  starts_with [EvOpen (SavePath task) (bool_decide (is_Some (disk s !! SavePath task)))]
              (downloadDriveFile world md5_hex task) s.
Proof.
  unfold downloadDriveFile. apply starts_with_bind.
  - unfold getFileMd5. apply starts_with_bind.
    + exists []. reflexivity.
    + intros [c|]; apply emits_ret.
  - intros md5.
    match goal with |- emits _ (if ?b then _ else _) => destruct b end.
    + unfold log. emits_steps; exact I.
    + apply emits_bind; [apply emits_emit; exact I|]. intros _.
      apply emits_bind; [emits_steps; exact I|]. intros [err|body]; [emits_steps|].
      apply emits_bind; [apply saveFile_emits; intros; exact I|]. intros. emits_steps.
Qed.

(** *** A second run *)

(** An event that is no request to the service. *)
Definition local (e : Event) : Prop :=
  match e with
  | EvGet _ _ | EvList _ _ _ | EvDownload _ _ => False
  | _ => True
  end.

Lemma skip_messages_local (from total : nat) (l : list Task) :
  Forall local (skip_messages from total l).
Proof.
  unfold skip_messages. revert from. induction l as [|t l IH]; intros from; [constructor|].
  rewrite imap_cons. constructor; [exact I|].
  rewrite (imap_ext _ (fun j t => EvLog (Skipping (S from + j) total (SavePath t)))).
  - apply IH.
  - intros j x _. simpl. do 2 f_equal. lia.
Qed.

Lemma transfer_all_done (l : list Task) (listFile : string) (s : State Env) :
  all_done l ->
  fst (transfer world md5_hex (Some l) listFile s) = (Some l, None) /\
  exists evs, trace (snd (transfer world md5_hex (Some l) listFile s)) = trace s ++ evs /\
              Forall local evs.
Proof.
  intros Hd. unfold transfer. cbn [elems]. rewrite bind_unfold. cbv beta.
  rewrite bind_unfold.
  pose proof (transfer_loop_skips l Hd [] [] 0 (length l) listFile
                (snd (log (TotalFiles (length l)) s))) as H.
  cbn [app length] in H. rewrite Nat.add_0_r, app_nil_r in H. rewrite H.
  cbn [transfer_loop ret fst snd]. rewrite bind_unfold. split; [reflexivity|].
  cbn [ret snd].
  match goal with |- context [saveListFile ?w ?v ?lf ?st] =>
    destruct (saveListFile_emits local v lf (fun _ => I) (fun _ => I) st) as (evs & E & F)
  end.
  rewrite E. cbn [trace log emit snd].
  eexists. rewrite <- !app_assoc. split; [reflexivity|].
  apply Forall_app. split; [repeat constructor|].
  apply Forall_app. split; [apply skip_messages_local | exact F].
Qed.

(** When the local file of a task has the digest the task expects, and
    that digest is not empty, the download of the task is a look at the file
    and a message. *)
Lemma downloadDriveFile_identical (task : Task) (content : string) (s : State Env) :
  disk s !! SavePath task = Some content ->
  md5_hex content = Md5Checksum task ->
  Md5Checksum task <> "" ->
  downloadDriveFile world md5_hex task s
  = (None, mkState (env s) (disk s)
                   (trace s ++ [EvOpen (SavePath task) true;
                                EvLog (SkippingIdentical (SavePath task))])).
Proof.
  intros Hf Hm Hne. unfold downloadDriveFile, getFileMd5.
  rewrite !bind_unfold. cbn [read_file fst snd]. rewrite Hf. cbn [ret fst snd].
  rewrite Hm, String.eqb_refl.
  destruct (String.eqb (Md5Checksum task) "") eqn:E;
    [apply String.eqb_eq in E; contradiction|].
  cbn [negb andb]. rewrite bind_unfold. cbn [log emit ret fst snd env disk trace].
  rewrite bool_decide_eq_true_2 by eauto.
  rewrite <- app_assoc. reflexivity.
Qed.

(** C4.  A first run that ends without an error leaves every task done.
    A second run on that list, from any state of the world, returns the same
    list and no error, and sends no request to the service: what it does is
    write messages and save the list.  Apart from the [Done] flags, a task
    whose local file has the expected, non-empty digest is not fetched
    either: its download ends, without an error, after the look at the local
    file. *)
Theorem second_run_fetches_nothing (fileTasks : slice) (listFile : string)
        (s s2 : State Env) :
  snd (fst (transfer world md5_hex fileTasks listFile s)) = None ->
  let after := fst (fst (transfer world md5_hex fileTasks listFile s)) in
  all_done (elems after) /\
  fst (transfer world md5_hex after listFile s2) = (after, None) /\
  (exists evs, trace (snd (transfer world md5_hex after listFile s2)) = trace s2 ++ evs /\
               Forall local evs) /\
  (forall (task : Task) (content : string) (s3 : State Env),
      disk s3 !! SavePath task = Some content ->
      md5_hex content = Md5Checksum task ->
      Md5Checksum task <> "" ->
      downloadDriveFile world md5_hex task s3
      = (None, mkState (env s3) (disk s3)
                       (trace s3 ++ [EvOpen (SavePath task) true;
                                     EvLog (SkippingIdentical (SavePath task))]))).
Proof.
  intros Hok after.
  assert (Hd : all_done (elems after)).
  { unfold after in *. unfold transfer in *. rewrite !bind_unfold in *.
    cbn [ret fst snd] in *.
    match type of Hok with context [transfer_loop ?w ?m ?n ?i ?t ?lf ?l ?st] =>
      pose proof (transfer_loop_ok_done n i t lf l st Hok) as H;
      pose proof (transfer_loop_advanced n i t lf l st) as A
    end.
    destruct fileTasks as [l0|]; cbn [elems] in *; [|constructor].
    apply Forall_lookup. intros j t L. apply (H j t); [|exact L].
    apply lookup_lt_Some in L. apply Forall2_length in A. lia. }
  split; [exact Hd|].
  destruct after as [l|] eqn:E.
  - destruct (transfer_all_done l listFile s2 Hd) as [H1 H2].
    split; [exact H1|]. split; [exact H2|]. apply downloadDriveFile_identical.
  - split; [unfold transfer; rewrite !bind_unfold; reflexivity|].
    split; [|apply downloadDriveFile_identical].
    unfold transfer. rewrite !bind_unfold. cbn [elems length transfer_loop ret fst snd].
    match goal with |- context [saveListFile ?w ?v ?lf ?st] =>
      destruct (saveListFile_emits local v lf (fun _ => I) (fun _ => I) st) as (evs & E' & F)
    end.
    rewrite E'. cbn [trace log emit snd].
    eexists. rewrite <- !app_assoc. split; [reflexivity|].
    apply Forall_app. split; [repeat constructor | exact F].
Qed.

(** *** Saving the list during the run *)

(** An attempt to save the list shows in the trace as the creation of the
    list file. *)
Definition is_save (listFile : string) (e : Event) : bool :=
  match e with
  | EvCreate path _ => String.eqb path listFile
  | _ => false
  end.

Definition saves (listFile : string) (evs : list Event) : nat :=
  length (List.filter (is_save listFile) evs).

Definition is_log (e : Event) : bool :=
  match e with EvLog _ => true | _ => false end.

(** The task at the index [i] is due for a save after it: it is still to
    be done and its position, counted from one, is a multiple of ten. *)
Definition due (i : nat) (t : Task) : bool :=
  negb (Done t) && ((i + 1) mod 10 =? 0)%nat.

(** The number of tasks of [l] that are due, when [l] starts at the index [i]. *)
Fixpoint due_from (i : nat) (l : list Task) : nat :=
  match l with
  | [] => 0
  | t :: l' => ((if due i t then 1 else 0) + due_from (S i) l')%nat
  end.

Lemma saves_app (listFile : string) (l1 l2 : list Event) :
  saves listFile (l1 ++ l2) = (saves listFile l1 + saves listFile l2)%nat.
Proof. unfold saves. rewrite List.filter_app, length_app. reflexivity. Qed.

Lemma saves_none (listFile : string) (evs : list Event) :
  Forall (fun e => is_save listFile e = false) evs -> saves listFile evs = 0%nat.
Proof.
  unfold saves. induction 1 as [|e l He _ IH]; [reflexivity|].
  simpl. rewrite He. exact IH.
Qed.

(** A save makes one attempt to create the list file, and writes no message. *)
Lemma saveListFile_once (v : slice) (listFile : string) (s : State Env) :
  exists evs, trace (snd (saveListFile world v listFile s)) = trace s ++ evs /\
              saves listFile evs = 1%nat /\ Forall (fun e => is_log e = false) evs.
Proof.
  unfold saveListFile, create_file, bind, ask, ret, put_file.
  destruct (os_Create world listFile (env s)) as [[err|] e1]; cbn [env disk trace].
  - eexists [_]. cbn [snd trace]. split; [reflexivity|].
    unfold saves. simpl. rewrite String.eqb_refl. split; [reflexivity|]. repeat constructor.
  - destruct (file_Write world listFile (json.Encode v) e1) as [[[k err]|] e2];
      cbn [snd trace]; eexists [_; _]; rewrite <- app_assoc; (split; [reflexivity|]);
      unfold saves; simpl; rewrite String.eqb_refl; (split; [reflexivity|]);
      repeat constructor.
Qed.

Lemma downloadDriveFile_other_path (task : Task) (listFile : string) :
  SavePath task <> listFile ->
  emits (fun e => is_save listFile e = false) (downloadDriveFile world md5_hex task).
Proof.
  intros Hne.
  assert (Hc : forall r, is_save listFile (EvCreate (SavePath task) r) = false).
  { intros r. simpl. apply String.eqb_neq. exact Hne. }
  unfold downloadDriveFile, getFileMd5, log.
  apply emits_bind; [emits_steps|]. intros md5.
  match goal with |- emits _ (if ?b then _ else _) => destruct b end.
  - emits_steps.
  - apply emits_bind; [emits_steps|]. intros _.
    apply emits_bind; [emits_steps|]. intros [err|body]; [emits_steps|].
    apply emits_bind; [apply saveFile_emits; simpl; auto|]. intros. emits_steps.
Qed.

Lemma attempts_other_path (n k : nat) (task : Task) (listFile : string) :
  SavePath task <> listFile ->
  emits (fun e => is_save listFile e = false) (attempts world md5_hex n k task).
Proof.
  intros Hne. revert k. induction n as [|n IH]; intros k; [apply emits_ret|].
  rewrite attempts_S.
  apply emits_bind; [apply downloadDriveFile_other_path, Hne|]. intros [e|]; [|apply emits_ret].
  apply emits_bind.
  - unfold pause, log, sleep. emits_steps.
  - intros _. destruct n; [apply emits_ret | apply IH].
Qed.

(** When every task is downloaded within its five attempts, the loop saves
    the list once for each task that is due, whatever becomes of the saves. *)
Lemma transfer_loop_saves (listFile : string) :
  (forall t s, SavePath t <> listFile ->
               fst (attempts world md5_hex 5 1 t s) = None) ->
  forall (n i total : nat) (l : list Task) (s : State Env),
    Forall (fun t => SavePath t <> listFile) l ->
    snd (fst (transfer_loop world md5_hex n i total listFile l s)) = None /\
    exists evs,
      trace (snd (transfer_loop world md5_hex n i total listFile l s)) = trace s ++ evs /\
      saves listFile evs = due_from i (take n (drop i l)).
Proof.
  intros Hdl. induction n as [|n IH]; intros i total l s Hp.
  - split; [reflexivity|]. exists []. rewrite app_nil_r. split; reflexivity.
  - rewrite transfer_loop_S. unfold transfer_turn.
    destruct (l !! i) as [task|] eqn:L.
    + rewrite (drop_S _ _ _ L). cbn [take due_from].
      assert (Hpt : SavePath task <> listFile).
      { eapply Forall_lookup_1 in Hp; eauto. }
      unfold due. destruct (Done task) eqn:D; cbn [negb andb].
      * rewrite bind_unfold.
        destruct (IH (S i) total l (snd (log (Skipping i total (SavePath task)) s)) Hp)
          as (Hok & evs & E & S).
        split; [exact Hok|]. eexists. rewrite E. cbn [log emit snd trace].
        rewrite <- app_assoc. split; [reflexivity|].
        rewrite saves_app, S. reflexivity.
      * rewrite bind_unfold. cbv beta. rewrite bind_unfold.
        pose proof (Hdl task (snd (log (Downloading i total) s)) Hpt) as Hok1.
        destruct (attempts_other_path 5 1 task listFile Hpt
                    (snd (log (Downloading i total) s))) as (e1 & E1 & Q1).
        rewrite Hok1. rewrite bind_unfold. cbv zeta.
        assert (Hp' : Forall (fun t => SavePath t <> listFile) (alter set_done i l)).
        { apply Forall_alter; [exact Hp|]. intros x _ Hx. exact Hx. }
        match goal with |- context [transfer_loop ?w ?m n (S i) ?t ?lf ?l' ?st] =>
          destruct (IH (S i) t l' st Hp') as (Hok & e3 & E3 & S3)
        end.
        split; [exact Hok|].
        rewrite drop_alter_lt in S3 by lia.
        unfold checkpoint in *.
        destruct ((i + 1) mod 10 =? 0)%nat.
        -- rewrite bind_unfold in *. cbn [ret snd] in *.
           match type of E3 with context [saveListFile ?w ?v ?lf ?st] =>
             destruct (saveListFile_once v lf st) as (e2 & E2 & S2 & _)
           end.
           eexists. rewrite E3, E2, E1. cbn [log emit snd trace].
           rewrite <- !app_assoc. split; [reflexivity|].
           cbn [app]. change (?x :: e1 ++ ?y) with ([x] ++ e1 ++ y).
           rewrite !saves_app, S3, S2, (saves_none _ _ Q1). reflexivity.
        -- cbn [ret snd] in *. eexists. rewrite E3, E1. cbn [log emit snd trace].
           rewrite <- !app_assoc. split; [reflexivity|].
           cbn [app]. change (?x :: e1 ++ ?y) with ([x] ++ e1 ++ y).
           rewrite !saves_app, S3, (saves_none _ _ Q1). reflexivity.
    + split; [reflexivity|]. exists []. rewrite app_nil_r. split; [reflexivity|].
      rewrite drop_ge by (apply lookup_ge_None; exact L). rewrite take_nil. reflexivity.
Qed.

(** The claim C6 as it is worded: a save after every tenth completed task
    and one at the end, and a message for every save that fails. *)
Definition newly_done (before after : list Task) : nat :=
  length (List.filter (fun p : Task * Task => negb (Done (fst p)) && Done (snd p))
                      (zip before after)).

Definition saved_every_tenth_completion (listFile : string)
           (before after : list Task) (evs : list Event) : Prop :=
  saves listFile evs = (newly_done before after / 10 + 1)%nat.

Definition failed_saves_logged (listFile : string) (evs : list Event) : Prop :=
  forall pre err post,
    evs = pre ++ EvCreate listFile (Some err) :: post ->
    Exists (fun e => is_log e = true) post.

End TransferFacts.

(** C10.  A run of the transfer changes nothing in the task list but
    [Done] flags, and those only from false to true: the list after the run
    has the tasks of the list before it, one for one and in the same order,
    with the same [FileId], [SavePath] and [Md5Checksum], and every task
    that was done is still done.  A nil list stays nil. *)
Theorem transfer_changes_only_done {Env : Type} (world : World Env)
        (md5_hex : string -> string) (fileTasks : slice) (listFile : string)
        (s : State Env) :
  let after := fst (fst (transfer world md5_hex fileTasks listFile s)) in
  Forall2 advanced (elems fileTasks) (elems after) /\
  length (elems after) = length (elems fileTasks) /\
  (after = None <-> fileTasks = None).
Proof.
  cbv zeta. rewrite transfer_shape. cbn [fst snd].
  pose proof (transfer_loop_advanced world md5_hex (length (elems fileTasks)) 0
                (length (elems fileTasks)) listFile (elems fileTasks)
                (snd (log (TotalFiles (length (elems fileTasks))) s))) as H.
  destruct fileTasks as [l0|]; cbn [elems] in *.
  - split; [exact H|]. split; [symmetry; eapply Forall2_length; eauto|]. split; discriminate.
  - split; [constructor|]. split; [reflexivity|]. split; reflexivity.
Qed.


(** ** Resuming a list *)

(** The progress messages: the index of the task, and whether the task is
    passed over as done. *)
Definition progress_of (e : Event) : option (nat * bool) :=
  match e with
  | EvLog (Skipping i _ _) => Some (i, true)
  | EvLog (Downloading i _) => Some (i, false)
  | _ => None
  end.

Definition progress (evs : list Event) : list (nat * bool) := omap progress_of evs.


Section ResumeFacts.

Context {Env : Type} (world : World Env) (md5_hex : string -> string).
















End ResumeFacts.

(** ** The saves of a run *)

(** The attempts to save the list, as the trace shows them: [None] for
    an attempt whose list file could not be created, [Some doc] for one that
    went on to write the document [doc]. *)
Definition save_attempt (listFile : string) (e : Event) : option (option string) :=
  match e with
  | EvCreate path (Some _) => if String.eqb path listFile then Some None else None
  | EvWrite path doc _ => if String.eqb path listFile then Some (Some doc) else None
  | _ => None
  end.

Definition save_attempts (listFile : string) (evs : list Event) : list (option string) :=
  omap (save_attempt listFile) evs.

(** In a run that takes the list [before] to the list [after], the task
    at the index [j] is completed when it was not done and now is. *)
Definition completed (before after : list Task) (j : nat) : bool :=
  match before !! j, after !! j with
  | Some t, Some t' => negb (Done t) && Done t'
  | _, _ => false
  end.

(** The list as it is right after the task at the index [j] is
    completed: the tasks up to that one as the run leaves them, the later
    ones as they were. *)
Definition list_after (j : nat) (before after : list Task) : list Task :=
  take (S j) after ++ drop (S j) before.

(** The documents of the saves during the run, for the indexes from [i]
    on, [n] of them: one for each completed task whose position, counted from
    one, is a multiple of ten. *)
Definition periodic_docs (i n : nat) (before after : list Task) : list string :=
  omap (fun j => if completed before after j && ((j + 1) mod 10 =? 0)%nat
                 then Some (json.Encode (Some (list_after j before after)))
                 else None)
       (seq i n).

(** The documents of all the saves of a run: those during the run, and
    the list at its end. *)
Definition expected_docs (v final : slice) : list string :=
  periodic_docs 0 (length (elems v)) (elems v) (elems final) ++ [json.Encode final].

(** An attempt is as expected when it did not get to write, or wrote the
    expected document. *)
Definition as_expected (a : option string) (doc : string) : Prop :=
  a = None \/ a = Some doc.

Section CheckpointFacts.

Context {Env : Type} (world : World Env) (md5_hex : string -> string).

Definition no_save (listFile : string) (e : Event) : Prop := save_attempt listFile e = None.

Lemma save_attempts_app (listFile : string) (l1 l2 : list Event) :
  save_attempts listFile (l1 ++ l2) = save_attempts listFile l1 ++ save_attempts listFile l2.
Proof. unfold save_attempts. apply omap_app. Qed.

Lemma save_attempts_none (listFile : string) (evs : list Event) :
  Forall (no_save listFile) evs -> save_attempts listFile evs = [].
Proof.
  induction 1 as [|e l He _ IH]; [reflexivity|].
  unfold save_attempts in *. cbn [omap list_omap]. rewrite He. exact IH.
Qed.

Ltac saveless :=
  repeat first
    [ apply emits_ret
    | apply emits_put_file
    | apply emits_emit; reflexivity
    | apply emits_ask; intros; reflexivity
    | apply emits_read_file; intros; reflexivity
    | apply emits_bind; [|intros]
    | match goal with
      | |- emits _ (match ?x with _ => _ end) => destruct x
      end ].

Lemma downloadDriveFile_no_save (task : Task) (listFile : string) :
  SavePath task <> listFile ->
  emits (no_save listFile) (downloadDriveFile world md5_hex task).
Proof.
  intros Hne.
  assert (Hc : forall r, no_save listFile (EvCreate (SavePath task) r)).
  { intros [e|]; unfold no_save; cbn; [|reflexivity].
    apply String.eqb_neq in Hne. rewrite Hne. reflexivity. }
  unfold downloadDriveFile, getFileMd5, log.
  apply emits_bind; [saveless|]. intros md5.
  match goal with |- emits _ (if ?b then _ else _) => destruct b end; [saveless|].
  apply emits_bind; [saveless|]. intros _.
  apply emits_bind; [saveless|]. intros [err|body]; [saveless|].
  apply emits_bind; [apply saveFile_emits; [exact Hc | intros; reflexivity]|].
  intros. saveless.
Qed.

Lemma attempts_no_save (n k : nat) (task : Task) (listFile : string) :
  SavePath task <> listFile ->
  emits (no_save listFile) (attempts world md5_hex n k task).
Proof.
  intros Hne. revert k. induction n as [|n IH]; intros k; [apply emits_ret|].
  rewrite attempts_S.
  apply emits_bind; [apply downloadDriveFile_no_save, Hne|]. intros [e|]; [|apply emits_ret].
  apply emits_bind; [unfold pause, log, sleep; saveless|].
  intros _. destruct n; [apply emits_ret | apply IH].
Qed.

(** What a save does: one attempt, whose document is that of the list. *)
Lemma saveListFile_attempt (v : slice) (listFile : string) (s : State Env) :
  exists evs a, trace (snd (saveListFile world v listFile s)) = trace s ++ evs /\
                save_attempts listFile evs = [a] /\ as_expected a (json.Encode v).
Proof.
  unfold saveListFile, create_file, bind, ask, ret, put_file.
  destruct (os_Create world listFile (env s)) as [[err|] e1]; cbn [env disk trace fst snd].
  - exists [EvCreate listFile (Some err)], None. split; [reflexivity|].
    unfold save_attempts. cbn. rewrite String.eqb_refl. split; [reflexivity | left; reflexivity].
  - destruct (file_Write world listFile (json.Encode v) e1) as [w e2];
      assert (Hw : exists evs a,
                 (trace s ++ [EvCreate listFile None]) ++ [EvWrite listFile (json.Encode v) w]
                 = trace s ++ evs /\
                 save_attempts listFile evs = [a] /\ as_expected a (json.Encode v)).
    { exists [EvCreate listFile None; EvWrite listFile (json.Encode v) w], (Some (json.Encode v)).
      rewrite <- app_assoc. split; [reflexivity|].
      unfold save_attempts. cbn. rewrite String.eqb_refl. split; [reflexivity | right; reflexivity]. }
    destruct w as [[k err]|]; cbn [env disk trace fst snd]; exact Hw.
Qed.


(** The loop leaves the tasks before its index as they are. *)
Lemma transfer_loop_prefix (total : nat) (listFile : string) (n : nat) :
  forall (i : nat) (l : list Task) (s : State Env),
    take i (fst (fst (transfer_loop world md5_hex n i total listFile l s))) = take i l.
Proof.
  induction n as [|n IH]; intros i l s; [reflexivity|].
  assert (Hnext : forall l' s', take i (fst (fst (transfer_loop world md5_hex n (S i) total
                                                       listFile l' s'))) = take i l').
  { intros l' s'. pose proof (IH (S i) l' s') as H.
    apply (f_equal (take i)) in H. rewrite !take_take in H.
    replace (i `min` S i)%nat with i in H by lia. exact H. }
  rewrite transfer_loop_S. unfold transfer_turn.
  destruct (l !! i) as [task|]; [|reflexivity].
  destruct (Done task); rewrite bind_unfold; [apply Hnext|].
  rewrite bind_unfold.
  match goal with |- context [attempts ?w ?m ?a ?k ?t ?st] =>
    destruct (attempts w m a k t st) as [[e|] s1] end;
    cbn [fst snd]; rewrite bind_unfold; [reflexivity|].
  rewrite Hnext. apply take_alter_ge. lia.
Qed.

Lemma periodic_docs_S (i n : nat) (before after : list Task) :
  periodic_docs i (S n) before after
  = (if completed before after i && ((i + 1) mod 10 =? 0)%nat
     then [json.Encode (Some (list_after i before after))] else [])
    ++ periodic_docs (S i) n before after.
Proof.
  unfold periodic_docs. cbn [seq omap list_omap].
  destruct (completed before after i && ((i + 1) mod 10 =? 0)%nat); reflexivity.
Qed.

Lemma completed_same (l : list Task) (j : nat) : completed l l j = false.
Proof. unfold completed. destruct (l !! j) as [t|]; [destruct (Done t)|]; reflexivity. Qed.

Lemma periodic_docs_same (l : list Task) (n i : nat) : periodic_docs i n l l = [].
Proof.
  revert i. induction n as [|n IH]; intros i; [reflexivity|].
  rewrite periodic_docs_S, completed_same, IH. reflexivity.
Qed.

Lemma periodic_docs_alter (l after : list Task) (i n : nat) :
  forall j, (i < j)%nat ->
    periodic_docs j n (alter set_done i l) after = periodic_docs j n l after.
Proof.
  induction n as [|n IH]; intros j Hj; [reflexivity|].
  rewrite !periodic_docs_S, IH by lia. f_equal.
  unfold completed, list_after.
  rewrite list_lookup_alter_ne by lia. rewrite drop_alter_lt by lia. reflexivity.
Qed.

Lemma completed_done (l after : list Task) (i : nat) (task : Task) :
  l !! i = Some task -> Done task = true -> completed l after i = false.
Proof. intros L D. unfold completed. rewrite L, D. destruct (after !! i); reflexivity. Qed.

Lemma completed_none (l after : list Task) (i : nat) :
  l !! i = None -> completed l after i = false.
Proof. intros L. unfold completed. rewrite L. reflexivity. Qed.

Lemma completed_marked (l after : list Task) (i : nat) (task t' : Task) :
  l !! i = Some task -> Done task = false -> after !! i = Some t' -> Done t' = true ->
  completed l after i = true.
Proof. intros L D L' D'. unfold completed. rewrite L, D, L', D'. reflexivity. Qed.

(** The saves of the loop: one for each completed task at a position that
    is a multiple of ten, in their order, each of the list as it is right
    after that task. *)
Lemma transfer_loop_save_attempts (total : nat) (listFile : string) (n : nat) :
  forall (i : nat) (l : list Task) (s : State Env),
    Forall (fun t => SavePath t <> listFile) l ->
    exists evs,
      trace (snd (transfer_loop world md5_hex n i total listFile l s)) = trace s ++ evs /\
      Forall2 as_expected (save_attempts listFile evs)
              (periodic_docs i n l
                 (fst (fst (transfer_loop world md5_hex n i total listFile l s)))).
Proof.
  induction n as [|n IH]; intros i l s Hp.
  - exists []. cbn. rewrite app_nil_r. split; [reflexivity | constructor].
  - rewrite periodic_docs_S. rewrite transfer_loop_S. unfold transfer_turn.
    destruct (l !! i) as [task|] eqn:L.
    + destruct (Done task) eqn:D.
      * rewrite (completed_done l _ i task L D). cbn [andb app].
        rewrite bind_log.
        match goal with |- context [transfer_loop _ _ n (S i) total listFile l ?st] =>
          destruct (IH (S i) l st Hp) as (evs & E & F) end.
        exists (EvLog (Skipping i total (SavePath task)) :: evs).
        rewrite E. cbn [trace]. rewrite <- app_assoc. split; [reflexivity | exact F].
      * assert (Hpt : SavePath task <> listFile) by (eapply Forall_lookup_1 in Hp; eauto).
        rewrite bind_log, bind_unfold.
        match goal with |- context [attempts world md5_hex 5 1 task ?st] =>
          destruct (attempts_no_save 5 1 task listFile Hpt st) as (ea & Ea & Fa);
          destruct (attempts world md5_hex 5 1 task st) as [[e|] s1] end;
          cbn [fst snd trace] in *.
        -- rewrite bind_log. cbn [ret fst snd trace].
           rewrite completed_same, periodic_docs_same. cbn [andb app].
           exists (EvLog (Downloading i total) :: ea ++ [EvLog (DownloadErr e)]).
           rewrite Ea, <- !app_assoc. split; [reflexivity|].
           change (save_attempts listFile (EvLog (Downloading i total) :: ea
                                           ++ [EvLog (DownloadErr e)]))
             with (save_attempts listFile (ea ++ [EvLog (DownloadErr e)])).
           rewrite save_attempts_app, (save_attempts_none _ ea Fa). constructor.
        -- rewrite bind_unfold.
           set (marked := alter set_done i l).
           assert (Hp' : Forall (fun t => SavePath t <> listFile) marked).
           { apply Forall_alter; [exact Hp|]. intros x _ Hx. exact Hx. }
           set (s2 := snd (checkpoint world i marked listFile s1)).
           destruct (IH (S i) marked s2 Hp') as (evs & E & F).
           set (final := fst (fst (transfer_loop world md5_hex n (S i) total listFile
                                                 marked s2))) in *.
           assert (Hl : marked !! i = Some (set_done task)).
           { unfold marked. rewrite list_lookup_alter.
             destruct (decide (i = i)); [|congruence]. rewrite L. reflexivity. }
           destruct (lookup_advanced marked final i (set_done task)
                       (transfer_loop_advanced world md5_hex _ _ _ _ _ _) Hl eq_refl)
             as (t' & Lf & Df).
           rewrite (completed_marked l final i task t' L D Lf Df). cbn [andb].
           unfold marked in F. rewrite periodic_docs_alter in F by lia. fold marked in F.
           assert (Hdoc : list_after i l final = marked).
           { unfold list_after, final.
             rewrite transfer_loop_prefix.
             rewrite <- (drop_alter_lt set_done l (S i) i) by lia. fold marked.
             apply take_drop. }
           subst final s2. unfold checkpoint in *.
           destruct ((i + 1) mod 10 =? 0)%nat.
           ++ rewrite bind_unfold in *. cbn [ret snd] in *.
              destruct (saveListFile_attempt (Some marked) listFile s1)
                as (ec & a & Ec & Sc & Ac).
              exists (EvLog (Downloading i total) :: ea ++ ec ++ evs).
              rewrite E, Ec, Ea, <- !app_assoc. split; [reflexivity|].
              change (save_attempts listFile (EvLog (Downloading i total) :: ea ++ ec ++ evs))
                with (save_attempts listFile (ea ++ ec ++ evs)).
              rewrite !save_attempts_app, (save_attempts_none _ ea Fa), Sc, Hdoc.
              cbn [app]. constructor; [exact Ac | exact F].
           ++ cbn [ret snd] in *.
              exists (EvLog (Downloading i total) :: ea ++ evs).
              rewrite E, Ea, <- !app_assoc. split; [reflexivity|].
              change (save_attempts listFile (EvLog (Downloading i total) :: ea ++ evs))
                with (save_attempts listFile (ea ++ evs)).
              rewrite !save_attempts_app, (save_attempts_none _ ea Fa). exact F.
    + rewrite (completed_none l _ i L). cbn [andb app ret fst snd].
      exists []. rewrite app_nil_r. split; [reflexivity|].
      rewrite periodic_docs_same. constructor.
Qed.


(** C6, as the code has it.  No task of the list has the list file as
    its path.  Then, whatever the service and the file system answer, and
    whether the run ends without an error or gives up on a task: the saves a
    run attempts are, in this order, one for each task it
    completes at a position, counted from one, that is a multiple of ten, and
    one at its end; each of them that gets to write writes the document of the
    list as it is at that point: right after the completed task, with that
    task and the tasks before it as the run leaves them and the later ones
    untouched, and at the end the list the run returns.  The save after a
    completed task is made from the state the work on that task ends in, and
    the loop goes on from the state the save ends in, whatever its result; a
    task that cannot be downloaded ends the loop without a save of its own,
    and a task that is done is passed over without one.  The run returns the
    list and the error of the loop, not those of the last save.  A save
    creates the list file and writes the document, and nothing else: it writes
    no message, whether it fails or not. *)
Theorem saves_by_position (v : slice) (listFile : string) (s : State Env) :
  Forall (fun t => SavePath t <> listFile) (elems v) ->
  (exists evs, trace (snd (transfer world md5_hex v listFile s)) = trace s ++ evs /\
               Forall2 as_expected (save_attempts listFile evs)
                       (expected_docs v (fst (fst (transfer world md5_hex v listFile s))))) /\
  (forall (n j total : nat) (l : list Task) (t : Task) (s0 : State Env),
      l !! j = Some t -> Done t = false ->
      let work := attempts world md5_hex 5 1 t (snd (log (Downloading j total) s0)) in
      let marked := alter set_done j l in
      (fst work = None ->
       transfer_loop world md5_hex (S n) j total listFile l s0
       = transfer_loop world md5_hex n (S j) total listFile marked
           (if ((j + 1) mod 10 =? 0)%nat
            then snd (saveListFile world (Some marked) listFile (snd work))
            else snd work)) /\
      (forall e, fst work = Some e ->
                 transfer_loop world md5_hex (S n) j total listFile l s0
                 = ((l, Some e), snd (log (DownloadErr e) (snd work))))) /\
  (forall (n j total : nat) (l : list Task) (t : Task) (s0 : State Env),
      l !! j = Some t -> Done t = true ->
      transfer_loop world md5_hex (S n) j total listFile l s0
      = transfer_loop world md5_hex n (S j) total listFile l
          (snd (log (Skipping j total (SavePath t)) s0))) /\
  (forall (v0 : slice) (s0 : State Env),
      let loop := transfer_loop world md5_hex (length (elems v0)) 0 (length (elems v0))
                                listFile (elems v0)
                                (snd (log (TotalFiles (length (elems v0))) s0)) in
      let final := match v0 with None => None | Some _ => Some (fst (fst loop)) end in
      transfer world md5_hex v0 listFile s0
      = ((final, snd (fst loop)), snd (saveListFile world final listFile (snd loop)))) /\
  (forall (v0 : slice) (s0 : State Env),
      let doc := json.Encode v0 in
      let r := saveListFile world v0 listFile s0 in
      (exists e, trace (snd r) = trace s0 ++ [EvCreate listFile (Some e)] /\
                 fst r = Some ("Unable create list file: " +:+ listFile +:+ ", err = " +:+ e) /\
                 disk (snd r) = disk s0) \/
      (exists k e, trace (snd r) = trace s0 ++ [EvCreate listFile None;
                                                EvWrite listFile doc (Some (k, e))] /\
                   fst r = Some ("Marshal tasks err = " +:+ e) /\
                   disk (snd r) = <[listFile := String.substring 0 k doc]> (disk s0)) \/
      (trace (snd r) = trace s0 ++ [EvCreate listFile None; EvWrite listFile doc None] /\
       fst r = None /\
       disk (snd r) = <[listFile := doc]> (disk s0))).
Proof.
  intros Hp.
  assert (Hshape : forall (v0 : slice) (s0 : State Env),
      let loop := transfer_loop world md5_hex (length (elems v0)) 0 (length (elems v0))
                                listFile (elems v0)
                                (snd (log (TotalFiles (length (elems v0))) s0)) in
      let final := match v0 with None => None | Some _ => Some (fst (fst loop)) end in
      transfer world md5_hex v0 listFile s0
      = ((final, snd (fst loop)), snd (saveListFile world final listFile (snd loop)))).
  { intros v0 s0. cbv zeta. unfold transfer. rewrite !bind_unfold. reflexivity. }
  split; [|split; [|split; [|split; [exact Hshape|]]]].
  - rewrite (Hshape v s). cbn [fst snd].
    destruct (transfer_loop_save_attempts (length (elems v)) listFile (length (elems v)) 0
                (elems v) (snd (log (TotalFiles (length (elems v))) s)) Hp)
      as (evs & E & F).
    match goal with |- context [saveListFile world ?f listFile ?st] =>
      destruct (saveListFile_attempt f listFile st) as (ec & a & Ec & Sc & Ac) end.
    exists (EvLog (TotalFiles (length (elems v))) :: evs ++ ec).
    rewrite Ec, E. cbn [log emit snd trace]. rewrite <- !app_assoc.
    split; [reflexivity|].
    change (save_attempts listFile (EvLog (TotalFiles (length (elems v))) :: evs ++ ec))
      with (save_attempts listFile (evs ++ ec)).
    rewrite save_attempts_app, Sc. unfold expected_docs.
    apply Forall2_app; [|constructor; [exact Ac | constructor]].
    destruct v as [l|]; cbn [elems] in *; exact F.
  - intros n j total l t s0 L D work marked. split.
    + intros Hok. rewrite transfer_loop_S. unfold transfer_turn. rewrite L, D.
      rewrite bind_unfold. cbv beta. rewrite bind_unfold. fold work. rewrite Hok.
      rewrite bind_unfold. fold marked. unfold checkpoint.
      destruct ((j + 1) mod 10 =? 0)%nat; [rewrite bind_unfold|]; reflexivity.
    + intros e He. rewrite transfer_loop_S. unfold transfer_turn. rewrite L, D.
      rewrite bind_unfold. cbv beta. rewrite bind_unfold. fold work. rewrite He.
      rewrite bind_unfold. reflexivity.
  - intros n j total l t s0 L D. rewrite transfer_loop_S. unfold transfer_turn.
    rewrite L, D, bind_unfold. reflexivity.
  - intros v0 s0 doc r. unfold r, doc, saveListFile, create_file, bind, ask, ret, put_file.
    destruct (os_Create world listFile (env s0)) as [[e|] e1]; cbn [env disk trace fst snd].
    + left. exists e. auto.
    + right.
      destruct (file_Write world listFile (json.Encode v0) e1) as [[[k e]|] e2];
        cbn [env disk trace fst snd]; rewrite <- app_assoc, insert_insert_eq;
        [left; exists k, e|right]; auto.
Qed.

End CheckpointFacts.

(** ** The tree walk *)

Section WalkFacts.

Context {Env : Type} (world : World Env).

(** The task made for an entry of the folder that [task] stands for. *)
Definition entry_task (task : Task) (f : drive.File) : Task :=
  mkTask (drive.Id f) (filepath.Join [SavePath task; drive.Name f]) (drive.Md5Checksum f) false.

Definition is_file (f : drive.File) : bool := negb (isDriveFolder f).

(** The closure of the walk sorts the entries of a page: folders to the end
    of the queue, files to the end of the task list; it never fails and
    touches nothing else. *)
Lemma on_entry_run (task : Task) (f : drive.File) (taskQueue fileTasks : list Task)
      (s : State Env) :
  on_entry task f (taskQueue, fileTasks) s
  = ((None, if isDriveFolder f
            then (taskQueue ++ [entry_task task f], fileTasks)
            else (taskQueue, fileTasks ++ [entry_task task f])), s).
Proof. unfold on_entry. destruct (isDriveFolder f); reflexivity. Qed.

Lemma each_entry_on_entry (task : Task) (entries : list drive.File)
      (taskQueue fileTasks : list Task) (s : State Env) :
  each_entry (on_entry task) entries (taskQueue, fileTasks) s
  = ((None, (taskQueue ++ map (entry_task task) (List.filter isDriveFolder entries),
             fileTasks ++ map (entry_task task) (List.filter is_file entries))), s).
Proof.
  revert taskQueue fileTasks. induction entries as [|f entries IH]; intros taskQueue fileTasks.
  - simpl. rewrite !app_nil_r. reflexivity.
  - cbn [each_entry]. rewrite bind_unfold, on_entry_run. unfold is_file.
    cbn [List.filter fst snd]. destruct (isDriveFolder f); cbn [negb].
    + rewrite IH. cbn [map]. rewrite <- app_assoc. reflexivity.
    + rewrite IH. cbn [map]. rewrite <- app_assoc. reflexivity.
Qed.

Lemma listDriveFolder_from_S {A} (fuel : nat) (folderId : string)
      (handler : drive.File -> A -> M (option error * A))
      (i : nat) (pageToken : string) (a : A) :
  listDriveFolder_from world (S fuel) folderId handler i pageToken a
  = bind (log (ListingFolder i folderId)) (fun _ =>
    bind (ask (Files_List world folderId pageToken) (EvList folderId pageToken)) (fun resp =>
      match resp with
      | inl err => ret (Returned (Some ("Unable to list files, err = " +:+ err), a))
      | inr resp =>
        if (length (drive.Files resp) =? 0)%nat then
          bind (log (NoFilesFound folderId)) (fun _ => ret (Returned (None, a)))
        else
          bind (each_entry handler (drive.Files resp) a) (fun r =>
            match fst r with
            | Some err => ret (Returned (Some err, snd r))
            | None =>
              if String.eqb (drive.NextPageToken resp) "" then
                bind (log (PageFinished i)) (fun _ => ret (Returned (None, snd r)))
              else
                bind (log (NextPage i (drive.NextPageToken resp))) (fun _ =>
                  listDriveFolder_from world fuel folderId handler (S i)
                                       (drive.NextPageToken resp) (snd r))
            end)
      end)).
Proof. reflexivity. Qed.

Lemma walk_loop_S (fuel : nat) (task : Task) (taskQueue fileTasks : list Task) :
  walk_loop world (S fuel) (task :: taskQueue) fileTasks
  = bind (ask (Files_Get world (FileId task)) (EvGet (FileId task))) (fun r =>
      match r with
      | inl err =>
        ret (Returned (None, Some ("get fileId: " +:+ FileId task +:+ ", err = " +:+ err)))
      | inr currFile =>
        if isDriveFolder currFile then
          bind (log (ListFolder (drive.Id currFile) (drive.Name currFile))) (fun _ =>
          bind (listDriveFolder world fuel (drive.Id currFile) (on_entry task)
                                (taskQueue, fileTasks)) (fun l =>
            match l with
            | OutOfFuel => ret OutOfFuel
            | Returned (Some err, _) =>
              ret (Returned (None, Some ("list drive folder: " +:+ drive.Id currFile +:+ " ["
                                         +:+ drive.Name currFile +:+ "], err = " +:+ err)))
            | Returned (None, (taskQueue, fileTasks)) =>
              walk_loop world fuel taskQueue fileTasks
            end))
        else
          walk_loop world fuel taskQueue
            (fileTasks ++ [mkTask (drive.Id currFile)
                                  (filepath.Join [SavePath task; drive.Name currFile])
                                  (drive.Md5Checksum currFile) false])
      end).
Proof. reflexivity. Qed.

(** A request to the service that was answered by an error. *)
Definition failed_request (e : Event) : Prop :=
  match e with
  | EvGet _ (inl _) | EvList _ _ (inl _) => True
  | _ => False
  end.

Definition answered (e : Event) : Prop := ~ failed_request e.

(** The listing of a folder returns an error exactly when a request
    failed, and that request is then its last. *)
Lemma listDriveFolder_from_failure (task : Task) (fuel : nat) (folderId : string)
      (i : nat) (pageToken : string) (vars : list Task * list Task) (s : State Env) :
  exists evs,
    trace (snd (listDriveFolder_from world fuel folderId (on_entry task) i pageToken vars s))
    = trace s ++ evs /\
    match fst (listDriveFolder_from world fuel folderId (on_entry task) i pageToken vars s) with
    | Returned (Some _, _) => Exists failed_request evs
    | _ => Forall answered evs
    end.
Proof.
  revert i pageToken vars s. induction fuel as [|fuel IH]; intros i pageToken vars s.
  - exists []. cbn. rewrite app_nil_r. split; [reflexivity | constructor].
  - rewrite listDriveFolder_from_S. rewrite bind_unfold. cbv beta. rewrite bind_unfold.
    rewrite !ask_run. cbn [log emit fst snd env disk trace].
    destruct (Files_List world folderId pageToken (env s)) as [[err|resp] e1]; cbn [fst snd].
    + eexists. cbn [ret fst snd trace]. rewrite <- app_assoc. split; [reflexivity|].
      apply Exists_cons_tl, Exists_cons_hd. exact I.
    + destruct (length (drive.Files resp) =? 0)%nat.
      * rewrite bind_unfold. eexists. cbn [ret log emit fst snd trace].
        rewrite <- !app_assoc. split; [reflexivity|].
        repeat constructor; intros F; exact F.
      * destruct vars as [q ft]. rewrite bind_unfold, each_entry_on_entry. cbn [fst snd].
        destruct (String.eqb (drive.NextPageToken resp) "").
        -- rewrite bind_unfold. eexists. cbn [ret log emit fst snd trace].
           rewrite <- !app_assoc. split; [reflexivity|].
           repeat constructor; intros F; exact F.
        -- rewrite bind_unfold.
           match goal with |- context [listDriveFolder_from ?w fuel ?f ?h ?j ?t ?v ?st] =>
             destruct (IH j t v st) as (evs & E & H);
             destruct (listDriveFolder_from w fuel f h j t v st) as [[[[err|] v']|] s2]
           end; cbn [fst snd] in *;
             (eexists; rewrite E; cbn [log emit snd trace]; rewrite <- !app_assoc;
              split; [reflexivity|]).
           ++ do 3 apply Exists_cons_tl. exact H.
           ++ repeat (constructor; [intros F; exact F|]). exact H.
           ++ repeat (constructor; [intros F; exact F|]). exact H.
Qed.

(** The walk returns an error, and then no list at all, exactly when a
    request failed; without an error it returns a list. *)
Lemma walk_loop_failure (fuel : nat) (taskQueue fileTasks : list Task) (s : State Env) :
  exists evs,
    trace (snd (walk_loop world fuel taskQueue fileTasks s)) = trace s ++ evs /\
    match fst (walk_loop world fuel taskQueue fileTasks s) with
    | Returned (v, Some _) => v = None /\ Exists failed_request evs
    | Returned (v, None) => v <> None /\ Forall answered evs
    | OutOfFuel => Forall answered evs
    end.
Proof.
  revert taskQueue fileTasks s. induction fuel as [|fuel IH]; intros taskQueue fileTasks s.
  - exists []. cbn. rewrite app_nil_r. split; [reflexivity | constructor].
  - destruct taskQueue as [|task taskQueue].
    + exists []. cbn. rewrite app_nil_r. split; [reflexivity|]. split; [discriminate|constructor].
    + rewrite walk_loop_S, bind_unfold. rewrite !ask_run.
      destruct (Files_Get world (FileId task) (env s)) as [[err|currFile] e1]; cbn [fst snd].
      * eexists. cbn [ret fst snd trace]. split; [reflexivity|]. split; [reflexivity|].
        apply Exists_cons_hd. exact I.
      * destruct (isDriveFolder currFile).
        -- rewrite bind_unfold. cbv beta. rewrite bind_unfold. unfold listDriveFolder.
           match goal with |- context [listDriveFolder_from ?w fuel ?f ?h ?j ?t ?v ?st] =>
             destruct (listDriveFolder_from_failure task fuel f j t v st) as (e2 & E2 & H2);
             destruct (listDriveFolder_from w fuel f h j t v st) as [[[[err|] [q' ft']]|] s2]
           end; cbn [fst snd] in *.
           ++ eexists. cbn [ret fst snd]. rewrite E2. cbn [log emit snd trace].
              rewrite <- !app_assoc. split; [reflexivity|]. split; [reflexivity|].
              do 2 apply Exists_cons_tl. exact H2.
           ++ destruct (IH q' ft' s2) as (e3 & E3 & H3).
              destruct (walk_loop world fuel q' ft' s2) as [[[v [err|]]|] s3];
                cbn [fst snd] in *;
                (eexists; rewrite E3, E2; cbn [log emit snd trace]; rewrite <- !app_assoc;
                 split; [reflexivity|]).
              ** destruct H3 as [Hv H3]. split; [exact Hv|].
                 do 2 apply Exists_cons_tl. apply Exists_app. right. exact H3.
              ** destruct H3 as [Hv H3]. split; [exact Hv|].
                 repeat (constructor; [intros F; exact F|]). apply Forall_app. split; assumption.
              ** repeat (constructor; [intros F; exact F|]). apply Forall_app. split; assumption.
           ++ eexists. cbn [ret fst snd]. rewrite E2. cbn [log emit snd trace].
              rewrite <- !app_assoc. split; [reflexivity|].
              repeat (constructor; [intros F; exact F|]). exact H2.
        -- match goal with |- context [walk_loop ?w fuel ?q ?ft ?st] =>
             destruct (IH q ft st) as (e3 & E3 & H3);
             destruct (walk_loop w fuel q ft st) as [[[v [err|]]|] s3]
           end; cbn [fst snd] in *;
             (eexists; rewrite E3; cbn [snd trace]; rewrite <- !app_assoc;
              split; [reflexivity|]).
           ** destruct H3 as [Hv H3]. split; [exact Hv|]. apply Exists_cons_tl. exact H3.
           ** destruct H3 as [Hv H3]. split; [exact Hv|].
              constructor; [intros F; exact F | exact H3].
           ** constructor; [intros F; exact F | exact H3].
Qed.

(** C7.  Whatever the fuel: when the trace of the walk holds a request
    that the service answered by an error (the metadata of a queued entry, or
    a page of a listing), the walk has returned an error and the nil list,
    none of the tasks gathered so far.  And a walk that returns an error
    returns the nil list with it. *)
Theorem walk_fails_as_a_whole (fuel : nat) (rootFolder : Task) (s : State Env)
        (evs : list Event) :
  trace (snd (listDriveFolderFiles world fuel rootFolder s)) = trace s ++ evs ->
  Exists failed_request evs ->
  (exists err, fst (listDriveFolderFiles world fuel rootFolder s) = Returned (None, Some err)) /\
  (forall v err, fst (listDriveFolderFiles world fuel rootFolder s) = Returned (v, Some err) ->
                 v = None).
Proof.
  intros E F. unfold listDriveFolderFiles in *.
  destruct (walk_loop_failure fuel [rootFolder] [] s) as (evs' & E' & H).
  rewrite E in E'. apply app_inv_head in E'. subst evs'.
  assert (Hno : ~ Forall answered evs).
  { intros Ha. apply Exists_exists in F. destruct F as (e & He & Hf).
    eapply Forall_forall in Ha; eauto. }
  destruct (fst (walk_loop world fuel [rootFolder] [] s)) as [[v [err|]]|].
  - destruct H as [-> _]. split; [eauto|]. intros v' err' Hr. inversion Hr; reflexivity.
  - destruct H as [_ H]. contradiction.
  - contradiction.
Qed.

(** *** The pages of a listing *)

Definition is_list (e : Event) : bool :=
  match e with EvList _ _ _ => true | _ => false end.

(** The page requests among the events. *)
Definition list_requests (evs : list Event) : list Event := List.filter is_list evs.



Lemma list_requests_app (l1 l2 : list Event) :
  list_requests (l1 ++ l2) = list_requests l1 ++ list_requests l2.
Proof. apply List.filter_app. Qed.

Lemma length_zero_nil {A} (l : list A) : (length l =? 0)%nat = true <-> l = [].
Proof. destruct l; simpl; split; intros H; try reflexivity; discriminate. Qed.



(** *** A root that is a single file *)

Lemma substring_all (str : string) : String.substring 0 (String.length str) str = str.
Proof. induction str as [|c str IH]; simpl; [reflexivity|]. rewrite IH. reflexivity. Qed.

(** A save of the list leaves the other files as they are. *)
Lemma saveListFile_other_file (v : slice) (listFile path : string) (s : State Env) :
  path <> listFile ->
  disk (snd (saveListFile world v listFile s)) !! path = disk s !! path.
Proof.
  intros Hne. unfold saveListFile, create_file, bind, ask, ret, put_file.
  destruct (os_Create world listFile (env s)) as [[err|] e1]; cbn [env disk trace snd];
    [reflexivity|].
  destruct (file_Write world listFile (json.Encode v) e1) as [[[k err]|] e2];
    cbn [snd disk]; rewrite !lookup_insert_ne by congruence; reflexivity.
Qed.

(** The walk from a root that is not a folder: one request, one task. *)
Lemma walk_single_file (fuel : nat) (rootFolder : Task) (f : drive.File) (s : State Env) :
  fst (Files_Get world (FileId rootFolder) (env s)) = inr f ->
  isDriveFolder f = false ->
  listDriveFolderFiles world (S (S fuel)) rootFolder s
  = (Returned (Some [entry_task rootFolder f], None),
     mkState (snd (Files_Get world (FileId rootFolder) (env s))) (disk s)
             (trace s ++ [EvGet (FileId rootFolder) (inr f)])).
Proof.
  intros Hg Hf. unfold listDriveFolderFiles. rewrite walk_loop_S, bind_unfold. rewrite !ask_run.
  rewrite Hg. cbn [fst snd]. rewrite Hf. reflexivity.
Qed.

(** The download of a task whose local file does not exist, when the
    service sends the content and the file is written in full. *)
Lemma downloadDriveFile_fetch (md5_hex : string -> string) (task : Task) (body : string)
      (s : State Env) :
  disk s !! SavePath task = None ->
  (forall e, fst (Files_Download world (FileId task) e) = inr body) ->
  (forall p e, fst (os_Create world p e) = None) ->
  (forall p b e, fst (io_Copy world p b e) = (String.length b, None)) ->
  fst (downloadDriveFile world md5_hex task s) = None /\
  forall p, disk (snd (downloadDriveFile world md5_hex task s)) !! p
            = if decide (p = SavePath task) then Some body else disk s !! p.
Proof.
  intros Hd Hdl Hc Hcp.
  unfold downloadDriveFile, getFileMd5, saveFile, create_file.
  do 2 mstep. rewrite Hd. mstep. rewrite andb_false_r. cbn [andb].
  repeat first [ mstep | rewrite Hdl | rewrite Hc | rewrite Hcp | progress cbn [fst snd] ].
  cbn [ret fst snd disk].
  split; [reflexivity|]. intros p. rewrite substring_all.
  destruct (decide (p = SavePath task)) as [->|Hne].
  - apply lookup_insert_eq.
  - rewrite !lookup_insert_ne by congruence. reflexivity.
Qed.

End WalkFacts.



(** ** The walk of a remote tree *)

Section TreeFacts.

Context {Env : Type} (world : World Env).

Definition fsize (q : list item) : nat := list_sum (map (fun x => size (snd x)) q).

(** Induction on a tree, with the property known of all the children. *)
Fixpoint Remote_Forall_ind (P : Remote -> Prop)
         (step : forall f cs, Forall P cs -> P (Node f cs)) (t : Remote) : P t :=
  match t with
  | Node f cs =>
    step f cs ((fix all (l : list Remote) : Forall P l :=
                  match l with
                  | [] => @List.Forall_nil _ P
                  | c :: l' => @List.Forall_cons _ P c l' (Remote_Forall_ind P step c) (all l')
                  end) cs)
  end.

(** A task of the queue stands for an item. *)
Definition same_place (task : Task) (x : item) : Prop :=
  FileId task = drive.Id (file_of (snd x)) /\ SavePath task = fst x.

(** The listing of a folder whose children are served in pages, none of
    them without entries before the last, hands all of them to the closure,
    given enough fuel. *)
Lemma listing_complete (folderId pageToken : string) (entries : list drive.File) :
  paged_without_gap world folderId pageToken entries ->
  exists f0, forall fuel, (f0 <= fuel)%nat ->
    forall (task : Task) (i : nat) (q ft : list Task) (s : State Env),
    exists s',
      listDriveFolder_from world fuel folderId (on_entry task) i pageToken (q, ft) s
      = (Returned (None, (q ++ map (entry_task task) (List.filter isDriveFolder entries),
                          ft ++ map (entry_task task) (List.filter is_file entries))), s').
Proof.
  induction 1 as [pageToken resp Hl Hend | pageToken resp rest Hl Hne Htok _ IH].
  - exists 1%nat. intros [|fuel] Hf task i q ft s; [lia|].
    rewrite listDriveFolder_from_S. do 2 mstep. rewrite Hl.
    destruct (length (drive.Files resp) =? 0)%nat eqn:Z.
    + apply length_zero_nil in Z. rewrite Z. cbn [List.filter map]. rewrite !app_nil_r.
      mstep. eexists. reflexivity.
    + rewrite bind_unfold, each_entry_on_entry. cbn [fst snd]. rewrite Hend. cbn [String.eqb].
      mstep. eexists. reflexivity.
  - destruct IH as [f0 IH]. exists (S f0). intros [|fuel] Hf task i q ft s; [lia|].
    rewrite listDriveFolder_from_S. do 2 mstep. rewrite Hl.
    destruct (length (drive.Files resp) =? 0)%nat eqn:Z;
      [apply length_zero_nil in Z; contradiction|].
    rewrite bind_unfold, each_entry_on_entry. cbn [fst snd].
    apply String.eqb_neq in Htok. rewrite Htok. mstep.
    match goal with |- context [listDriveFolder_from world fuel ?f ?h ?j ?t (?q', ?ft') ?st] =>
      destruct (IH fuel ltac:(lia) task j q' ft' st) as [s' Hs']
    end.
    exists s'. rewrite Hs'. rewrite !List.filter_app, !map_app, !app_assoc. reflexivity.
Qed.

Lemma size_pos (t : Remote) : (1 <= size t)%nat.
Proof. destruct t; simpl; lia. Qed.

Lemma fsize_app (q1 q2 : list item) : fsize (q1 ++ q2) = (fsize q1 + fsize q2)%nat.
Proof. unfold fsize. rewrite map_app, list_sum_app. reflexivity. Qed.

Lemma fsize_next (x : item) : (S (fsize (next x)) <= size (snd x))%nat.
Proof.
  destruct x as [p [f cs]]. unfold next, is_folder. cbn [fst snd file_of children_of size].
  destruct (isDriveFolder f); [|unfold fsize; simpl; lia].
  apply le_n_S.
  unfold fsize. rewrite map_map. cbn [snd].
  induction cs as [|c cs IH]; [simpl; lia|].
  cbn [List.filter map]. destruct (isDriveFolder (file_of c)); simpl in *; lia.
Qed.

Lemma serves_children (t c : Remote) :
  serves_without_gap world t -> In c (children_of t) -> serves_without_gap world c.
Proof.
  unfold serves_without_gap. destruct t as [f cs]. cbn [nodes children_of]. intros H Hc.
  apply Forall_cons in H. destruct H as [_ H].
  rewrite Forall_forall in *. intros n Hn. apply H.
  apply list_elem_of_In. apply in_flat_map. exists c. split; [exact Hc|].
  apply list_elem_of_In. exact Hn.
Qed.

Lemma serves_root (t : Remote) : serves_without_gap world t -> served_without_gap world t.
Proof. unfold serves_without_gap. destruct t as [f cs]. cbn [nodes]. intros H. apply Forall_cons in H. tauto. Qed.

Lemma serves_next (x : item) :
  serves_without_gap world (snd x) -> Forall (fun y => serves_without_gap world (snd y)) (next x).
Proof.
  intros H. unfold next. destruct (is_folder (snd x)); [|constructor].
  apply Forall_forall. intros y Hy. apply list_elem_of_In, in_map_iff in Hy.
  destruct Hy as (c & <- & Hc). cbn [snd]. apply List.filter_In in Hc.
  eapply serves_children; [exact H | tauto].
Qed.

(** What the closure makes of the children of a folder is what [visit]
    and [next] say. *)
Lemma files_of_children (task : Task) (p : string) (cs : list Remote) :
  SavePath task = p ->
  map (entry_task task) (List.filter is_file (map file_of cs))
  = map (fun c => task_at p (file_of c)) (List.filter (fun c => negb (is_folder c)) cs).
Proof.
  intros <-. induction cs as [|c cs IH]; [reflexivity|].
  cbn [map List.filter]. unfold is_file at 1, is_folder at 1.
  destruct (isDriveFolder (file_of c)); cbn [negb map]; rewrite IH; reflexivity.
Qed.

Lemma folders_of_children (task : Task) (p : string) (cs : list Remote) :
  SavePath task = p ->
  Forall2 same_place
          (map (entry_task task) (List.filter isDriveFolder (map file_of cs)))
          (map (fun c => (filepath.Join [p; drive.Name (file_of c)], c))
               (List.filter is_folder cs)).
Proof.
  intros <-. induction cs as [|c cs IH]; [constructor|].
  cbn [map List.filter]. unfold is_folder at 1.
  destruct (isDriveFolder (file_of c)); cbn [map]; [|exact IH].
  constructor; [|exact IH]. split; reflexivity.
Qed.

(** The walk follows the queue order of the tree. *)
Lemma walk_loop_queue_order (n : nat) :
  forall (q : list item) (taskQueue : list Task),
    (fsize q <= n)%nat ->
    Forall (fun x => serves_without_gap world (snd x)) q ->
    Forall2 same_place taskQueue q ->
    exists f0, forall fuel, (f0 <= fuel)%nat ->
      forall (fileTasks : list Task) (s : State Env),
      exists s',
        walk_loop world fuel taskQueue fileTasks s
        = (Returned (Some (fileTasks ++ queue_order n q), None), s').
Proof.
  induction n as [|n IH]; intros q taskQueue Hsize Hserved Hq.
  - destruct q as [|x q].
    + inversion Hq; subst. exists 1%nat. intros [|fuel] Hf fileTasks s; [lia|].
      eexists. cbn. rewrite app_nil_r. reflexivity.
    + exfalso. unfold fsize in Hsize. simpl in Hsize.
      pose proof (size_pos (snd x)). lia.
  - destruct q as [|x q].
    + inversion Hq; subst. exists 1%nat. intros [|fuel] Hf fileTasks s; [lia|].
      eexists. cbn. rewrite app_nil_r. reflexivity.
    + inversion Hq as [|task x' taskQueue' q' [Hid Hpath] Hq']; subst.
      apply Forall_cons in Hserved. destruct Hserved as [Hx Hrest].
      destruct (serves_root _ Hx) as [Hget Hlist].
      assert (Hsize' : (fsize (q ++ next x) <= n)%nat).
      { rewrite fsize_app. pose proof (fsize_next x) as Hn.
        assert (Hc : fsize (x :: q) = (size (snd x) + fsize q)%nat) by reflexivity.
        lia. }
      assert (Hserved' : Forall (fun y => serves_without_gap world (snd y)) (q ++ next x)).
      { apply Forall_app. split; [exact Hrest | apply serves_next; exact Hx]. }
      destruct x as [p [f cs]]. cbn [fst snd file_of children_of] in *.
      unfold is_folder in Hlist. cbn [file_of] in Hlist.
      assert (Hvisit : visit (p, Node f cs)
                = if isDriveFolder f
                  then map (fun c => task_at p (file_of c))
                           (List.filter (fun c => negb (is_folder c)) cs)
                  else [task_at p f]) by reflexivity.
      assert (Hnext : next (p, Node f cs)
                = if isDriveFolder f
                  then map (fun c => (filepath.Join [p; drive.Name (file_of c)], c))
                           (List.filter is_folder cs)
                  else []) by reflexivity.
      cbn [queue_order]. rewrite Hvisit. rewrite Hnext in *. clear Hvisit Hnext.
      destruct (isDriveFolder f) eqn:Hf.
      * destruct (listing_complete _ _ _ (Hlist eq_refl)) as [f1 H1].
        destruct (IH (q ++ map (fun c => (filepath.Join [p; drive.Name (file_of c)], c))
                                 (List.filter is_folder cs))
                     (taskQueue' ++ map (entry_task task)
                                        (List.filter isDriveFolder (map file_of cs)))
                     Hsize' Hserved') as [f2 H2].
        { apply Forall2_app; [exact Hq'|]. apply folders_of_children. exact Hpath. }
        exists (S (Nat.max f1 f2)). intros [|fuel] Hfuel fileTasks s; [lia|].
        rewrite walk_loop_S. mstep. rewrite Hid, Hget. rewrite Hf. mstep.
        rewrite bind_unfold. unfold listDriveFolder.
        match goal with |- context [listDriveFolder_from world fuel ?fo ?h ?j ?t (?q', ?ft') ?st] =>
          destruct (H1 fuel ltac:(lia) task j q' ft' st) as [s1 Hs1]
        end.
        rewrite Hs1. cbn [fst snd].
        match goal with |- context [walk_loop world fuel ?q' ?ft' ?st] =>
          destruct (H2 fuel ltac:(lia) ft' st) as [s2 Hs2]
        end.
        exists s2. rewrite Hs2. rewrite (files_of_children task p cs Hpath).
        rewrite <- app_assoc. reflexivity.
      * rewrite app_nil_r in *.
        destruct (IH q taskQueue' Hsize' Hserved' Hq') as [f2 H2].
        exists (S f2). intros [|fuel] Hfuel fileTasks s; [lia|].
        rewrite walk_loop_S. mstep. rewrite Hid, Hget. rewrite Hf.
        match goal with |- context [walk_loop world fuel ?q' ?ft' ?st] =>
          destruct (H2 fuel ltac:(lia) ft' st) as [s2 Hs2]
        end.
        exists s2. rewrite Hs2. rewrite Hpath. rewrite <- app_assoc. reflexivity.
Qed.

(** *** The queue order is the level order, and lists every file once *)

Lemma queue_order_nil (n : nat) : queue_order n [] = [].
Proof. destruct n; reflexivity. Qed.

Lemma level_order_nil (h : nat) : level_order h [] = [].
Proof. induction h as [|h IH]; [reflexivity|]. cbn. exact IH. Qed.

Lemma fsize_cons (x : item) (q : list item) : fsize (x :: q) = (size (snd x) + fsize q)%nat.
Proof. reflexivity. Qed.

Lemma fsize_zero (q : list item) : (fsize q <= 0)%nat -> q = [].
Proof.
  destruct q as [|x q]; [reflexivity|]. rewrite fsize_cons.
  pose proof (size_pos (snd x)). lia.
Qed.

(** Enough visits are as good as more. *)
Lemma queue_order_enough (n : nat) :
  forall (m : nat) (q : list item),
    (fsize q <= n)%nat -> (fsize q <= m)%nat -> queue_order n q = queue_order m q.
Proof.
  induction n as [|n IH]; intros m q Hn Hm.
  - apply fsize_zero in Hn. subst q. rewrite !queue_order_nil. reflexivity.
  - destruct q as [|x q]; [rewrite !queue_order_nil; reflexivity|].
    rewrite fsize_cons in *. pose proof (size_pos (snd x)). pose proof (fsize_next x).
    destruct m as [|m]; [lia|]. cbn [queue_order]. f_equal.
    apply IH; rewrite fsize_app; lia.
Qed.

(** The items in front of the queue are visited in their order, and their
    folders wait behind the rest of the queue. *)
Lemma queue_order_front (q : list item) :
  forall (r : list item) (n n' : nat),
    (fsize (q ++ r) <= n)%nat ->
    (fsize (r ++ List.flat_map next q) <= n')%nat ->
    queue_order n (q ++ r)
    = List.flat_map visit q ++ queue_order n' (r ++ List.flat_map next q).
Proof.
  induction q as [|x q IH]; intros r n n' Hn Hn'.
  - cbn [List.flat_map app] in *. rewrite app_nil_r in *. apply queue_order_enough; assumption.
  - cbn [List.flat_map app] in *. rewrite fsize_cons in Hn.
    pose proof (size_pos (snd x)). pose proof (fsize_next x).
    destruct n as [|n]; [lia|]. cbn [queue_order].
    rewrite <- (app_assoc (visit x)). f_equal.
    rewrite <- (app_assoc q r (next x)).
    rewrite (IH (r ++ next x) n n').
    + rewrite <- app_assoc. reflexivity.
    + rewrite !fsize_app in *. lia.
    + rewrite <- app_assoc. exact Hn'.
Qed.

Lemma height_next (x : item) :
  Forall (fun y => (S (height (snd y)) <= height (snd x))%nat) (next x).
Proof.
  destruct x as [p [f cs]]. unfold next, is_folder. cbn [fst snd file_of children_of height].
  destruct (isDriveFolder f); [|constructor].
  apply Forall_forall. intros y Hy. apply list_elem_of_In, in_map_iff in Hy.
  destruct Hy as (c & <- & Hc). apply List.filter_In in Hc. destruct Hc as [Hc _].
  cbn [snd]. apply le_n_S.
  assert (Hmax : Forall (fun k => (k <= list_max (map height cs))%nat) (map height cs)).
  { apply list_max_le. lia. }
  rewrite Forall_forall in Hmax. apply Hmax. apply list_elem_of_In, in_map. exact Hc.
Qed.

Lemma queue_order_level_order (h : nat) :
  forall (q : list item) (n : nat),
    (fsize q <= n)%nat ->
    Forall (fun x => (height (snd x) <= h)%nat) q ->
    queue_order n q = level_order h q.
Proof.
  induction h as [|h IH]; intros q n Hn Hh.
  - destruct q as [|x q]; [apply queue_order_nil|].
    apply Forall_cons in Hh. destruct Hh as [Hx _].
    destruct (snd x); simpl in Hx; lia.
  - cbn [level_order].
    rewrite <- (app_nil_r q) at 1.
    rewrite (queue_order_front q [] n (fsize (List.flat_map next q)));
      [|rewrite app_nil_r; exact Hn|cbn [app]; lia].
    cbn [app]. f_equal. apply IH; [lia|].
    apply Forall_forall. intros y Hy. apply list_elem_of_In, in_flat_map in Hy.
    destruct Hy as (x & Hx & Hy).
    rewrite Forall_forall in Hh. specialize (Hh x (proj2 (list_elem_of_In _ _) Hx)).
    pose proof (height_next x) as Hn'. rewrite Forall_forall in Hn'.
    specialize (Hn' y (proj2 (list_elem_of_In _ _) Hy)). cbn beta in Hn'. lia.
Qed.

(** The files reachable from an item are those it is visited for and those
    reachable from its folders. *)
Lemma item_tasks_split (x : item) :
  Permutation (item_tasks x) (visit x ++ List.flat_map item_tasks (next x)).
Proof.
  destruct x as [p [f cs]]. unfold item_tasks, visit, next, is_folder.
  cbn [fst snd file_of children_of].
  destruct (isDriveFolder f); [|cbn; reflexivity].
  cbn [under]. induction cs as [|c cs IH]; [reflexivity|].
  cbn [List.flat_map List.filter map].
  change (is_folder c) with (isDriveFolder (file_of c)).
  destruct (isDriveFolder (file_of c)) eqn:Hc; cbn [negb map List.flat_map].
  - cbn [fst snd]. rewrite Hc, IH. rewrite !app_assoc. apply Permutation_app_tail.
    apply Permutation_app_comm.
  - cbn [app]. apply perm_skip. exact IH.
Qed.

Lemma queue_order_every_file (n : nat) :
  forall q : list item,
    (fsize q <= n)%nat ->
    Permutation (queue_order n q) (List.flat_map item_tasks q).
Proof.
  induction n as [|n IH]; intros q Hn.
  - apply fsize_zero in Hn. subst q. reflexivity.
  - destruct q as [|x q]; [reflexivity|].
    rewrite fsize_cons in Hn. pose proof (fsize_next x).
    cbn [queue_order List.flat_map].
    rewrite (IH (q ++ next x)) by (rewrite fsize_app; lia).
    rewrite flat_map_app, (item_tasks_split x).
    rewrite <- !app_assoc. apply Permutation_app_head. apply Permutation_app_comm.
Qed.

Lemma under_not_done (t : Remote) :
  forall p, Forall (fun task => Done task = false) (under p t).
Proof.
  induction t as [f cs IH] using Remote_Forall_ind. intros p. cbn [under].
  induction IH as [|c cs Hc _ IHcs]; cbn [List.flat_map]; [constructor|].
  apply Forall_app. split; [|exact IHcs].
  destruct (isDriveFolder (file_of c)); [apply Hc|repeat constructor].
Qed.

(** A tree that is served without a gap is served. *)
Lemma paged_without_gap_paged (folderId pageToken : string) (entries : list drive.File) :
  paged_without_gap world folderId pageToken entries -> paged world folderId pageToken entries.
Proof.
  induction 1 as [pageToken resp Hl Hend | pageToken resp rest Hl Hne Htok _ IH].
  - apply paged_last; assumption.
  - apply paged_more; assumption.
Qed.

Lemma serves_without_gap_serves (t : Remote) :
  serves_without_gap world t -> serves world t.
Proof.
  unfold serves_without_gap, serves. intros H. eapply Forall_impl; [exact H|].
  intros n [Hget Hlist]. split; [exact Hget|].
  intros Hf. apply paged_without_gap_paged, Hlist, Hf.
Qed.

(** C1, as the code has it.  The world serves the tree [t]: the metadata
    of each of its entries, and the children of each of its folders in pages,
    of which none that carries a continuation token is without entries.  Then,
    with enough fuel, the walk from the identifier of the root of [t] and the
    destination [dst] ends, from every state, without an error, and returns
    the tasks of the files of [t] level by level: first the files directly in
    the root (for a root that is a file, its own task), in the order of the
    listing, then those of the folders of the root, folder after folder, and so
    on down.  Each task is not done and has the path joined from the local path
    of the folder the file is in and the name of the file; folders have no
    task.  That list holds the task of every file reachable from the root
    once: it is a permutation of the tasks gathered folder by folder in
    depth. *)
Theorem walk_exhaustive (t : Remote) (dst : string) :
  serves_without_gap world t ->
  (exists f0, forall fuel, (f0 <= fuel)%nat ->
     forall s : State Env, exists s',
       listDriveFolderFiles world fuel (mkTask (drive.Id (file_of t)) dst "" false) s
       = (Returned (Some (level_order (height t) [(dst, t)]), None), s')) /\
  Permutation (level_order (height t) [(dst, t)]) (item_tasks (dst, t)) /\
  Forall (fun task => Done task = false) (level_order (height t) [(dst, t)]).
Proof.
  intros Hs.
  assert (Hq : queue_order (size t) [(dst, t)] = level_order (height t) [(dst, t)]).
  { apply queue_order_level_order.
    - rewrite fsize_cons. cbn [snd]. unfold fsize. simpl. lia.
    - repeat constructor. }
  assert (Hp : Permutation (queue_order (size t) [(dst, t)]) (item_tasks (dst, t))).
  { rewrite queue_order_every_file.
    - cbn [List.flat_map]. rewrite app_nil_r. reflexivity.
    - rewrite fsize_cons. cbn [snd]. unfold fsize. simpl. lia. }
  rewrite <- Hq. split; [|split; [exact Hp|]].
  - destruct (walk_loop_queue_order (size t) [(dst, t)]
                [mkTask (drive.Id (file_of t)) dst "" false]) as [f0 H].
    + rewrite fsize_cons. cbn [snd]. unfold fsize. simpl. lia.
    + repeat constructor. exact Hs.
    + repeat constructor.
    + exists f0. intros fuel Hf s. destruct (H fuel Hf [] s) as [s' Hs'].
      exists s'. exact Hs'.
  - eapply Permutation_Forall; [symmetry; exact Hp|].
    unfold item_tasks. cbn [fst snd]. destruct (is_folder t).
    + apply under_not_done.
    + repeat constructor.
Qed.

End TreeFacts.



(** ** Cleaned paths *)

Section PathFacts.

Fixpoint no_slash (str : string) : Prop :=
  match str with
  | EmptyString => True
  | String c rest => c <> "/"%char /\ no_slash rest
  end.

(** An element of a cleaned path. *)
Definition proper (e : string) : Prop := no_slash e /\ e <> "" /\ e <> ".".

Lemma no_slash_snoc (cur : string) (c : ascii) :
  no_slash cur -> c <> "/"%char -> no_slash (cur ++ String c "").
Proof. induction cur as [|d cur IH]; simpl; intuition. Qed.

Lemma split_no_slash (p cur : string) :
  no_slash cur -> Forall no_slash (filepath.split cur p).
Proof.
  revert cur. induction p as [|c p IH]; intros cur H; simpl.
  - repeat constructor. exact H.
  - destruct (Ascii.eqb c "/") eqn:E.
    + constructor; [exact H|]. apply IH. exact I.
    + apply IH. apply no_slash_snoc; [exact H|]. apply Ascii.eqb_neq. exact E.
Qed.

Lemma clean_elems_proper (rooted : bool) (es out : list string) (dotdot : nat) :
  Forall no_slash es -> Forall proper out ->
  Forall proper (filepath.clean_elems rooted out dotdot es).
Proof.
  intros Hes. revert out dotdot. induction Hes as [|e es He _ IH]; intros out dotdot Hout.
  - simpl. apply Forall_rev. exact Hout.
  - cbn [filepath.clean_elems].
    destruct (String.eqb e "" || String.eqb e ".") eqn:E1; [apply IH; exact Hout|].
    apply orb_false_iff in E1. destruct E1 as [E1 E2].
    apply String.eqb_neq in E1. apply String.eqb_neq in E2.
    assert (Hp : proper e) by (repeat split; assumption).
    destruct (String.eqb e "..").
    + destruct (dotdot <? length out)%nat.
      * apply IH. destruct out; [constructor|]. simpl. inversion Hout; assumption.
      * destruct rooted; apply IH; [exact Hout|]. constructor; assumption.
    + apply IH. constructor; assumption.
Qed.

Lemma join_proper (l : list string) :
  Forall proper l -> strings.Join l "/" <> "./out".
Proof.
  intros H. destruct H as [|e l He Hl]; [discriminate|].
  destruct He as (Hs & Hn & Hd).
  assert (Hcase : forall r : string, e +:+ r = "./out" -> e = "./out").
  { intros r Hr. destruct e as [|c e]; [contradiction|].
    simpl in Hr. inversion Hr; subst c.
    destruct e as [|c e]; [contradiction|].
    simpl in H1. inversion H1; subst c. simpl in Hs. destruct Hs as [_ [Hs _]]. contradiction. }
  destruct l as [|e' l'].
  - simpl. intros Heq. subst e. simpl in Hs. intuition.
  - cbn [strings.Join]. intros Heq. apply Hcase in Heq. subst e. simpl in Hs. intuition.
Qed.

(** Whatever the name, the path joined from [./out] and the name is not
    [./out]. *)
Lemma Join_dot_out (name : string) : filepath.Join ["./out"; name] <> "./out".
Proof.
  cbn [filepath.Join String.eqb Ascii.eqb Bool.eqb]. cbn [strings.Join].
  change ("./out" +:+ "/" +:+ name) with (String "." (String "/" ("out/" +:+ name))).
  unfold filepath.Clean. cbn [Ascii.eqb Bool.eqb].
  match goal with |- context [strings.Join ?l "/"] =>
    assert (Hl : Forall proper l);
    [ apply clean_elems_proper; [apply split_no_slash; exact I | constructor]
    | pose proof (join_proper l Hl) as Hj; destruct (strings.Join l "/") eqn:J ]
  end.
  - discriminate.
  - cbn [String.eqb]. exact Hj.
Qed.

End PathFacts.

(** ** A whole run *)

Section RunFacts.

Context {Env : Type} (world : World Env) (md5_hex : string -> string).

(** C9, as the code has it.  The root names a single file [f] (not a
    folder); there is no list file yet and nothing at the destination.  Then
    the walk returns one task: the identifier and the digest of [f], not
    done, with the path made by [filepath.Join] of the destination and the
    name of [f] (for the destination [./out] and the name [report.pdf] that is
    [out/report.pdf]; it is never the destination itself as it was given).
    When moreover the service sends the content and the local file is created
    and written in full, the run ends without an error with that task done,
    and the file at that path holds the content sent. *)
Theorem single_file_root (fuel : nat) (config : downloadConfig) (f : drive.File)
        (body : string) (s : State Env) :
  isDriveFolder f = false ->
  (forall e, fst (Files_Get world (Src config) e) = inr f) ->
  (forall e, fst (Files_Download world (drive.Id f) e) = inr body) ->
  (forall p e, fst (os_Create world p e) = None) ->
  (forall p b e, fst (io_Copy world p b e) = (String.length b, None)) ->
  disk s !! ListFile config = None ->
  disk s !! filepath.Join [Dst config; drive.Name f] = None ->
  filepath.Join [Dst config; drive.Name f] <> ListFile config ->
  fst (listDriveFolderFiles world (S (S fuel)) (mkTask (Src config) (Dst config) "" false) s)
  = Returned (Some [mkTask (drive.Id f) (filepath.Join [Dst config; drive.Name f])
                           (drive.Md5Checksum f) false], None) /\
  fst (onRunDownload world md5_hex (S (S fuel)) config s)
  = Returned (Some [mkTask (drive.Id f) (filepath.Join [Dst config; drive.Name f])
                           (drive.Md5Checksum f) true], None) /\
  disk (snd (onRunDownload world md5_hex (S (S fuel)) config s))
    !! filepath.Join [Dst config; drive.Name f] = Some body /\
  (Dst config = "./out" -> filepath.Join [Dst config; drive.Name f] <> "./out").
Proof.
  intros Hf Hget Hdl Hc Hcp Hnolist Hnofile Hne.
  set (path := filepath.Join [Dst config; drive.Name f]) in *.
  set (root := mkTask (Src config) (Dst config) "" false).
  set (t := mkTask (drive.Id f) path (drive.Md5Checksum f) false).
  assert (Hwalk : forall s0, listDriveFolderFiles world (S (S fuel)) root s0
            = (Returned (Some [t], None),
               mkState (snd (Files_Get world (Src config) (env s0))) (disk s0)
                       (trace s0 ++ [EvGet (Src config) (inr f)]))).
  { intros s0. apply (walk_single_file world fuel root f s0); [apply Hget | exact Hf]. }
  split; [rewrite Hwalk; reflexivity|].
  unfold onRunDownload. fold root. unfold loadListFile.
  do 2 mstep. rewrite Hnolist. mstep. cbn [fst snd]. mstep.
  rewrite bind_unfold, Hwalk. cbn [fst snd].
  rewrite bind_unfold. cbv beta. rewrite bind_unfold. cbn [ret fst snd env disk trace].
  match goal with |- context [saveListFile world ?v ?lf ?st] =>
    set (s2 := snd (saveListFile world v lf st))
  end.
  assert (Hs2 : disk s2 !! path = None).
  { unfold s2. rewrite saveListFile_other_file by exact Hne. exact Hnofile. }
  rewrite transfer_shape. cbn [elems length fst snd].
  set (s3 := snd (log (Downloading 0 1) (snd (log (TotalFiles 1) s2)))).
  destruct (downloadDriveFile_fetch world md5_hex t body s3 Hs2 Hdl Hc Hcp) as [Hok Hdisk].
  pose proof (attempts_success world md5_hex 4 1 t s3 Hok) as Ha.
  rewrite (transfer_turn_done world md5_hex 0 0 1 (ListFile config) [t] t
             (snd (log (TotalFiles 1) s2)) eq_refl eq_refl)
    by (fold s3; rewrite Ha; reflexivity).
  fold s3. rewrite Ha. cbn [fst snd transfer_loop ret alter list_alter].
  split; [reflexivity|].
  split; [|intros Hd; unfold path; rewrite Hd; apply Join_dot_out].
  rewrite saveListFile_other_file by exact Hne.
  unfold checkpoint. cbn [Nat.add Nat.modulo Nat.divmod Nat.eqb fst snd Nat.sub ret].
  rewrite Hdisk. cbn [t SavePath]. rewrite decide_True by reflexivity. reflexivity.
Qed.

End RunFacts.

(** * Further properties of the run *)

(** ** What a computation does to the trace and to the local files *)

Section Effects.

Context {Env : Type}.

(** The computation [c] adds to the trace only events in [P], and leaves
    the local files related by [D] to what they were. *)
Definition acts {A} (P : Event -> Prop) (D : gmap string string -> gmap string string -> Prop)
           (c : M A) : Prop :=
  forall s : State Env,
    exists evs, trace (snd (c s)) = trace s ++ evs /\ Forall P evs /\
                D (disk s) (disk (snd (c s))).

Variable P : Event -> Prop.
Variable D : gmap string string -> gmap string string -> Prop.
Hypothesis D_refl : forall d, D d d.
Hypothesis D_trans : forall d1 d2 d3, D d1 d2 -> D d2 d3 -> D d1 d3.

Lemma acts_ret {A} (a : A) : acts P D (ret a).
Proof. intros s. exists []. cbn. rewrite app_nil_r. auto. Qed.

Lemma acts_bind {A B} (c : M A) (k : A -> M B) :
  acts P D c -> (forall a, acts P D (k a)) -> acts P D (bind c k).
Proof.
  intros Hc Hk s. rewrite bind_unfold.
  destruct (Hc s) as (e1 & E1 & F1 & D1).
  destruct (Hk (fst (c s)) (snd (c s))) as (e2 & E2 & F2 & D2).
  exists (e1 ++ e2). rewrite E2, E1, app_assoc. split; [reflexivity|].
  split; [apply Forall_app; auto | eauto].
Qed.

Lemma acts_emit (e : Event) : P e -> acts P D (emit e).
Proof. intros H s. exists [e]. cbn. auto. Qed.

Lemma acts_log (m : LogMsg) : P (EvLog m) -> acts P D (log m).
Proof. apply acts_emit. Qed.

Lemma acts_sleep (n : nat) : P (EvSleep n) -> acts P D (sleep n).
Proof. apply acts_emit. Qed.

Lemma acts_ask {A} (q : Env -> A * Env) (ev : A -> Event) :
  (forall a, P (ev a)) -> acts P D (ask q ev).
Proof.
  intros H s. rewrite ask_run. exists [ev (fst (q (env s)))]. cbn. auto.
Qed.

Lemma acts_read_file (path : string) :
  (forall b, P (EvOpen path b)) -> acts P D (read_file path).
Proof. intros H s. eexists [_]. cbn. auto. Qed.

Lemma acts_put_file (path content : string) :
  (forall d, D d (<[path := content]> d)) -> acts P D (put_file path content).
Proof. intros H s. exists []. cbn. rewrite app_nil_r. auto. Qed.

End Effects.

(** ** The walk only asks *)

Section WalkEffects.

Context {Env : Type} (world : World Env).

(** The events of a walk: requests for metadata and for pages, and
    messages. *)
Definition asks (e : Event) : Prop :=
  match e with
  | EvGet _ _ | EvList _ _ _ | EvLog _ => True
  | _ => False
  end.

Ltac same_disk := first [ intros; reflexivity | intros; congruence ].

Ltac asking :=
  first [ apply acts_ret; same_disk
        | apply acts_log; [same_disk | exact I]
        | apply acts_ask; [same_disk | intros; exact I] ].

Lemma listDriveFolder_from_acts (task : Task) (fuel : nat) :
  forall folderId i pageToken vars,
    acts asks eq (listDriveFolder_from world fuel folderId (on_entry task) i pageToken vars).
Proof.
  induction fuel as [|fuel IH]; intros folderId i pageToken [q ft]; [asking|].
  rewrite listDriveFolder_from_S.
  apply acts_bind; [same_disk | asking |]. intros _.
  apply acts_bind; [same_disk | asking |]. intros [err|resp]; [asking|].
  destruct (length (drive.Files resp) =? 0)%nat.
  - apply acts_bind; [same_disk | asking |]. intros _. asking.
  - apply acts_bind; [same_disk| |].
    { intros s. rewrite each_entry_on_entry. exists []. cbn. rewrite app_nil_r. auto. }
    intros [[err|] vars']; cbn [fst snd]; [asking|].
    destruct (String.eqb (drive.NextPageToken resp) "");
      (apply acts_bind; [same_disk | asking |]); intros _; [asking | apply IH].
Qed.

Lemma walk_loop_acts (fuel : nat) :
  forall taskQueue fileTasks, acts asks eq (walk_loop world fuel taskQueue fileTasks).
Proof.
  induction fuel as [|fuel IH]; intros taskQueue fileTasks; [asking|].
  destruct taskQueue as [|task taskQueue]; [asking|].
  rewrite walk_loop_S.
  apply acts_bind; [same_disk | asking |]. intros [err|currFile]; [asking|].
  destruct (isDriveFolder currFile); [|apply IH].
  apply acts_bind; [same_disk | asking |]. intros _.
  apply acts_bind; [same_disk | apply listDriveFolder_from_acts |].
  intros [[[err|] [q ft]]|]; try asking. apply IH.
Qed.

(** X1.  Whatever the service answers and whatever the fuel, the walk does
    nothing but ask the service for metadata and for pages and write messages:
    it opens, creates and writes no local file, downloads nothing and takes no
    pause, and the local files are after it as they were before. *)
Theorem walk_only_asks (fuel : nat) (rootFolder : Task) (s : State Env) :
  (exists evs, trace (snd (listDriveFolderFiles world fuel rootFolder s)) = trace s ++ evs /\
               Forall asks evs) /\
  disk (snd (listDriveFolderFiles world fuel rootFolder s)) = disk s.
Proof.
  destruct (walk_loop_acts fuel [rootFolder] [] s) as (evs & E & F & Hd).
  split; [exists evs; auto | symmetry; exact Hd].
Qed.

End WalkEffects.

(** ** What the transfer does *)

(** The events of a transfer: all but the requests of the walk. *)
Definition transfers (e : Event) : Prop :=
  match e with
  | EvGet _ _ | EvList _ _ _ => False
  | _ => True
  end.

Section TransferEffects.

Context {Env : Type} (world : World Env) (md5_hex : string -> string).

Variable D : gmap string string -> gmap string string -> Prop.
Hypothesis D_refl : forall d, D d d.
Hypothesis D_trans : forall d1 d2 d3, D d1 d2 -> D d2 d3 -> D d1 d3.

(** [D] allows any change of the file at [path]. *)
Definition writable (path : string) : Prop :=
  forall (d : gmap string string) (content : string), D d (<[path := content]> d).

Ltac transferring :=
  first [ apply acts_ret; exact D_refl
        | apply acts_log; [exact D_refl | exact I]
        | apply acts_sleep; [exact D_refl | exact I]
        | apply acts_ask; [exact D_refl | intros; exact I]
        | apply acts_read_file; [exact D_refl | intros; exact I]
        | apply acts_put_file; auto
        | apply acts_bind; [exact D_trans | | intros] ].

Lemma create_file_acts (path : string) :
  writable path -> acts transfers D (create_file world path).
Proof.
  intros W. unfold create_file. transferring; [transferring|].
  destruct a; repeat transferring.
Qed.

Lemma saveListFile_acts (v : slice) (listFile : string) :
  writable listFile -> acts transfers D (saveListFile world v listFile).
Proof.
  intros W. unfold saveListFile. transferring; [apply create_file_acts, W|].
  destruct a; [transferring|]. transferring; [transferring|].
  destruct a as [[n err]|]; repeat transferring.
Qed.

Lemma saveFile_acts (path body : string) :
  writable path -> acts transfers D (saveFile world path body).
Proof.
  intros W. unfold saveFile. transferring; [apply create_file_acts, W|].
  destruct a; [transferring|]. transferring; [transferring|].
  transferring; [transferring|]. destruct (snd a); transferring.
Qed.

Lemma downloadDriveFile_acts (task : Task) :
  writable (SavePath task) -> acts transfers D (downloadDriveFile world md5_hex task).
Proof.
  intros W. unfold downloadDriveFile, getFileMd5.
  transferring.
  - transferring; [transferring|]. destruct a; transferring.
  - match goal with |- acts _ _ (if ?b then _ else _) => destruct b end.
    + repeat transferring.
    + transferring; [transferring|]. transferring; [transferring|].
      destruct a1 as [err|body]; [transferring|].
      transferring; [apply saveFile_acts, W|]. destruct a1; transferring.
Qed.

Lemma attempts_acts (task : Task) (n : nat) :
  writable (SavePath task) ->
  forall k, acts transfers D (attempts world md5_hex n k task).
Proof.
  intros W. induction n as [|n IH]; intros k; [transferring|].
  rewrite attempts_S. transferring; [apply downloadDriveFile_acts, W|].
  destruct a as [e|]; [|transferring].
  transferring; [unfold pause; repeat transferring|].
  destruct n; [transferring | apply IH].
Qed.

Lemma checkpoint_acts (i : nat) (fileTasks : list Task) (listFile : string) :
  writable listFile -> acts transfers D (checkpoint world i fileTasks listFile).
Proof.
  intros W. unfold checkpoint. destruct ((i + 1) mod 10 =? 0)%nat; [|transferring].
  transferring; [apply saveListFile_acts, W | transferring].
Qed.

(** The files of the tasks that are still to be downloaded may change. *)
Definition open_tasks_writable (fileTasks : list Task) : Prop :=
  Forall (fun t => Done t = false -> writable (SavePath t)) fileTasks.

Lemma transfer_loop_acts (total : nat) (listFile : string) (n : nat) :
  writable listFile ->
  forall i fileTasks,
    open_tasks_writable fileTasks ->
    acts transfers D (transfer_loop world md5_hex n i total listFile fileTasks).
Proof.
  intros W. induction n as [|n IH]; intros i fileTasks Hw; [transferring|].
  rewrite transfer_loop_S. unfold transfer_turn.
  destruct (fileTasks !! i) as [task|] eqn:L; [|transferring].
  destruct (Done task) eqn:Hd.
  - transferring; [transferring | apply IH, Hw].
  - assert (Wt : writable (SavePath task)).
    { unfold open_tasks_writable in Hw. rewrite Forall_lookup in Hw. exact (Hw i task L Hd). }
    transferring; [transferring|].
    transferring; [apply attempts_acts, Wt|].
    destruct a0 as [e|]; [repeat transferring|].
    transferring; [apply checkpoint_acts, W|]. apply IH.
    apply Forall_alter; [exact Hw|]. intros t _ _. discriminate.
Qed.

Lemma transfer_acts (v : slice) (listFile : string) :
  writable listFile -> open_tasks_writable (elems v) ->
  acts transfers D (transfer world md5_hex v listFile).
Proof.
  intros W Hw. unfold transfer.
  transferring; [transferring|].
  transferring; [apply transfer_loop_acts; assumption|].
  transferring; [apply saveListFile_acts, W | transferring].
Qed.

End TransferEffects.

(** ** A whole run, and what it leaves *)

Section RunEffects.

Context {Env : Type} (world : World Env) (md5_hex : string -> string).


(** X3.  When the list file is there and is the document of a task list, the
    run is the transfer of that list, whatever the fuel, the source and the
    destination of the configuration: the service is asked for no metadata and
    no page, so that what has changed in the remote folder since the list was
    written is not seen. *)
Theorem loaded_list_is_trusted (fuel : nat) (config : downloadConfig) (doc : string)
        (v : slice) (s : State Env) :
  disk s !! ListFile config = Some doc ->
  json.Decode doc = Some v ->
  let opened := mkState (env s) (disk s) (trace s ++ [EvOpen (ListFile config) true]) in
  onRunDownload world md5_hex fuel config s
  = (Returned (fst (transfer world md5_hex v (ListFile config) opened)),
     snd (transfer world md5_hex v (ListFile config) opened)) /\
  exists evs, trace (snd (onRunDownload world md5_hex fuel config s)) = trace s ++ evs /\
              Forall transfers evs.
Proof.
  intros Hdoc Hv opened.
  assert (Hrun : onRunDownload world md5_hex fuel config s
                 = (Returned (fst (transfer world md5_hex v (ListFile config) opened)),
                    snd (transfer world md5_hex v (ListFile config) opened))).
  { unfold onRunDownload, loadListFile. rewrite bind_bind, bind_read_file, Hdoc, Hv.
    rewrite bind_ret. cbn [fst snd]. rewrite bind_unfold.
    assert (Ho : bool_decide (is_Some (Some doc)) = true) by (apply bool_decide_eq_true; eauto).
    rewrite Ho. reflexivity. }
  split; [exact Hrun|]. rewrite Hrun. cbn [snd].
  destruct (transfer_acts world md5_hex (fun _ _ => True) (fun _ => I) (fun _ _ _ _ _ => I)
              v (ListFile config)) with opened as (evs & E & F & _).
  - intros d c. exact I.
  - apply Forall_forall. intros t _ _ d c. exact I.
  - exists (EvOpen (ListFile config) true :: evs). rewrite E. unfold opened. cbn [trace].
    rewrite <- app_assoc. split; [reflexivity|]. constructor; [exact I | exact F].
Qed.

(** The events of a run whose walk fails. *)
Definition asks_or_opens (listFile : string) (e : Event) : Prop :=
  match e with
  | EvGet _ _ | EvList _ _ _ | EvLog _ => True
  | EvOpen path _ => path = listFile
  | _ => False
  end.

(** X4.  The list file cannot be loaded and the walk that follows returns an
    error.  Then the run ends with that error and the nil list after a message
    for it; it has looked for the list file, asked the service and written
    messages, and nothing else: no list file is written, nothing is downloaded,
    and the local files are as they were. *)
Theorem failed_walk_writes_nothing (fuel : nat) (config : downloadConfig)
        (e err : error) (v : slice) (s : State Env) :
  snd (fst (loadListFile (ListFile config) s)) = Some e ->
  fst (listDriveFolderFiles world fuel (mkTask (Src config) (Dst config) "" false)
         (snd (log (LoadListErr e) (snd (loadListFile (ListFile config) s)))))
  = Returned (v, Some err) ->
  fst (onRunDownload world md5_hex fuel config s) = Returned (None, Some err) /\
  disk (snd (onRunDownload world md5_hex fuel config s)) = disk s /\
  exists evs, trace (snd (onRunDownload world md5_hex fuel config s))
              = trace s ++ evs ++ [EvLog (ListFilesErr err)] /\
              Forall (asks_or_opens (ListFile config)) evs.
Proof.
  intros Hl Hw.
  set (root := mkTask (Src config) (Dst config) "" false) in *.
  set (s1 := snd (log (LoadListErr e) (snd (loadListFile (ListFile config) s)))) in *.
  assert (Hrun : onRunDownload world md5_hex fuel config s
                 = (Returned (None, Some err),
                    snd (log (ListFilesErr err)
                           (snd (listDriveFolderFiles world fuel root s1))))).
  { unfold onRunDownload. rewrite bind_unfold, Hl. fold root.
    rewrite bind_unfold. fold s1. rewrite bind_unfold, Hw. reflexivity. }
  rewrite Hrun. cbn [fst snd]. unfold listDriveFolderFiles.
  destruct (walk_loop_acts world fuel [root] [] s1) as (evs & E & F & Hd).
  assert (Hs1 : disk s1 = disk s /\
                trace s1 = trace s ++ [EvOpen (ListFile config)
                                              (bool_decide (is_Some (disk s !! ListFile config)));
                                       EvLog (LoadListErr e)]).
  { unfold s1, loadListFile. rewrite bind_read_file.
    destruct (disk s !! ListFile config) as [doc|]; [destruct (json.Decode doc)|];
      cbn; rewrite <- app_assoc; auto. }
  destruct Hs1 as [Hd1 Ht1]. clearbody s1.
  split; [reflexivity|]. split; [cbn [log emit snd disk]; congruence|].
  eexists (_ :: _ :: evs). cbn [log emit snd trace]. rewrite E, Ht1, <- !app_assoc.
  split; [reflexivity|].
  constructor; [reflexivity|]. constructor; [exact I|].
  eapply Forall_impl; [exact F|]. intros [] H; cbn in *; try contradiction; auto.
Qed.

End RunEffects.

(** ** One download *)

Section FileEffects.

Context {Env : Type} (world : World Env) (md5_hex : string -> string).

(** The two events every download of a task that is fetched begins with. *)
Definition fetch_start (task : Task) (s : State Env) : list Event :=
  [EvOpen (SavePath task) (bool_decide (is_Some (disk s !! SavePath task)));
   EvLog (DownloadingFile (Md5Checksum task) (SavePath task))].

(** X5.  The download of a task, the look at its local file done, ends in
    one of four ways.  The local file
    has the digest of the task, which is not empty: nothing is requested and
    nothing changes.  The request fails, or the local file cannot be created:
    the error is reported, with the path before it, and the local files are as
    they were.  Or the content sent is copied: the local file then holds the
    bytes that reached it, all of the content or a part of it, and an error is
    reported exactly when the copy reported one; the content is not compared
    with the digest of the task. *)
Theorem download_outcomes (task : Task) (s : State Env) :
  let path := SavePath task in
  let r := downloadDriveFile world md5_hex task s in
  (exists content, disk s !! path = Some content /\ md5_hex content = Md5Checksum task /\
                   Md5Checksum task <> "" /\
                   trace (snd r) = trace s ++ [EvOpen path true; EvLog (SkippingIdentical path)] /\
                   fst r = None /\ disk (snd r) = disk s) \/
  (exists e, trace (snd r) = trace s ++ fetch_start task s ++ [EvDownload (FileId task) (inl e)] /\
             fst r = Some ("download file: " +:+ path +:+ ", err = " +:+ e) /\
             disk (snd r) = disk s) \/
  (exists body e, trace (snd r) = trace s ++ fetch_start task s
                                  ++ [EvDownload (FileId task) (inr body);
                                      EvCreate path (Some e)] /\
                  fst r = Some ("save file: " +:+ path +:+ ", err = "
                                +:+ "Unable to create file: " +:+ path +:+ ", err = " +:+ e) /\
                  disk (snd r) = disk s) \/
  (exists body n oe, trace (snd r) = trace s ++ fetch_start task s
                                     ++ [EvDownload (FileId task) (inr body);
                                         EvCreate path None; EvCopy path body (n, oe)] /\
                     fst r = match oe with
                             | None => None
                             | Some e => Some ("save file: " +:+ path +:+ ", err = "
                                               +:+ "Unable to write file: " +:+ path
                                               +:+ ", err = " +:+ e)
                             end /\
                     disk (snd r) = <[path := String.substring 0 n body]> (disk s)).
Proof.
  intros path r. unfold r, path, fetch_start.
  assert (Hfetch : forall found : bool,
    let s1 := mkState (env s) (disk s) (trace s ++ [EvOpen (SavePath task) found]) in
    let r := bind (log (DownloadingFile (Md5Checksum task) (SavePath task))) (fun _ =>
             bind (ask (Files_Download world (FileId task)) (EvDownload (FileId task)))
               (fun resp =>
                  match resp with
                  | inl err => ret (Some ("download file: " +:+ SavePath task +:+ ", err = " +:+ err))
                  | inr body =>
                    bind (saveFile world (SavePath task) body) (fun err =>
                      match err with
                      | Some err => ret (Some ("save file: " +:+ SavePath task +:+ ", err = " +:+ err))
                      | None => ret None
                      end)
                  end)) s1 in
    (exists e, trace (snd r) = trace s ++ [EvOpen (SavePath task) found;
                                           EvLog (DownloadingFile (Md5Checksum task) (SavePath task))]
                               ++ [EvDownload (FileId task) (inl e)] /\
               fst r = Some ("download file: " +:+ SavePath task +:+ ", err = " +:+ e) /\
               disk (snd r) = disk s) \/
    (exists body e, trace (snd r) = trace s ++ [EvOpen (SavePath task) found;
                                           EvLog (DownloadingFile (Md5Checksum task) (SavePath task))]
                                    ++ [EvDownload (FileId task) (inr body);
                                        EvCreate (SavePath task) (Some e)] /\
                    fst r = Some ("save file: " +:+ SavePath task +:+ ", err = "
                                  +:+ "Unable to create file: " +:+ SavePath task
                                  +:+ ", err = " +:+ e) /\
                    disk (snd r) = disk s) \/
    (exists body n oe, trace (snd r) = trace s ++ [EvOpen (SavePath task) found;
                                           EvLog (DownloadingFile (Md5Checksum task) (SavePath task))]
                                       ++ [EvDownload (FileId task) (inr body);
                                           EvCreate (SavePath task) None;
                                           EvCopy (SavePath task) body (n, oe)] /\
                       fst r = match oe with
                               | None => None
                               | Some e => Some ("save file: " +:+ SavePath task +:+ ", err = "
                                                 +:+ "Unable to write file: " +:+ SavePath task
                                                 +:+ ", err = " +:+ e)
                               end /\
                       disk (snd r) = <[SavePath task := String.substring 0 n body]> (disk s))).
  { intros found s1 r0. unfold r0, s1, saveFile, create_file, bind, ask, ret, put_file, log, emit.
    cbn [env disk trace fst snd].
    destruct (Files_Download world (FileId task) (env s)) as [[e|body] e1];
      cbn [env disk trace fst snd].
    - left. exists e. rewrite <- !app_assoc. auto.
    - right.
      destruct (os_Create world (SavePath task) e1) as [[e|] e2]; cbn [env disk trace fst snd].
      + left. exists body, e. rewrite <- !app_assoc. auto.
      + right.
        destruct (io_Copy world (SavePath task) body e2) as [[n oe] e3];
          cbn [env disk trace fst snd].
        exists body, n, oe. rewrite <- !app_assoc, insert_insert_eq.
        destruct oe; auto. }
  unfold downloadDriveFile, getFileMd5.
  rewrite bind_bind, bind_read_file.
  destruct (disk s !! SavePath task) as [content|] eqn:L; rewrite bind_ret.
  - destruct (negb (String.eqb (Md5Checksum task) "")
              && negb (String.eqb (md5_hex content) "")
              && String.eqb (md5_hex content) (Md5Checksum task)) eqn:C.
    + left. apply andb_true_iff in C as [C C3]. apply andb_true_iff in C as [C1 _].
      apply String.eqb_eq in C3. apply negb_true_iff, String.eqb_neq in C1.
      exists content. rewrite bind_log. cbn [ret fst snd trace disk].
      assert (Ho : bool_decide (is_Some (Some content)) = true)
        by (apply bool_decide_eq_true; eauto).
      rewrite Ho, <- app_assoc. auto 10.
    + right. apply Hfetch.
  - right. rewrite andb_false_r. cbn [andb]. apply Hfetch.
Qed.


End FileEffects.

(** ** From one run to the next *)

Section NextRun.

Context {Env : Type} (world : World Env) (md5_hex : string -> string).

Lemma valid_advanced (l l' : list Task) :
  Forall2 advanced l l' -> forallb valid_task l = true -> forallb valid_task l' = true.
Proof.
  induction 1 as [|t t' l l' (Hi & Hp & Hm & _) _ IH]; [reflexivity|].
  cbn [forallb]. intros H. apply andb_true_iff in H as [Ht Hl].
  apply andb_true_iff. split; [|apply IH, Hl].
  unfold valid_task in *. rewrite Hi, Hp, Hm. exact Ht.
Qed.

(** X6.  The texts of the tasks are valid UTF-8 and the list file can be
    created and written.  Then, however the transfer ends, without an error or
    giving up on a task, loading the list file afterwards gives the list the
    transfer returned, without an error: the next run starts from the [Done]
    flags this one has set. *)
Theorem next_run_loads_the_list (v : slice) (listFile : string) (s : State Env) :
  valid v = true ->
  (forall e, fst (os_Create world listFile e) = None) ->
  (forall doc e, fst (file_Write world listFile doc e) = None) ->
  fst (loadListFile listFile (snd (transfer world md5_hex v listFile s)))
  = (fst (fst (transfer world md5_hex v listFile s)), None).
Proof.
  intros Hv Hc Hw. rewrite transfer_shape. cbn [fst snd].
  match goal with |- context [saveListFile world ?f listFile ?st] =>
    set (final := f); set (sl := st) end.
  assert (Hsaved : fst (saveListFile world final listFile sl) = None).
  { unfold saveListFile, create_file. rewrite bind_bind, bind_ask, Hc.
    rewrite bind_bind, bind_put_file, !bind_ret, bind_ask, Hw, bind_put_file.
    reflexivity. }
  apply (loadListFile_decodes final listFile (json.Encode final)).
  - apply saveListFile_stores, Hsaved.
  - apply Decode_Encode. unfold final, valid in *. destruct v as [l|]; [|reflexivity].
    cbn [elems] in *. eapply valid_advanced; [apply transfer_loop_advanced | exact Hv].
Qed.

End NextRun.

(** ** The cost of one task *)

Definition is_download (e : Event) : bool :=
  match e with EvDownload _ _ => true | _ => false end.

(** The number of download requests among the events. *)
Definition downloads (evs : list Event) : nat := length (List.filter is_download evs).

Section RetryBound.

Context {Env : Type} (world : World Env) (md5_hex : string -> string).

Lemma downloads_app (l1 l2 : list Event) :
  downloads (l1 ++ l2) = (downloads l1 + downloads l2)%nat.
Proof. unfold downloads. rewrite List.filter_app, length_app. reflexivity. Qed.

(** One download of a task sends at most one request and takes no pause. *)
Lemma downloadDriveFile_one_request (task : Task) (s : State Env) :
  exists evs, trace (snd (downloadDriveFile world md5_hex task s)) = trace s ++ evs /\
              (downloads evs <= 1)%nat /\ sleeps evs = [].
Proof.
  destruct (downloadDriveFile_quiet world md5_hex task s) as (evs & E & Q).
  exists evs. split; [exact E|]. split; [|apply sleeps_quiet, Q].
  revert E. unfold downloadDriveFile, getFileMd5, saveFile, create_file, bind, ask, ret,
    put_file, log, emit, read_file.
  destruct (disk s !! SavePath task) as [content|]; cbn [fst snd env disk trace].
  all: match goal with |- context [if ?b then _ else _] => destruct b end;
    cbn [fst snd env disk trace].
  all: try (intros E; rewrite <- !app_assoc in E; apply app_inv_head in E; subst evs;
            cbn; lia).
  all: destruct (Files_Download world (FileId task) (env s)) as [[e|body] e1];
    cbn [fst snd env disk trace].
  all: try (intros E; rewrite <- !app_assoc in E; apply app_inv_head in E; subst evs;
            cbn; lia).
  all: destruct (os_Create world (SavePath task) e1) as [[e|] e2];
    cbn [fst snd env disk trace].
  all: try (intros E; rewrite <- !app_assoc in E; apply app_inv_head in E; subst evs;
            cbn; lia).
  all: destruct (io_Copy world (SavePath task) body e2) as [[k [e|]] e3];
    cbn [fst snd env disk trace].
  all: intros E; rewrite <- !app_assoc in E; apply app_inv_head in E; subst evs; cbn; lia.
Qed.

(** The retry loop with [n] attempts left, the next one being the
    attempt [k]: it sends at most [n] requests, and pauses after each of its
    [m] failed attempts, [5k], [5(k+1)], ... seconds; it returns an error
    exactly when all [n] attempts have failed. *)
Lemma attempts_cost (task : Task) (n : nat) :
  forall (k : nat) (s : State Env),
    exists evs m,
      trace (snd (attempts world md5_hex n k task s)) = trace s ++ evs /\
      sleeps evs = map (fun j => j * 5)%nat (seq k m) /\
      (m <= n)%nat /\ (downloads evs <= n)%nat /\
      (fst (attempts world md5_hex n k task s) = None -> n = 0%nat \/ (m < n)%nat) /\
      (forall e, fst (attempts world md5_hex n k task s) = Some e -> m = n).
Proof.
  induction n as [|n IH]; intros k s.
  - exists [], 0%nat. cbn. rewrite app_nil_r. repeat split; auto; discriminate.
  - rewrite attempts_S, bind_unfold.
    destruct (downloadDriveFile_one_request task s) as (e1 & E1 & D1 & S1).
    destruct (downloadDriveFile world md5_hex task s) as [[e|] s1]; cbn [fst snd] in *.
    + unfold pause. rewrite bind_bind, bind_log. unfold sleep. rewrite bind_emit.
      cbn [env disk trace].
      destruct n as [|n'].
      * cbn [ret fst snd trace].
        exists (e1 ++ [EvLog (Retry k (k * 5) e); EvSleep (k * 5)]), 1%nat.
        rewrite E1, <- !app_assoc. split; [reflexivity|].
        rewrite sleeps_app, S1, downloads_app. cbn.
        repeat split; auto; try lia. discriminate.
      * match goal with |- context [attempts world md5_hex (S n') (S k) task ?st] =>
          destruct (IH (S k) st) as (e2 & m & E2 & S2 & Hm & D2 & Hok & Herr);
          destruct (attempts world md5_hex (S n') (S k) task st) as [r s2] end.
        cbn [fst snd trace] in *.
        exists (e1 ++ [EvLog (Retry k (k * 5) e); EvSleep (k * 5)] ++ e2), (S m).
        rewrite E2, E1, <- !app_assoc. split; [reflexivity|].
        rewrite !sleeps_app, S1, S2, !downloads_app. cbn [app seq map].
        change (sleeps [EvLog (Retry k (k * 5) e); EvSleep (k * 5)]) with [(k * 5)%nat].
        change (downloads [EvLog (Retry k (k * 5) e); EvSleep (k * 5)]) with 0%nat.
        split; [reflexivity|]. split; [lia|]. split; [lia|]. split.
        -- intros H. right. destruct (Hok H); [discriminate|lia].
        -- intros e0 H. f_equal. eauto.
    + cbn [ret fst snd]. exists e1, 0%nat. split; [exact E1|].
      split; [exact S1|]. split; [lia|]. split; [lia|]. split; [right; lia | discriminate].
Qed.

(** X7.  Whatever the service and the file system answer, the work on one
    task sends at most five download requests and pauses after each failed
    attempt, also after the fifth: 5, 10, 15, 20 and 25 seconds, so 75
    seconds at most; it ends with an error exactly when it has paused five
    times. *)
Theorem attempts_bounded (task : Task) (s : State Env) :
  exists evs m,
    trace (snd (attempts world md5_hex 5 1 task s)) = trace s ++ evs /\
    sleeps evs = take m [5; 10; 15; 20; 25]%nat /\
    (downloads evs <= 5)%nat /\ (list_sum (sleeps evs) <= 75)%nat /\
    (fst (attempts world md5_hex 5 1 task s) = None <-> (m < 5)%nat) /\
    (m <= 5)%nat.
Proof.
  destruct (attempts_cost task 5 1 s) as (evs & m & E & S & Hm & D & Hok & Herr).
  exists evs, m. split; [exact E|].
  assert (Hs : sleeps evs = take m [5; 10; 15; 20; 25]%nat).
  { rewrite S. do 6 (destruct m as [|m]; [reflexivity|]). lia. }
  split; [exact Hs|]. split; [exact D|]. split.
  - rewrite Hs. do 6 (destruct m as [|m]; [cbn; lia|]). lia.
  - split; [|exact Hm]. split.
    + intros H. destruct (Hok H); [discriminate|assumption].
    + intros H. destruct (fst (attempts world md5_hex 5 1 task s)) as [e|] eqn:R;
        [|reflexivity]. specialize (Herr e eq_refl). lia.
Qed.

End RetryBound.

(** Four failures and a success, then five failures, on the first of two
    tasks. *)
Lemma retry_then_done_or_abort_witness :
  (exists errs sm,
      failed_attempts (Scenario.flaky 4) Scenario.digest 4 1
        (mkTask "F1" "out/a.txt" "abc123" false)
        (snd (log (Downloading 0 2) (Scenario.start 0%nat))) = Some (errs, sm) /\
      fst (downloadDriveFile (Scenario.flaky 4) Scenario.digest
             (mkTask "F1" "out/a.txt" "abc123" false) sm) = None /\
      (exists evs, trace sm = EvLog (Downloading 0 2) :: evs /\ sleeps evs = [5; 10; 15; 20]%nat) /\
      exists t', fst (fst (transfer_loop (Scenario.flaky 4) Scenario.digest 2 0 2 "list.json"
                             Scenario.two_tasks (Scenario.start 0%nat))) !! 0%nat
                 = Some t' /\ Done t' = true) /\
  (exists errs sm,
      failed_attempts (Scenario.flaky 9) Scenario.digest 5 1
        (mkTask "F1" "out/a.txt" "abc123" false)
        (snd (log (Downloading 0 2) (Scenario.start 0%nat))) = Some (errs, sm) /\
      (exists evs, trace sm = EvLog (Downloading 0 2) :: evs /\
                   sleeps evs = [5; 10; 15; 20; 25]%nat) /\
      exists e,
        transfer_loop (Scenario.flaky 9) Scenario.digest 2 0 2 "list.json"
                      Scenario.two_tasks (Scenario.start 0%nat)
        = ((Scenario.two_tasks, Some e), snd (log (DownloadErr e) sm))).
Proof.
  split.
  - eexists. eexists.
    match goal with |- ?F /\ _ => assert (HF : F) by (vm_compute; reflexivity) end.
    split; [exact HF|].
    match goal with |- ?G /\ _ => assert (HG : G) by (vm_compute; reflexivity) end.
    split; [exact HG|].
    destruct (retry_then_done_or_abort (Scenario.flaky 4) Scenario.digest 1 0 2 4
                "list.json" Scenario.two_tasks _ _ _ _ eq_refl eq_refl
                ltac:(lia) HF (fun _ => HG)) as [Hs [_ Hd]].
    split; [exact Hs | exact Hd].
  - eexists. eexists.
    match goal with |- ?F /\ _ => assert (HF : F) by (vm_compute; reflexivity) end.
    split; [exact HF|].
    destruct (retry_then_done_or_abort (Scenario.flaky 9) Scenario.digest 1 0 2 5
                "list.json" Scenario.two_tasks _ _ _ _ eq_refl eq_refl
                ltac:(lia) HF ltac:(intros C; exfalso; lia)) as [Hs (e & _ & He)].
    split; [exact Hs|]. exists e. exact He.
Defined.


(** A first run of two tasks, and a second one on its result. *)
Lemma second_run_fetches_nothing_witness :
  snd (fst (transfer (Scenario.steady false "list.json") Scenario.digest
                     (Some Scenario.two_tasks) "list.json" (Scenario.start tt))) = None /\
  fst (transfer (Scenario.steady false "list.json") Scenario.digest
                (Some (map set_done Scenario.two_tasks)) "list.json" (Scenario.start tt))
  = (Some (map set_done Scenario.two_tasks), None) /\
  exists evs,
    trace (snd (transfer (Scenario.steady false "list.json") Scenario.digest
                         (Some (map set_done Scenario.two_tasks)) "list.json"
                         (Scenario.start tt))) = evs /\
    Forall local evs.
Proof.
  assert (H : snd (fst (transfer (Scenario.steady false "list.json") Scenario.digest
                     (Some Scenario.two_tasks) "list.json" (Scenario.start tt))) = None)
    by (vm_compute; reflexivity).
  split; [exact H|].
  destruct (second_run_fetches_nothing (Scenario.steady false "list.json") Scenario.digest
              (Some Scenario.two_tasks) "list.json" (Scenario.start tt) (Scenario.start tt) H)
    as (_ & B & C & _).
  split; [exact B | exact C].
Defined.

Lemma steady_attempts_ok (locked : bool) (listFile : string) (t : Task) (s : State unit) :
  SavePath t <> listFile ->
  fst (attempts (Scenario.steady locked listFile) Scenario.digest 5 1 t s) = None.
Proof.
  intros Hne. rewrite attempts_success; [reflexivity|].
  unfold downloadDriveFile, getFileMd5, saveFile, create_file, bind, ask, ret, log, emit,
    read_file, put_file.
  cbn [Scenario.steady Files_Download os_Create io_Copy env disk trace fst snd].
  apply String.eqb_neq in Hne. rewrite Hne, andb_false_r.
  destruct (disk s !! SavePath t); cbn [fst snd];
    match goal with |- context [if ?b then _ else _] => destruct b end; reflexivity.
Qed.

(** Twelve tasks to do.  When every download succeeds the list is saved
    twice: after the tenth task, with ten tasks done, and at the end.  When no
    download succeeds the run gives up on the first task and the list is
    saved once, at the end, as it was.  When the tenth of the twelve tasks is
    done from the start and the list file cannot be created, the run completes
    eleven tasks and makes one attempt to save, at the end, which is
    refused. *)
Lemma saves_by_position_witness :
  let run := transfer (Scenario.steady false "list.json") Scenario.digest
                      (Some Scenario.open_dozen) "list.json" (Scenario.start tt) in
  let stuck := transfer (Scenario.flaky 100) Scenario.digest (Some Scenario.open_dozen)
                        "list.json" (Scenario.start 0%nat) in
  let locked := transfer (Scenario.steady true "list.json") Scenario.digest
                         (Some Scenario.twelve) "list.json" (Scenario.start tt) in
  (exists evs, trace (snd run) = [] ++ evs /\
               Forall2 as_expected (save_attempts "list.json" evs)
                       (expected_docs (Some Scenario.open_dozen) (fst (fst run)))) /\
  fst run = (Some (map set_done Scenario.open_dozen), None) /\
  save_attempts "list.json" (trace (snd run))
  = [Some (json.Encode (Some (map set_done (take 10 Scenario.open_dozen)
                              ++ drop 10 Scenario.open_dozen)));
     Some (json.Encode (Some (map set_done Scenario.open_dozen)))] /\
  (exists evs, trace (snd stuck) = [] ++ evs /\
               Forall2 as_expected (save_attempts "list.json" evs)
                       (expected_docs (Some Scenario.open_dozen) (fst (fst stuck)))) /\
  fst stuck = (Some Scenario.open_dozen, Some "download file: out/A, err = timeout") /\
  save_attempts "list.json" (trace (snd stuck))
  = [Some (json.Encode (Some Scenario.open_dozen))] /\
  (exists evs, trace (snd locked) = [] ++ evs /\
               Forall2 as_expected (save_attempts "list.json" evs)
                       (expected_docs (Some Scenario.twelve) (fst (fst locked)))) /\
  fst locked = (Some (map set_done Scenario.twelve), None) /\
  save_attempts "list.json" (trace (snd locked)) = [None].
Proof.
  assert (Hp : Forall (fun t => SavePath t <> "list.json") (elems (Some Scenario.open_dozen)))
    by (repeat constructor; discriminate).
  assert (Hq : Forall (fun t => SavePath t <> "list.json") (elems (Some Scenario.twelve)))
    by (repeat constructor; discriminate).
  destruct (saves_by_position (Scenario.steady false "list.json") Scenario.digest
              (Some Scenario.open_dozen) "list.json" (Scenario.start tt) Hp) as (H1 & _).
  destruct (saves_by_position (Scenario.flaky 100) Scenario.digest
              (Some Scenario.open_dozen) "list.json" (Scenario.start 0%nat) Hp) as (H2 & _).
  destruct (saves_by_position (Scenario.steady true "list.json") Scenario.digest
              (Some Scenario.twelve) "list.json" (Scenario.start tt) Hq) as (H3 & _).
  split; [exact H1|]. split; [vm_compute; reflexivity|]. split; [vm_compute; reflexivity|].
  split; [exact H2|]. split; [vm_compute; reflexivity|]. split; [vm_compute; reflexivity|].
  split; [exact H3|]. split; vm_compute; reflexivity.
Defined.

(** C6 as it is worded fails on the run of twelve tasks of which the
    tenth is done, in a world where the list file cannot be created: eleven
    tasks are completed and the list is saved once, not twice; and the save at
    the end fails without a message after it. *)
Lemma saves_counterexample :
  ~ saved_every_tenth_completion "list.json" Scenario.twelve
      (elems (fst (fst (transfer (Scenario.steady true "list.json") Scenario.digest
                                 (Some Scenario.twelve) "list.json" (Scenario.start tt)))))
      (trace (snd (transfer (Scenario.steady true "list.json") Scenario.digest
                            (Some Scenario.twelve) "list.json" (Scenario.start tt))))
  /\
  ~ failed_saves_logged "list.json"
      (trace (snd (transfer (Scenario.steady true "list.json") Scenario.digest
                            (Some Scenario.twelve) "list.json" (Scenario.start tt)))).
Proof.
  split.
  - unfold saved_every_tenth_completion. vm_compute. discriminate.
  - intros H.
    specialize (H (removelast (trace (snd (transfer (Scenario.steady true "list.json")
                     Scenario.digest (Some Scenario.twelve) "list.json" (Scenario.start tt)))))
                  "permission denied" []).
    assert (E : Exists (fun e => is_log e = true) []) by (apply H; vm_compute; reflexivity).
    inversion E.
Qed.

(** The listing of the root fails on its second page, after a file and a
    folder were seen on the first: the walk returns the nil list. *)
Lemma walk_fails_as_a_whole_witness :
  (exists err,
      fst (listDriveFolderFiles Scenario.broken_listing 5 (mkTask "R" "./out" "" false)
                                (Scenario.start tt))
      = Returned (None, Some err)) /\
  (forall v err,
      fst (listDriveFolderFiles Scenario.broken_listing 5 (mkTask "R" "./out" "" false)
                                (Scenario.start tt))
      = Returned (v, Some err) -> v = None).
Proof.
  eapply (walk_fails_as_a_whole Scenario.broken_listing 5 (mkTask "R" "./out" "" false)
            (Scenario.start tt)).
  - vm_compute. reflexivity.
  - repeat first [ apply Exists_cons_hd; exact I | apply Exists_cons_tl ].
Defined.



(** The file [F1], named [report.pdf], with the digest [abc123], to the
    destination [./out]. *)
Lemma single_file_root_witness :
  fst (listDriveFolderFiles Scenario.single_file 2 (mkTask "F1" "./out" "" false)
                            (Scenario.start tt))
  = Returned (Some [mkTask "F1" "out/report.pdf" "abc123" false], None) /\
  fst (onRunDownload Scenario.single_file Scenario.digest 2 Scenario.single_file_config
                     (Scenario.start tt))
  = Returned (Some [mkTask "F1" "out/report.pdf" "abc123" true], None) /\
  disk (snd (onRunDownload Scenario.single_file Scenario.digest 2
                           Scenario.single_file_config (Scenario.start tt)))
    !! "out/report.pdf" = Some "content of F1".
Proof.
  refine (let H := (single_file_root Scenario.single_file Scenario.digest 0 Scenario.single_file_config
           (Scenario.file "F1" "report.pdf" "abc123") "content of F1" (Scenario.start tt)
           eq_refl (fun _ => eq_refl) (fun _ => eq_refl) (fun _ _ => eq_refl)
           (fun _ _ _ => eq_refl) eq_refl eq_refl ltac:(discriminate)) in _).
  destruct H as (A & B & C & _). split; [exact A|]. split; [exact B | exact C].
Defined.

(** C9 as it is worded fails there: the task list is not the one with the
    path [./out], and after the run there is no file at [./out]. *)
Lemma single_file_counterexample :
  fst (listDriveFolderFiles Scenario.single_file 2 (mkTask "F1" "./out" "" false)
                            (Scenario.start tt))
  <> Returned (Some [mkTask "F1" "./out" "abc123" false], None) /\
  disk (snd (onRunDownload Scenario.single_file Scenario.digest 2
                           Scenario.single_file_config (Scenario.start tt)))
    !! "./out" = None.
Proof.
  split.
  - vm_compute. discriminate.
  - vm_compute. reflexivity.
Qed.

Lemma tree_world_serves : serves_without_gap Scenario.tree_world Scenario.tree.
Proof.
  unfold serves_without_gap.
  cbn [nodes Scenario.tree Scenario.docs Scenario.deep List.flat_map app].
  repeat (apply List.Forall_cons || apply List.Forall_nil);
    (split; [intros e; reflexivity|]); intros Hfolder; try discriminate Hfolder; clear Hfolder.
  - apply (without_gap_last Scenario.tree_world "R" ""
             (drive.mkFileList (map file_of (children_of Scenario.tree)) ""));
      [intros e; reflexivity | reflexivity].
  - apply (without_gap_last Scenario.tree_world "D1" "" (drive.mkFileList [] ""));
      [intros e; reflexivity | reflexivity].
  - apply (without_gap_more Scenario.tree_world "D2" ""
             (drive.mkFileList [Scenario.file "F2" "b.txt" "m2"; Scenario.file "F3" "c.txt" "m3"] "p2")
             [Scenario.folder "D3" "deep"; Scenario.file "F5" "e.txt" "m5"]);
      [intros e; reflexivity | discriminate | discriminate |].
    apply (without_gap_last Scenario.tree_world "D2" "p2"
             (drive.mkFileList [Scenario.folder "D3" "deep"; Scenario.file "F5" "e.txt" "m5"] ""));
      [intros e; reflexivity | reflexivity].
  - apply (without_gap_last Scenario.tree_world "D3" ""
             (drive.mkFileList [Scenario.file "F4" "d.txt" "m4"] ""));
      [intros e; reflexivity | reflexivity].
Qed.

Lemma walk_exhaustive_witness :
  (exists f0, forall fuel, (f0 <= fuel)%nat ->
     forall s : State unit, exists s',
       listDriveFolderFiles Scenario.tree_world fuel (mkTask "R" "./out" "" false) s
       = (Returned (Some Scenario.tree_tasks, None), s')) /\
  Permutation Scenario.tree_tasks (item_tasks ("./out", Scenario.tree)) /\
  Forall (fun task => Done task = false) Scenario.tree_tasks.
Proof.
  exact (walk_exhaustive Scenario.tree_world Scenario.tree "./out" tree_world_serves).
Defined.

Lemma load_save_round_trip_witness :
  fst (loadListFile "list.json"
         (snd (saveListFile (Scenario.steady false "list.json") (Some Scenario.sample)
                            "list.json" (Scenario.start tt))))
  = (Some Scenario.sample, None).
Proof.
  apply load_save_round_trip; vm_compute; reflexivity.
Defined.

(** The service holds two files in a folder and answers the listing of the
    folder with a page that has the first, a page without entries that
    carries a token, and a page that has the second.  The walk ends without
    an error and returns the task of the first file only. *)
Lemma walk_counterexample :
  serves Scenario.gapped Scenario.gapped_tree /\
  In (mkTask "F2" "out/b.txt" "def456" false) (item_tasks ("./out", Scenario.gapped_tree)) /\
  (forall (fuel : nat) (s : State unit),
      fst (listDriveFolderFiles Scenario.gapped (3 + fuel) (mkTask "R" "./out" "" false) s)
      = Returned (Some [mkTask "F1" "out/a.txt" "abc123" false], None)) /\
  ~ In (mkTask "F2" "out/b.txt" "def456" false) [mkTask "F1" "out/a.txt" "abc123" false] /\
  ~ Permutation [mkTask "F1" "out/a.txt" "abc123" false]
                (item_tasks ("./out", Scenario.gapped_tree)).
Proof.
  split; [|split; [|split; [|split]]].
  - unfold serves. cbn [nodes Scenario.gapped_tree List.flat_map app].
    repeat (apply List.Forall_cons || apply List.Forall_nil);
      (split; [intros e; reflexivity|]); intros Hfolder; try discriminate Hfolder; clear Hfolder.
    apply (paged_more Scenario.gapped "R" ""
             (drive.mkFileList [Scenario.file "F1" "a.txt" "abc123"] "p2")
             [Scenario.file "F2" "b.txt" "def456"]);
      [intros e; reflexivity | discriminate |].
    apply (paged_more Scenario.gapped "R" "p2" (drive.mkFileList [] "p3")
             [Scenario.file "F2" "b.txt" "def456"]);
      [intros e; reflexivity | discriminate |].
    apply (paged_last Scenario.gapped "R" "p3"
             (drive.mkFileList [Scenario.file "F2" "b.txt" "def456"] ""));
      [intros e; reflexivity | reflexivity].
  - vm_compute. auto.
  - intros fuel s. reflexivity.
  - intros [H|[]]. discriminate H.
  - intros H. apply Permutation_length in H. vm_compute in H. discriminate H.
Qed.


(** The list file holds five tasks and the service would fail to list the
    source: the run does not ask, and goes through the five tasks. *)
Lemma loaded_list_is_trusted_witness :
  let config := {| Src := "R"; Dst := "out"; ListFile := "list.json" |} in
  let s := mkState tt {["list.json" := json.Encode (Some Scenario.five)]} [] in
  (exists evs, trace (snd (onRunDownload Scenario.broken_listing Scenario.digest 0 config s))
               = [] ++ evs /\ Forall transfers evs) /\
  fst (onRunDownload Scenario.broken_listing Scenario.digest 0 config s)
  = Returned (Some (map set_done Scenario.five), None).
Proof.
  intros config s.
  assert (H1 : disk s !! ListFile config = Some (json.Encode (Some Scenario.five)))
    by (vm_compute; reflexivity).
  assert (H2 : json.Decode (json.Encode (Some Scenario.five)) = Some (Some Scenario.five))
    by (vm_compute; reflexivity).
  split; [|vm_compute; reflexivity].
  exact (proj2 (loaded_list_is_trusted Scenario.broken_listing Scenario.digest 0 config
                  (json.Encode (Some Scenario.five)) (Some Scenario.five) s H1 H2)).
Defined.

(** There is no list file and the second page of the source cannot be
    listed: the run ends with the error of the walk and an empty disk. *)
Lemma failed_walk_writes_nothing_witness :
  let config := {| Src := "R"; Dst := "out"; ListFile := "list.json" |} in
  let err := "list drive folder: R [root], err = Unable to list files, err = backendError" in
  fst (onRunDownload Scenario.broken_listing Scenario.digest 5 config (Scenario.start tt))
  = Returned (None, Some err) /\
  disk (snd (onRunDownload Scenario.broken_listing Scenario.digest 5 config (Scenario.start tt)))
  = ∅ /\
  exists evs,
    trace (snd (onRunDownload Scenario.broken_listing Scenario.digest 5 config
                              (Scenario.start tt)))
    = [] ++ evs ++ [EvLog (ListFilesErr err)] /\
    Forall (asks_or_opens "list.json") evs.
Proof.
  exact (failed_walk_writes_nothing Scenario.broken_listing Scenario.digest 5
           {| Src := "R"; Dst := "out"; ListFile := "list.json" |}
           "Unable to open list file: list.json, err = open list.json"
           "list drive folder: R [root], err = Unable to list files, err = backendError"
           None (Scenario.start tt)
           ltac:(vm_compute; reflexivity) ltac:(vm_compute; reflexivity)).
Defined.

(** A transfer that gives up on its first task: the list file then holds
    the list with no task done, and loading it gives that list. *)
Lemma next_run_loads_the_list_witness :
  fst (loadListFile "list.json"
         (snd (transfer (Scenario.flaky 100) Scenario.digest (Some Scenario.two_tasks)
                        "list.json" (Scenario.start 0%nat))))
  = (Some Scenario.two_tasks, None).
Proof.
  rewrite (next_run_loads_the_list (Scenario.flaky 100) Scenario.digest
             (Some Scenario.two_tasks) "list.json" (Scenario.start 0%nat));
    [vm_compute; reflexivity | vm_compute; reflexivity | intros e; reflexivity
    | intros doc e; reflexivity].
Defined.

